(** * DC2 postage stamps: cutout fetch and PSF subtraction

    A shallow embedding of the notebook [DC2_Postage_Stamps]: the cutout
    functions ([cutout_coadd_ra_dec], [cutout_coadd_spherepoint],
    [make_cutout_image], [display_cutout_image]), the loop over the catalog of
    targets, and the cells that scale a PSF model image and subtract it from a
    cutout.

    Python values are modelled as follows.
    - Python [int] is [Z]; [//] is floor division, which is [Z.div] for the
      positive divisor 2 used throughout.
    - numpy [float64] values are Rocq's primitive binary64 floats; a
      [float32] value is a binary64 float that binary32 represents, and
      [astype(np.float32)] is rounding to nearest even into binary32.
    - a 2-D numpy array is its dtype, its number of columns and its list of
      rows (the number of columns is kept apart so that a shape such as
      (0, 5) is represented).
    - a raised exception is an [Err] result; the state reached before the
      exception is kept, as in a notebook. *)

From Stdlib Require Import ZArith Floats List Lia.
From stdpp Require Import base gmap strings list pretty.
Import ListNotations.

Local Open Scope Z_scope.
Set Warnings "-inexact-float".

(** ** Exceptions and results *)

Inductive exn : Type :=
| UnsupportedKind
| LookupError
| NotFound
| IOError
| ModelUnavailable
| ZeroDivisionError
| IndexError
| ValueError
| TypeError
| AttributeError
| NameError
| KeyError
| RuntimeError (msg : string).

Inductive result (A : Type) : Type :=
| Ok (a : A)
| Err (e : exn).
Arguments Ok {A} a.
Arguments Err {A} e.

Definition is_ok {A} (r : result A) : bool :=
  match r with Ok _ => true | Err _ => false end.

(** ** Python sequences: indices and slices *)

(** [seq[i]]: a negative index counts from the end; out of range raises. *)
Definition py_index (i : Z) (n : nat) : result nat :=
  let i' := if i <? 0 then i + Z.of_nat n else i in
  if (i' <? 0) || (Z.of_nat n <=? i') then Err IndexError else Ok (Z.to_nat i').

(** A slice bound for step 1: negative bounds count from the end, and the
    outcome is clamped to [0, n]. *)
Definition py_adjust (i : Z) (n : nat) : nat :=
  if i <? 0
  then (if i + Z.of_nat n <? 0 then 0%nat else Z.to_nat (i + Z.of_nat n))
  else (if Z.of_nat n <=? i then n else Z.to_nat i).

Definition py_slice_len (start stop : Z) (n : nat) : nat :=
  (py_adjust stop n - py_adjust start n)%nat.

(** [seq[start:stop]]. *)
Definition py_slice {A} (start stop : Z) (l : list A) : list A :=
  take (py_slice_len start stop (length l)) (drop (py_adjust start (length l)) l).

(** ** numpy arrays *)

Inductive dtype : Type := float32 | float64.

Definition promote (a b : dtype) : dtype :=
  match a, b with
  | float32, float32 => float32
  | _, _ => float64
  end.

(** Rounding of a binary64 value to binary32 (to nearest, ties to even),
    returned as the binary64 value that equals it. *)
Definition to_f32 (x : float) : float :=
  match Prim2SF x with
  | S754_finite s m e =>
      match binary_round 24 128 s m e with
      | S754_finite s' m' e' => SF2Prim (binary_round 53 1024 s' m' e')
      | y => SF2Prim y
      end
  | _ => x
  end.

(** A binary64 value is a binary32 value when it is a zero, an infinity or
    not a number, or a finite [m * 2^e] that is below [2^128] and a multiple
    of the binary32 unit in the last place at its magnitude ([2^-149] for
    the subnormal values). This is said of the value alone, not through
    [to_f32]. *)
Definition is_float32 (x : float) : bool :=
  match Prim2SF x with
  | S754_finite _ m e =>
      let magnitude := Z.pos (digits2_pos m) + e in
      (Z.pos m mod 2 ^ (fexp 24 128 magnitude - e) =? 0) && (magnitude <=? 128)
  | _ => true
  end.

(** An arithmetic result stored at dtype [dt]. *)
Definition store (dt : dtype) (x : float) : float :=
  match dt with float32 => to_f32 x | float64 => x end.

Record array1 : Type := mk_array1 {
  a1_dtype : dtype;
  a1_data : list float
}.

Record array2 : Type := mk_array2 {
  a2_dtype : dtype;
  a2_ncols : nat;
  a2_rows : list (list float)
}.

Definition a2_nrows (a : array2) : nat := length (a2_rows a).

(** Every row has the array's number of columns. *)
Definition a2_wf (a : array2) : Prop :=
  Forall (fun r => length r = a2_ncols a) (a2_rows a).

(** [np.shape(a)] *)
Definition np_shape (a : array2) : Z * Z :=
  (Z.of_nat (a2_nrows a), Z.of_nat (a2_ncols a)).

Definition np_shape1 (a : array1) : Z := Z.of_nat (length (a1_data a)).

(** [a[i, :]] *)
Definition row_at (a : array2) (i : Z) : result array1 :=
  match py_index i (a2_nrows a) with
  | Err e => Err e
  | Ok k =>
      match a2_rows a !! k with
      | Some r => Ok (mk_array1 (a2_dtype a) r)
      | None => Err IndexError
      end
  end.

(** [a[start:stop]] on a 1-D array. *)
Definition slice1 (a : array1) (start stop : Z) : array1 :=
  mk_array1 (a1_dtype a) (py_slice start stop (a1_data a)).

(** [a[r0:r1, c0:c1]] *)
Definition slice2 (a : array2) (r0 r1 c0 c1 : Z) : array2 :=
  mk_array2 (a2_dtype a)
            (py_slice_len c0 c1 (a2_ncols a))
            (map (py_slice c0 c1) (py_slice r0 r1 (a2_rows a))).

(** Broadcasting of one axis: equal lengths, or one of them is 1. *)
Definition bcast_dim (m p : nat) : option nat :=
  if decide (m = p) then Some m
  else if decide (m = 1%nat) then Some p
  else if decide (p = 1%nat) then Some m
  else None.

(** An axis of length 1 is repeated to the broadcast length. *)
Definition stretch {A} (n : nat) (l : list A) : list A :=
  match l with
  | [x] => replicate n x
  | _ => l
  end.

(** [s * a] for a float64 scalar [s] and a float64 array [a] (the kernel
    image is an ImageD); the result is float64. *)
Definition scalar_mul1 (s : float) (a : array1) : array1 :=
  mk_array1 (promote float64 (a1_dtype a)) (map (PrimFloat.mul s) (a1_data a)).

Definition scalar_mul2 (s : float) (a : array2) : array2 :=
  mk_array2 (promote float64 (a2_dtype a)) (a2_ncols a)
            (map (map (PrimFloat.mul s)) (a2_rows a)).

(** [a - b] with broadcasting; shapes that do not broadcast raise. *)
Definition np_sub1 (a b : array1) : result array1 :=
  let dt := promote (a1_dtype a) (a1_dtype b) in
  match bcast_dim (length (a1_data a)) (length (a1_data b)) with
  | Some n =>
      Ok (mk_array1 dt
            (zip_with (fun x y => store dt (PrimFloat.sub x y))
                      (stretch n (a1_data a)) (stretch n (a1_data b))))
  | None => Err ValueError
  end.

Definition np_sub2 (a b : array2) : result array2 :=
  let dt := promote (a2_dtype a) (a2_dtype b) in
  match bcast_dim (a2_nrows a) (a2_nrows b),
        bcast_dim (a2_ncols a) (a2_ncols b) with
  | Some r, Some c =>
      Ok (mk_array2 dt c
            (zip_with
               (fun ra rb =>
                  zip_with (fun x y => store dt (PrimFloat.sub x y))
                           (stretch c ra) (stretch c rb))
               (stretch r (a2_rows a)) (stretch r (a2_rows b))))
  | _, _ => Err ValueError
  end.

(** [a.astype(np.float32)] *)
Definition astype_float32 (a : array2) : array2 :=
  mk_array2 float32 (a2_ncols a) (map (map to_f32) (a2_rows a)).

(** ** The crop of the PSF image

    [kernel_image.array[offset_nx//2:-offset_nx//2, offset_ny//2:-offset_ny//2]]:
    unary minus binds tighter than [//], so the stop bound is
    [(-offset) // 2]. *)
Definition crop_start (offset : Z) : Z := offset / 2.
Definition crop_stop (offset : Z) : Z := (- offset) / 2.

Definition crop_kernel (kernel : array2) (offset_nx offset_ny : Z) : array2 :=
  slice2 kernel (crop_start offset_nx) (crop_stop offset_nx)
                (crop_start offset_ny) (crop_stop offset_ny).

(** [kernel_slice[offset_nx//2:-offset_nx//2]] *)
Definition crop_kernel_slice (kernel_slice : array1) (offset_nx : Z) : array1 :=
  slice1 kernel_slice (crop_start offset_nx) (crop_stop offset_nx).

(** ** Geometry values of the image library *)

Record SpherePoint : Type := mk_SpherePoint { sp_ra : float; sp_dec : float }.
Record Point2D : Type := mk_Point2D { p2_x : float; p2_y : float }.
Record PointI : Type := mk_PointI { pi_x : Z; pi_y : Z }.
Record ExtentI : Type := mk_ExtentI { ext_x : Z; ext_y : Z }.

(** [BoxI(minimum, dimensions)]: the box as it is built, from its minimum
    corner and its dimensions. *)
Record BoxI : Type := mk_BoxI { box_min : PointI; box_dims : ExtentI }.

(** [extent // k] and [point - extent], componentwise. *)
Definition ExtentI_floordiv (e : ExtentI) (k : Z) : ExtentI :=
  mk_ExtentI (ext_x e / k) (ext_y e / k).

Definition PointI_sub (p : PointI) (e : ExtentI) : PointI :=
  mk_PointI (pi_x p - ext_x e) (pi_y p - ext_y e).

Definition box_width (b : BoxI) : Z := ext_x (box_dims b).
Definition box_height (b : BoxI) : Z := ext_y (box_dims b).

(** The sky map and its tracts and patches, as the lookups the notebook
    makes; a lookup outside the known tiles raises. *)
Record Wcs : Type := mk_Wcs { skyToPixel : SpherePoint -> result Point2D }.
Record PatchInfo : Type := mk_PatchInfo { patch_getIndex : Z * Z }.
Record TractInfo : Type := mk_TractInfo {
  tract_getId : Z;
  tract_getWcs : Wcs;
  tract_findPatch : SpherePoint -> result PatchInfo
}.
Record SkyMap : Type := mk_SkyMap { findTract : SpherePoint -> result TractInfo }.

(** The data id [{'tract': ..., 'patch': ..., 'filter': ...}]. *)
Record DataId : Type := mk_DataId {
  id_tract : Z;
  id_patch : string;
  id_filter : string
}.

(** ** Objects and the heap *)

Definition loc : Type := positive.

(** An Exposure refers to its three planes; its transform and origin are
    immutable values. *)
Record exposure : Type := mk_exposure {
  e_image : loc;
  e_mask : loc;
  e_variance : loc;
  e_wcs : Wcs;
  e_xy0 : PointI
}.

Inductive obj : Type :=
| OImage (a : array2)
| OMask (ncols : nat) (rows : list (list Z))
| OExposure (e : exposure).

(** What the storage collaborator hands over for an Exposure: the contents
    of the planes, the transform and the origin. *)
Record exposure_data : Type := mk_exposure_data {
  d_image : array2;
  d_mask_ncols : nat;
  d_mask : list (list Z);
  d_variance : array2;
  d_wcs : Wcs;
  d_xy0 : PointI
}.

Inductive bval : Type :=
| BSkyMap (m : SkyMap)
| BExposure (d : exposure_data).

Inductive Butler : Type := mk_Butler (repo : string).

Record Display : Type := mk_Display { disp_frame : option Z; disp_backend : string }.

(** Python values bound to names. *)
Inductive value : Type :=
| VNone
| VBool (b : bool)
| VInt (z : Z)
| VFloat (f : float)
| VStr (s : string)
| VArr1 (a : array1)
| VArr2 (a : array2)
| VRef (l : loc)
| VSkyMap (m : SkyMap)
| VButler (b : Butler)
| VDisplay (d : Display)
| VTable (rows : list (Z * float * float)).

(** ** Calls to the renderer and the storage collaborator *)

Inductive plt_call : Type :=
| plt_figure (num : Z)
| plt_clf
| plt_imshow (a : array2) (vmin vmax : float)
| plt_colorbar
| plt_scatter (x y : float)
| plt_title (label : string)
| plt_savefig (filename : string)
| plt_show
| plt_step (x y : array1) (label : string)
| plt_xlabel (s : string)
| plt_ylabel (s : string)
| plt_legend.

Inductive display_call : Type :=
| Display_new
| display_mtv (image : loc)
| display_scale (algorithm : string) (minmax : string)
| display_dot (symb : string) (x y : float) (ctype : string)
| display_show_colorbar.

Inductive event : Type :=
| EvButlerGet (b : Butler) (datasetType : string)
              (bbox : option BoxI) (dataId : option DataId)
| EvWriteFits (exp : loc) (filename : string)
| EvPlt (c : plt_call)
| EvDisplay (d : Display) (c : display_call).

(** The collaborators: the storage service, the renderer and the library
    functions whose algorithms are not part of the notebook. [W] is the
    collaborators' own state. *)
Record Env (W : Type) : Type := mk_Env {
  butler_get : Butler -> string -> option BoxI -> option DataId ->
               W -> W * result bval;
  render : event -> W -> W * result unit;
  np_sum : dtype -> list float -> float;
  zscale_get_limits : array2 -> result (float * float);
  PointI_of_Point2D : Point2D -> result PointI;
  format_2f : float -> string
}.
Arguments butler_get {W} _ _ _ _ _ _.
Arguments render {W} _ _ _.
Arguments np_sum {W} _ _ _.
Arguments zscale_get_limits {W} _ _.
Arguments PointI_of_Point2D {W} _ _.
Arguments format_2f {W} _ _.

(** ** The notebook state and its computations *)

Record state (W : Type) : Type := mk_state {
  world : W;
  log : list event;
  heap : gmap loc obj;
  globals : gmap string value
}.
Arguments mk_state {W} _ _ _ _.
Arguments world {W} _.
Arguments log {W} _.
Arguments heap {W} _.
Arguments globals {W} _.

(** A computation runs on a state and ends in a value or an exception; the
    state it reached is kept in both cases. *)
Definition M (W : Type) (A : Type) : Type := state W -> state W * result A.

Global Instance M_ret {W} : MRet (M W) := fun A a s => (s, Ok a).
Global Instance M_bind {W} : MBind (M W) :=
  fun A B k c s =>
    match c s with
    | (s', Ok a) => k a s'
    | (s', Err e) => (s', Err e)
    end.

Definition raise {W A} (e : exn) : M W A := fun s => (s, Err e).

Definition lift {W A} (r : result A) : M W A := fun s => (s, r).

Definition set_global {W} (name : string) (v : value) : M W unit :=
  fun s => (mk_state (world s) (log s) (heap s) (<[name := v]> (globals s)), Ok tt).

Definition get_global {W} (name : string) : M W value :=
  fun s => match globals s !! name with
           | Some v => (s, Ok v)
           | None => (s, Err NameError)
           end.

(** Allocation of a new object. *)
Definition alloc {W} (o : obj) : M W loc :=
  fun s => let l := fresh (dom (heap s)) in
           (mk_state (world s) (log s) (<[l := o]> (heap s)) (globals s), Ok l).

Definition heap_set {W} (l : loc) (o : obj) : M W unit :=
  fun s => (mk_state (world s) (log s) (<[l := o]> (heap s)) (globals s), Ok tt).

Definition deref {W} (l : loc) : M W obj :=
  fun s => match heap s !! l with
           | Some o => (s, Ok o)
           | None => (s, Err (RuntimeError "no object"))
           end.

(** A call to the renderer: logged, then answered by the collaborator. *)
Definition call_render {W} (E : Env W) (ev : event) : M W unit :=
  fun s => let '(w', r) := render E ev (world s) in
           (mk_state w' (log s ++ [ev]) (heap s) (globals s), r).

(** Attribute access on values of the wrong kind raises. *)
Definition as_ref {W} (v : value) : M W loc :=
  match v with VRef l => mret l | _ => raise AttributeError end.
Definition as_skymap {W} (v : value) : M W SkyMap :=
  match v with VSkyMap m => mret m | _ => raise AttributeError end.
Definition as_float {W} (v : value) : M W float :=
  match v with VFloat f => mret f | _ => raise TypeError end.
Definition as_int {W} (v : value) : M W Z :=
  match v with VInt z => mret z | _ => raise TypeError end.
Definition as_str {W} (v : value) : M W string :=
  match v with VStr s => mret s | _ => raise TypeError end.
Definition as_arr2 {W} (v : value) : M W array2 :=
  match v with VArr2 a => mret a | _ => raise TypeError end.
Definition as_butler {W} (v : value) : M W Butler :=
  match v with VButler b => mret b | _ => raise AttributeError end.
Definition as_table {W} (v : value) : M W (list (Z * float * float)) :=
  match v with VTable t => mret t | _ => raise TypeError end.

Definition get_exposure {W} (l : loc) : M W exposure :=
  o ← deref l;
  match o with OExposure e => mret e | _ => raise AttributeError end.

(** [img.array] of an Image object. *)
Definition image_array {W} (l : loc) : M W array2 :=
  o ← deref l;
  match o with OImage a => mret a | _ => raise AttributeError end.

(** [exp.image.array] *)
Definition exposure_image_array {W} (l : loc) : M W array2 :=
  e ← get_exposure l;
  image_array (e_image e).

(** [butler.get(datasetType, bbox=..., dataId=...)]: the read is logged and
    answered by the storage collaborator; an Exposure it returns becomes a
    new object of the notebook. *)
Definition Butler_get {W} (E : Env W) (butler : Butler) (datasetType : string)
    (bbox : option BoxI) (dataId : option DataId) : M W value :=
  r ← (fun s =>
         let '(w', r) := butler_get E butler datasetType bbox dataId (world s) in
         (mk_state w' (log s ++ [EvButlerGet butler datasetType bbox dataId])
                   (heap s) (globals s), r));
  match r with
  | BSkyMap m => mret (VSkyMap m)
  | BExposure d =>
      li ← alloc (OImage (d_image d));
      lm ← alloc (OMask (d_mask_ncols d) (d_mask d));
      lv ← alloc (OImage (d_variance d));
      l ← alloc (OExposure (mk_exposure li lm lv (d_wcs d) (d_xy0 d)));
      mret (VRef l)
  end.

(** Python truthiness, as used by [if savefits:] and [if saveplot:]. For
    None, a bool, a number or a string this is Python's own test. For an
    array or an object the test belongs to its library (numpy refuses an
    array of several elements); what is stated about the outcome of the
    test is stated for the former values. *)
Definition truthy (v : value) : bool :=
  match v with
  | VNone => false
  | VBool b => b
  | VInt z => negb (z =? 0)
  | VFloat f => negb (PrimFloat.eqb f 0%float)
  | VStr s => negb (String.eqb s EmptyString)
  | VArr1 _ | VArr2 _ => true
  | VRef _ | VSkyMap _ | VButler _ | VDisplay _ => true
  | VTable rows => negb (Nat.eqb (length rows) 0)
  end.

(** [int] to [float], as in [xy.getX() - cutout_image.getX0()]. *)
Definition float_of_Z (z : Z) : float :=
  if z <? 0
  then PrimFloat.opp (PrimFloat.of_uint63 (Uint63.of_Z (- z)))
  else PrimFloat.of_uint63 (Uint63.of_Z z).

(** [np.arange(n) - n/2] *)
Definition centered_arange (n : Z) : array1 :=
  mk_array1 float64
    (map (fun i => PrimFloat.sub (float_of_Z i)
                                 (PrimFloat.div (float_of_Z n) 2%float))
         (seqZ 0 n)).

(** ** How To Make a Cutout Image *)

Section Cutouts.
Context {W : Type} (E : Env W).

(** [cutout_coadd_spherepoint(butler, radec, filter='r',
    datasetType='deepCoadd', skymap=None, cutoutSideLength=51)] *)
Definition cutout_coadd_spherepoint (butler : Butler) (radec : SpherePoint)
    (filter : string) (datasetType : string) (skymap : value)
    (cutoutSideLength : Z) : M W value :=
  let cutoutSize := mk_ExtentI cutoutSideLength cutoutSideLength in
  skymap ← match skymap with
            | VNone => Butler_get E butler (datasetType +:+ "_skyMap") None None
            | _ => mret skymap
            end;
  (* Look up the tract, patch for the RA, Dec *)
  skymap ← as_skymap skymap;
  tractInfo ← lift (findTract skymap radec);
  patchInfo ← lift (tract_findPatch tractInfo radec);
  p ← lift (skyToPixel (tract_getWcs tractInfo) radec);
  xy ← lift (PointI_of_Point2D E p);
  let bbox := mk_BoxI (PointI_sub xy (ExtentI_floordiv cutoutSize 2)) cutoutSize in
  let coaddId :=
    mk_DataId (tract_getId tractInfo)
              (pretty (patch_getIndex patchInfo).1 +:+ "," +:+
               pretty (patch_getIndex patchInfo).2)
              filter in
  cutout_image ← Butler_get E butler (datasetType +:+ "_sub")
                             (Some bbox) (Some coaddId);
  mret cutout_image.

(** [cutout_coadd_ra_dec(butler, ra, dec, filter='r',
    datasetType='deepCoadd')]: the sky map and the side length are not
    passed on, so the callee's defaults apply. *)
Definition cutout_coadd_ra_dec (butler : Butler) (ra dec : float)
    (filter : string) (datasetType : string) : M W value :=
  let radec := mk_SpherePoint ra dec in
  cutout_coadd_spherepoint butler radec filter datasetType VNone 51.

(** [cutout_image.writeFits(filename)] *)
Definition writeFits (cutout_image : value) (filename : string) : M W unit :=
  l ← as_ref cutout_image;
  _ ← get_exposure l;
  call_render E (EvWriteFits l filename).

(** The [if savefits:] block shared by the two display functions. *)
Definition save_fits_block (cutout_image : value) (savefits : value) : M W unit :=
  if truthy savefits then
    let filename := match savefits with
                    | VStr s => s
                    | _ => "postage-stamp.fits"
                    end in
    writeFits cutout_image filename
  else mret tt.

(** [cutout_image.getWcs().skyToPixel(radec)] *)
Definition exposure_skyToPixel (cutout_image : value) (radec : SpherePoint)
    : M W Point2D :=
  l ← as_ref cutout_image;
  e ← get_exposure l;
  lift (skyToPixel (e_wcs e) radec).

Definition exposure_xy0 (cutout_image : value) : M W PointI :=
  l ← as_ref cutout_image;
  e ← get_exposure l;
  mret (e_xy0 e).

(** [make_cutout_image(butler, ra, dec, filter='r', vmin=None, vmax=None,
    label=None, show=True, saveplot=False, savefits=False,
    datasetType='deepCoadd')] *)
Definition make_cutout_image (butler : Butler) (ra dec : float)
    (filter : string) (vmin vmax : option float) (label : option string)
    (show : bool) (saveplot savefits : value) (datasetType : string)
    : M W value :=
  cutout_image ← cutout_coadd_ra_dec butler ra dec filter "deepCoadd";
  save_fits_block cutout_image savefits;;
  let radec := mk_SpherePoint ra dec in
  xy ← exposure_skyToPixel cutout_image radec;
  limits ← match vmin, vmax with
            | Some lo, Some hi => mret (lo, hi)
            | _, _ =>
                a ← (as_ref cutout_image ≫= exposure_image_array);
                lift (zscale_get_limits E a)
            end;
  a ← (as_ref cutout_image ≫= exposure_image_array);
  call_render E (EvPlt (plt_imshow a limits.1 limits.2));;
  call_render E (EvPlt plt_colorbar);;
  xy0 ← exposure_xy0 cutout_image;
  call_render E (EvPlt (plt_scatter
                          (PrimFloat.sub (p2_x xy) (float_of_Z (pi_x xy0)))
                          (PrimFloat.sub (p2_y xy) (float_of_Z (pi_y xy0)))));;
  match label with
  | Some l => call_render E (EvPlt (plt_title l))
  | None => mret tt
  end;;
  (if truthy saveplot then
     let filename := match saveplot with
                     | VStr s => s
                     | _ => "postage-stamp.png"
                     end in
     call_render E (EvPlt (plt_savefig filename))
   else mret tt);;
  (if show then call_render E (EvPlt plt_show) else mret tt);;
  mret cutout_image.

(** [display_cutout_image(butler, ra, dec, vmin=None, vmax=None,
    label=None, frame=None, display=None, backend='matplotlib', show=True,
    saveplot=False, savefits=False, old_matplotlib=False,
    datasetType='deepCoadd')] *)
Definition display_cutout_image (butler : Butler) (ra dec : float)
    (vmin vmax : option float) (label : option string) (frame : option Z)
    (display : option Display) (backend : string) (show : bool)
    (saveplot savefits : value) (old_matplotlib : bool)
    (datasetType : string) : M W value :=
  cutout_image ← cutout_coadd_ra_dec butler ra dec "r" "deepCoadd";
  save_fits_block cutout_image savefits;;
  display ← match display with
             | None =>
                 let d := mk_Display frame backend in
                 call_render E (EvDisplay d Display_new);; mret d
             | Some d => mret d
             end;
  let radec := mk_SpherePoint ra dec in
  xy ← exposure_skyToPixel cutout_image radec;
  l ← as_ref cutout_image;
  call_render E (EvDisplay display (display_mtv l));;
  call_render E (EvDisplay display (display_scale "asinh" "zscale"));;
  call_render E (EvDisplay display (display_dot "o" (p2_x xy) (p2_y xy) "red"));;
  call_render E (EvDisplay display display_show_colorbar);;
  mret cutout_image.

(** ** Making Some Postage Stamps *)

(** A Python [for] loop: an exception in the body leaves the loop. *)
Fixpoint for_each {A} (body : A -> M W unit) (l : list A) : M W unit :=
  match l with
  | [] => mret tt
  | x :: l' => body x;; for_each body l'
  end.

(** The body of [for objectId, ra, dec in id_ra_dec:]; [frame], [show],
    [datasetType], [vmin] and [vmax] are the values the cell has just
    bound. *)
Definition stamps_body (frame : Z) (show : bool) (datasetType : string)
    (vmin vmax : float) (row : Z * float * float) : M W unit :=
  let '(objectId, ra, dec) := row in
  set_global "objectId" (VInt objectId);;
  set_global "ra" (VFloat ra);;
  set_global "dec" (VFloat dec);;
  call_render E (EvPlt (plt_figure frame));;
  call_render E (EvPlt plt_clf);;
  filter ← (get_global "filter" ≫= as_str);
  let basename := "Stamps/" +:+ datasetType +:+ "_" +:+ pretty objectId
                  +:+ "_" +:+ filter in
  set_global "basename" (VStr basename);;
  let saveplot := basename +:+ ".png" in
  set_global "saveplot" (VStr saveplot);;
  let savefits := basename +:+ ".fits" in
  set_global "savefits" (VStr savefits);;
  butler ← (get_global "butler" ≫= as_butler);
  _ ← make_cutout_image butler ra dec filter (Some vmin) (Some vmax)
                        (Some ("Object ID: " +:+ pretty objectId))
                        show (VStr saveplot) (VStr savefits) datasetType;
  mret tt.

Definition cell_stamps : M W unit :=
  let frame := 1 in
  set_global "frame" (VInt frame);;
  let show := false in
  set_global "show" (VBool show);;
  let datasetType := "deepCoadd" in
  set_global "datasetType" (VStr datasetType);;
  let vmin := (-0.75)%float in
  let vmax := 1.5%float in
  set_global "vmin" (VFloat vmin);;
  set_global "vmax" (VFloat vmax);;
  id_ra_dec ← (get_global "id_ra_dec" ≫= as_table);
  for_each (stamps_body frame show datasetType vmin vmax) id_ra_dec.

End Cutouts.

(** ** Using the PSF Model: scaling and subtraction *)

Section Residual.
Context {W : Type} (E : Env W).

(** [name.image.array] for a name bound to an Exposure. *)
Definition global_exposure_array (name : string) : M W array2 :=
  v ← get_global name;
  l ← as_ref v;
  exposure_image_array l.

(** [name.array] for a name bound to an Image. *)
Definition global_image_array (name : string) : M W array2 :=
  v ← get_global name;
  l ← as_ref v;
  image_array l.

(** The cell that takes the central slices and computes [scaling]. The
    slices are views of the image memory; the notebook never writes to
    it, so the values bound to [cutout_slice] and [kernel_slice] are their
    contents. *)
Definition cell_scaling : M W unit :=
  let frame := 3 in
  set_global "frame" (VInt frame);;
  call_render E (EvPlt (plt_figure frame));;
  a ← global_exposure_array "cutout";
  let '(cutout_nx, cutout_ny) := np_shape a in
  set_global "cutout_nx" (VInt cutout_nx);;
  set_global "cutout_ny" (VInt cutout_ny);;
  k ← global_image_array "kernel_image";
  let '(kernel_nx, kernel_ny) := np_shape k in
  set_global "kernel_nx" (VInt kernel_nx);;
  set_global "kernel_ny" (VInt kernel_ny);;
  a ← global_exposure_array "cutout";
  cutout_slice ← lift (row_at a (cutout_nx / 2));
  set_global "cutout_slice" (VArr1 cutout_slice);;
  k ← global_image_array "kernel_image";
  kernel_slice ← lift (row_at k (kernel_nx / 2));
  set_global "kernel_slice" (VArr1 kernel_slice);;
  (* Normalize PSF sum to cutout sum in this slice *)
  let scaling :=
    PrimFloat.div
      (np_sum E (a1_dtype cutout_slice) (a1_data cutout_slice))
      (np_sum E (a1_dtype kernel_slice) (a1_data kernel_slice)) in
  set_global "scaling" (VFloat scaling);;
  call_render E (EvPlt (plt_step (centered_arange cutout_nx) cutout_slice
                                 "Postage Stamp slice"));;
  call_render E (EvPlt (plt_step (centered_arange kernel_nx)
                                 (scalar_mul1 scaling kernel_slice)
                                 ("PSF scaled by " +:+ format_2f E scaling)));;
  (* Assume that the PSF kernel size is *larger* than the cutout size. *)
  let offset_nx := kernel_nx - cutout_nx in
  set_global "offset_nx" (VInt offset_nx);;
  let offset_ny := kernel_ny - cutout_ny in
  set_global "offset_ny" (VInt offset_ny);;
  residual_slice ←
    lift (np_sub1 cutout_slice
                  (scalar_mul1 scaling (crop_kernel_slice kernel_slice offset_nx)));
  call_render E (EvPlt (plt_step (centered_arange cutout_nx) residual_slice
                                 "Postage stamp - scaled PSF"));;
  call_render E (EvPlt (plt_xlabel "x"));;
  call_render E (EvPlt (plt_ylabel "counts in pixel"));;
  call_render E (EvPlt plt_legend);;
  call_render E (EvPlt plt_show).

(** The cell that binds [cutout_minus_psf]. *)
Definition cell_subtract : M W unit :=
  a ← global_exposure_array "cutout";
  scaling ← (get_global "scaling" ≫= as_float);
  k ← global_image_array "kernel_image";
  offset_nx ← (get_global "offset_nx" ≫= as_int);
  offset_ny ← (get_global "offset_ny" ≫= as_int);
  cutout_minus_psf ←
    lift (np_sub2 a (scalar_mul2 scaling (crop_kernel k offset_nx offset_ny)));
  set_global "cutout_minus_psf" (VArr2 cutout_minus_psf).

(** The image library's [Exposure.clone()]: a deep copy, with planes of
    its own. *)
Definition Exposure_clone (l : loc) : M W loc :=
  e ← get_exposure l;
  img ← deref (e_image e);
  li ← alloc img;
  msk ← deref (e_mask e);
  lm ← alloc msk;
  var ← deref (e_variance e);
  lv ← alloc var;
  alloc (OExposure (mk_exposure li lm lv (e_wcs e) (e_xy0 e))).

(** [afwImage.ImageF(array)]: an image over the array's memory; only a
    float32 array is accepted. *)
Definition ImageF_of_array (a : array2) : M W loc :=
  match a2_dtype a with
  | float32 => alloc (OImage a)
  | float64 => raise TypeError
  end.

(** [afwImage.ImageF(image)]: a shallow copy, which shares the pixels. *)
Definition ImageF_of_image (l : loc) : M W loc :=
  _ ← image_array l;
  mret l.

(** [exposure.setImage(image)]: the image plane of this Exposure becomes
    [image]; the other planes stay. *)
Definition Exposure_setImage (l : loc) (image : loc) : M W unit :=
  e ← get_exposure l;
  heap_set l (OExposure (mk_exposure image (e_mask e) (e_variance e)
                                     (e_wcs e) (e_xy0 e))).

(** The cell that builds [residual] and shows the cutout. *)
Definition cell_residual : M W unit :=
  cutout ← (get_global "cutout" ≫= as_ref);
  residual ← Exposure_clone cutout;
  set_global "residual" (VRef residual);;
  cutout_minus_psf ← (get_global "cutout_minus_psf" ≫= as_arr2);
  img ← ImageF_of_array (astype_float32 cutout_minus_psf);
  img ← ImageF_of_image img;
  Exposure_setImage residual img;;
  let frame := 4 in
  set_global "frame" (VInt frame);;
  call_render E (EvPlt (plt_figure frame));;
  let display := mk_Display (Some frame) "matplotlib" in
  call_render E (EvDisplay display Display_new);;
  set_global "display" (VDisplay display);;
  call_render E (EvDisplay display (display_scale "linear" "minmax"));;
  cutout ← (get_global "cutout" ≫= as_ref);
  call_render E (EvDisplay display (display_mtv cutout)).

(** The three cells in the order of the notebook. *)
Definition residual_compositor : M W unit :=
  cell_scaling;; cell_subtract;; cell_residual.

(** The pixels of the Exposure bound to [name], read from a state. *)
Definition exposure_pixels (name : string) (s : state W) : option array2 :=
  match globals s !! name with
  | Some (VRef l) =>
      match heap s !! l with
      | Some (OExposure e) =>
          match heap s !! e_image e with
          | Some (OImage a) => Some a
          | _ => None
          end
      | _ => None
      end
  | _ => None
  end.

End Residual.

(** ** A small world for examples *)

Module Demo.

(** Summation from left to right at the array's dtype. *)
Definition sum_left (dt : dtype) (l : list float) : float :=
  fold_left (fun acc x => store dt (PrimFloat.add acc x)) l 0%float.

(** Rounding to the nearest integer, [floor(x + 0.5)]. *)
Definition round_half_up (x : float) : result Z :=
  match Prim2SF (PrimFloat.add x 0.5%float) with
  | S754_zero _ => Ok 0
  | S754_finite sgn m e =>
      let q := if 0 <=? e then Z.pos m * 2 ^ e else Z.pos m / 2 ^ (- e) in
      let r := if 0 <=? e then 0 else Z.pos m mod 2 ^ (- e) in
      Ok (if sgn then (if r =? 0 then - q else - q - 1) else q)
  | _ => Err ValueError
  end.

Definition wcs : Wcs :=
  mk_Wcs (fun p => Ok (mk_Point2D (sp_ra p) (sp_dec p))).

Definition patch : PatchInfo := mk_PatchInfo (1, 2).

Definition tract : TractInfo := mk_TractInfo 4850 wcs (fun _ => Ok patch).

(** One tract, which covers the points of non-negative right ascension. *)
Definition skymap : SkyMap :=
  mk_SkyMap (fun p => if PrimFloat.ltb (sp_ra p) 0%float
                      then Err LookupError else Ok tract).

Definition pixels (dt : dtype) (h w : nat) (x : float) : array2 :=
  mk_array2 dt w (replicate h (replicate w x)).

Definition coadd (bbox : BoxI) : exposure_data :=
  let w := Z.to_nat (box_width bbox) in
  let h := Z.to_nat (box_height bbox) in
  mk_exposure_data (pixels float32 h w 1%float) w (replicate h (replicate w 0))
                   (pixels float32 h w 1%float) wcs (box_min bbox).

(** A store that holds the coadds only and counts its reads, and a
    renderer that never fails. *)
Definition env : Env nat :=
  mk_Env nat
    (fun _ name bbox _ w =>
       (S w,
        if String.eqb name "deepCoadd_skyMap" then Ok (BSkyMap skymap)
        else if String.eqb name "deepCoadd_sub" then
               match bbox with
               | Some b => Ok (BExposure (coadd b))
               | None => Err NotFound
               end
        else Err NotFound))
    (fun _ w => (w, Ok tt))
    sum_left
    (fun _ => Ok (0%float, 1%float))
    (fun p => match round_half_up (p2_x p), round_half_up (p2_y p) with
              | Ok x, Ok y => Ok (mk_PointI x y)
              | _, _ => Err ValueError
              end)
    (fun _ => "0.00").

Definition butler : Butler := mk_Butler "repo".

Definition start : state nat :=
  mk_state 0%nat [] ∅
           (<["butler" := VButler butler]> (<["filter" := VStr "r"]> ∅)).

(** A 3×3 cutout and a 5×5 PSF image, bound as in the notebook. *)
Definition cutout_pixels : array2 :=
  mk_array2 float32 3
    [[100; 200; 100]; [200; 600; 200]; [100; 200; 100]]%float.

Definition kernel_pixels : array2 :=
  mk_array2 float64 5
    [[0; 0; 0; 0; 0];
     [0; 0; 0.0025; 0; 0];
     [0; 0; 0.01; 0; 0];
     [0; 0; 0.0025; 0; 0];
     [0; 0; 0; 0; 0]]%float.

Definition cutout_exposure : exposure :=
  mk_exposure 1%positive 2%positive 3%positive wcs (mk_PointI 10 20).

Definition stamp_heap : gmap loc obj :=
  <[1%positive := OImage cutout_pixels]>
    (<[2%positive := OMask 3 (replicate 3 (replicate 3 0))]>
       (<[3%positive := OImage (pixels float32 3 3 1%float)]>
          (<[4%positive := OExposure cutout_exposure]>
             (<[5%positive := OImage kernel_pixels]> ∅)))).

Definition stamp_globals : gmap string value :=
  <["cutout" := VRef 4%positive]> (<["kernel_image" := VRef 5%positive]> ∅).

Definition stamp : state nat := mk_state 0%nat [] stamp_heap stamp_globals.

(** A PSF image whose central row is zero. *)
Definition flat_kernel : array2 := pixels float64 5 5 0%float.

Definition flat_stamp : state nat :=
  mk_state 0%nat []
           (<[5%positive := OImage flat_kernel]> stamp_heap) stamp_globals.

(** A 3×3 PSF image for a 3×3 cutout. *)
Definition small_kernel : array2 :=
  mk_array2 float64 3 [[0; 0.25; 0]; [0.25; 0; 0.25]; [0; 0.25; 0]]%float.

(** A 61×61 PSF image. *)
Definition full_kernel : array2 := pixels float64 61 61 0.125%float.

(** The state after the scaling cell, with the names the next cell reads. *)
Definition scaled_stamp : state nat :=
  mk_state 0%nat [] stamp_heap
    (<["scaling" := VFloat 100000%float]>
       (<["offset_nx" := VInt 2]> (<["offset_ny" := VInt 2]> stamp_globals))).

(** The state after the subtraction. *)
Definition subtracted_pixels : array2 :=
  mk_array2 float64 3
    [[100; -50; 100]; [200; -400; 200]; [100; -50; 100]]%float.

Definition subtracted_stamp : state nat :=
  mk_state 0%nat [] stamp_heap
    (<["cutout_minus_psf" := VArr2 subtracted_pixels]> stamp_globals).

End Demo.

(** ** What the residual cells are run on *)

(** The names [cutout] and [kernel_image] are bound, as in the notebook, to
    an Exposure with its three planes and to an Image. *)
Record stamp_inputs {W} (s : state W) (lc : loc) (e : exposure) (a : array2)
    (lk : loc) (k : array2) : Prop := mk_stamp_inputs {
  in_cutout : globals s !! "cutout" = Some (VRef lc);
  in_exposure : heap s !! lc = Some (OExposure e);
  in_image : heap s !! e_image e = Some (OImage a);
  in_mask : is_Some (heap s !! e_mask e);
  in_variance : is_Some (heap s !! e_variance e);
  in_kernel : globals s !! "kernel_image" = Some (VRef lk);
  in_kernel_image : heap s !! lk = Some (OImage k)
}.

(** The cutout is an ExposureF (float32) of shape m×n with at least one row,
    the PSF image an ImageD (float64) that is larger by the same amount in
    both axes. *)
Record stamp_shapes (a k : array2) : Prop := mk_stamp_shapes {
  sh_cutout_wf : a2_wf a;
  sh_kernel_wf : a2_wf k;
  sh_cutout_dtype : a2_dtype a = float32;
  sh_kernel_dtype : a2_dtype k = float64;
  sh_rows : (0 < a2_nrows a < a2_nrows k)%nat;
  sh_cols : (a2_ncols a < a2_ncols k)%nat;
  sh_square : Z.of_nat (a2_nrows k) - Z.of_nat (a2_nrows a)
              = Z.of_nat (a2_ncols k) - Z.of_nat (a2_ncols a)
}.

(** The renderer never raises. *)
Definition render_ok {W} (E : Env W) : Prop :=
  forall ev w, (render E ev w).2 = Ok tt.

(** The row of index [floor(rows / 2)]. *)
Definition middle_row (a : array2) : option (list float) :=
  a2_rows a !! (a2_nrows a `div` 2)%nat.

(** [a[i][j]] *)
Definition pixel (a : array2) (i j : nat) : option float :=
  r ← a2_rows a !! i; r !! j.

(** ** What the cells bind, in closed form *)

(** [scaling], from the two central rows. *)
Definition scaling_of {W} (E : Env W) (crow krow : list float) : float :=
  PrimFloat.div (np_sum E float32 crow) (np_sum E float64 krow).

(** [cutout_slice - scaling * kernel_slice[offset//2:-offset//2]] *)
Definition residual_slice_of (scaling : float) (crow krow : list float)
    (offset : Z) : array1 :=
  mk_array1 float64
    (zip_with (fun x y => PrimFloat.sub x (PrimFloat.mul scaling y)) crow
              (py_slice (crop_start offset) (crop_stop offset) krow)).

(** [cutout - scaling * cropped], elementwise. *)
Definition cutout_minus_psf_of (scaling : float) (a cropped : array2) : array2 :=
  mk_array2 float64 (a2_ncols a)
    (zip_with (zip_with (fun x y => PrimFloat.sub x (PrimFloat.mul scaling y)))
              (a2_rows a) (a2_rows cropped)).

(** The names bound by the scaling cell. *)
Definition scaling_bindings {W} (E : Env W) (a k : array2)
    (crow krow : list float) (g : gmap string value) : gmap string value :=
  let cutout_nx := Z.of_nat (a2_nrows a) in
  let cutout_ny := Z.of_nat (a2_ncols a) in
  let kernel_nx := Z.of_nat (a2_nrows k) in
  let kernel_ny := Z.of_nat (a2_ncols k) in
  <["offset_ny" := VInt (kernel_ny - cutout_ny)]>
    (<["offset_nx" := VInt (kernel_nx - cutout_nx)]>
       (<["scaling" := VFloat (scaling_of E crow krow)]>
          (<["kernel_slice" := VArr1 (mk_array1 float64 krow)]>
             (<["cutout_slice" := VArr1 (mk_array1 float32 crow)]>
                (<["kernel_ny" := VInt kernel_ny]>
                   (<["kernel_nx" := VInt kernel_nx]>
                      (<["cutout_ny" := VInt cutout_ny]>
                         (<["cutout_nx" := VInt cutout_nx]>
                            (<["frame" := VInt 3]> g))))))))).

(** The calls the scaling cell makes to the renderer. *)
Definition scaling_events {W} (E : Env W) (a k : array2)
    (crow krow : list float) : list event :=
  let cutout_nx := Z.of_nat (a2_nrows a) in
  let kernel_nx := Z.of_nat (a2_nrows k) in
  let scaling := scaling_of E crow krow in
  [ EvPlt (plt_figure 3);
    EvPlt (plt_step (centered_arange cutout_nx) (mk_array1 float32 crow)
                    "Postage Stamp slice");
    EvPlt (plt_step (centered_arange kernel_nx)
                    (scalar_mul1 scaling (mk_array1 float64 krow))
                    ("PSF scaled by " +:+ format_2f E scaling));
    EvPlt (plt_step (centered_arange cutout_nx)
                    (residual_slice_of scaling crow krow (kernel_nx - cutout_nx))
                    "Postage stamp - scaled PSF");
    EvPlt (plt_xlabel "x");
    EvPlt (plt_ylabel "counts in pixel");
    EvPlt plt_legend;
    EvPlt plt_show ].

(** A float that is an infinity or not a number. *)
Definition not_finite (x : float) : bool :=
  match Prim2SF x with
  | S754_infinity _ | S754_nan => true
  | _ => false
  end.

(** The state [s'] holds, beside everything the heap [h] held, a residual
    Exposure of its own: new planes, the pixels [r] rounded to float32 as its
    image, copies of the cutout's mask and variance, and the cutout's
    transform and origin. The names other than [residual], [frame] and
    [display] are bound as in [g]. *)
Definition residual_built {W} (h : gmap loc obj) (g : gmap string value)
    (e : exposure) (om ov : obj) (r : array2) (s' : state W) : Prop :=
  (forall name, name <> "residual" -> name <> "frame" -> name <> "display" ->
                globals s' !! name = g !! name)
  /\ (forall p o, h !! p = Some o -> heap s' !! p = Some o)
  /\ exists lr er,
       globals s' !! "residual" = Some (VRef lr)
       /\ h !! lr = None
       /\ heap s' !! lr = Some (OExposure er)
       /\ h !! e_image er = None
       /\ h !! e_mask er = None
       /\ h !! e_variance er = None
       /\ heap s' !! e_image er = Some (OImage (astype_float32 r))
       /\ heap s' !! e_mask er = Some om
       /\ heap s' !! e_variance er = Some ov
       /\ e_wcs er = e_wcs e
       /\ e_xy0 er = e_xy0 e.

(** ** What a computation sends to the collaborators *)

(** Every run of [c] appends to the log, and what it appends satisfies [P]. *)
Definition emits {W A} (P : event -> Prop) (c : M W A) : Prop :=
  forall s, exists new, log (c s).1 = log s ++ new /\ Forall P new.

(** A read of the coadd in band [filter]: the sky map of [deepCoadd], or a
    sub-image of [deepCoadd] with [filter] in its data id. Other events are
    not reads. *)
Definition coadd_read (filter : string) (ev : event) : Prop :=
  match ev with
  | EvButlerGet _ name bbox dataId =>
      (name = "deepCoadd_skyMap" /\ bbox = None /\ dataId = None)
      \/ (name = "deepCoadd_sub" /\ is_Some bbox
          /\ option_map id_filter dataId = Some filter)
  | _ => True
  end.

(** A read names a dataset type made from [datasetType]. *)
Definition read_of (datasetType : string) (ev : event) : Prop :=
  match ev with
  | EvButlerGet _ name _ _ =>
      name = datasetType +:+ "_skyMap" \/ name = datasetType +:+ "_sub"
  | _ => True
  end.

Definition is_butler_read (ev : event) : bool :=
  match ev with
  | EvButlerGet _ _ _ _ => true
  | _ => false
  end.

(** The catalog of three targets used in the examples; the second lies
    outside the sky map. *)
Definition demo_catalog : list (Z * float * float) :=
  [(1, 10.25%float, 20.5%float); (2, (-5)%float, 20.5%float);
   (3, 30%float, 40%float)].

Definition demo_catalog_state : state nat :=
  mk_state 0%nat [] ∅
    (<["id_ra_dec" := VTable demo_catalog]>
       (<["butler" := VButler Demo.butler]> (<["filter" := VStr "r"]> ∅))).

(** The body of the loop as the cell runs it, the state in which the loop
    starts, and the states after the first and the second target. *)
Definition demo_loop_body : Z * float * float -> M nat unit :=
  stamps_body Demo.env 1 false "deepCoadd" (-0.75)%float 1.5%float.

Definition demo_loop_start : state nat :=
  mk_state 0%nat [] ∅
    (<["vmax" := VFloat 1.5%float]>
       (<["vmin" := VFloat (-0.75)%float]>
          (<["datasetType" := VStr "deepCoadd"]>
             (<["show" := VBool false]>
                (<["frame" := VInt 1]> (globals demo_catalog_state)))))).

Definition demo_after_first : state nat :=
  (for_each demo_loop_body [(1, 10.25%float, 20.5%float)] demo_loop_start).1.

Definition demo_after_second : state nat :=
  (demo_loop_body (2, (-5)%float, 20.5%float) demo_after_first).1.

(** ** The log and the effects of the display functions *)

(** The file name used by the [if savefits:] block: the string passed, or
    the default name for any other true value. *)
Definition fits_filename (savefits : value) : string :=
  match savefits with
  | VStr s => s
  | _ => "postage-stamp.fits"
  end.

Definition is_read (ev : event) : Prop := is_butler_read ev = true.

Definition is_plt (ev : event) : Prop :=
  match ev with
  | EvPlt _ => True
  | _ => False
  end.

(** A call on the display [d]; a display is created only when [created]. *)
Definition is_display_on (d : Display) (created : bool) (ev : event) : Prop :=
  match ev with
  | EvDisplay d' c => d' = d /\ (c = Display_new -> created = true)
  | _ => False
  end.

(** The values whose truth Python decides by itself: None, a bool, a
    number or a string. For them [truthy] is the test made by [if]; for an
    array or an object the test is the library's. *)
Definition is_plain (v : value) : bool :=
  match v with
  | VNone | VBool _ | VInt _ | VFloat _ | VStr _ => true
  | _ => false
  end.

(** What one [if savefits:] block writes: nothing, or the Exposure [p] under
    the file name of [savefits]. *)
Definition fits_written (savefits : value) (writes : list event) : Prop :=
  writes = [] \/ exists p, writes = [EvWriteFits p (fits_filename savefits)].

(** The events [new] are reads, then what the [if savefits:] block writes,
    then drawing calls; a call that ends normally returns an Exposure, and
    has written that Exposure when [savefits] is true. *)
Definition phased (draws_ok : event -> Prop) (savefits : value)
    (r : result value) (new : list event) : Prop :=
  exists reads writes draws,
    new = reads ++ writes ++ draws
    /\ Forall is_read reads
    /\ fits_written savefits writes
    /\ Forall draws_ok draws
    /\ (truthy savefits = false -> writes = [])
    /\ (forall v, r = Ok v ->
          exists p, v = VRef p
                    /\ (truthy savefits = true ->
                        writes = [EvWriteFits p (fits_filename savefits)])).

(** Every run of [c] ends in a state related to the one it started in. *)
Definition preserves {W A} (R : relation (state W)) (c : M W A) : Prop :=
  forall s, R s (c s).1.

(** States related through their heaps and their global names. *)
Definition state_rel {W} (Rh : relation (gmap loc obj))
    (Rg : relation (gmap string value)) : relation (state W) :=
  fun s s' => Rh (heap s) (heap s') /\ Rg (globals s) (globals s').

(** Only the names of [names] are bound or rebound. *)
Definition rebinds_only (names : list string) : relation (gmap string value) :=
  fun g g' => forall n, n ∉ names -> g' !! n = g !! n.

(** A computation that ends normally returns [a]. *)
Definition returns {W A} (a : A) (c : M W A) : Prop :=
  forall s v, (c s).2 = Ok v -> v = a.

(** The heap [h'] holds everything [h] held and, at the new location [lx],
    an Exposure with three new planes that hold the data [d]. *)
Definition new_exposure (h : gmap loc obj) (d : exposure_data) (lx : loc)
    (h' : gmap loc obj) : Prop :=
  (forall q o, h !! q = Some o -> h' !! q = Some o)
  /\ exists ex,
       h !! lx = None
       /\ h' !! lx = Some (OExposure ex)
       /\ h !! e_image ex = None
       /\ h !! e_mask ex = None
       /\ h !! e_variance ex = None
       /\ h' !! e_image ex = Some (OImage (d_image d))
       /\ h' !! e_mask ex = Some (OMask (d_mask_ncols d) (d_mask d))
       /\ h' !! e_variance ex = Some (OImage (d_variance d))
       /\ e_wcs ex = d_wcs d
       /\ e_xy0 ex = d_xy0 d.

(** The lookups between the two reads fail. *)
Definition lookup_fails (sm : SkyMap) (radec : SpherePoint) (e : exn) : Prop :=
  findTract sm radec = Err e
  \/ exists tractInfo,
       findTract sm radec = Ok tractInfo
       /\ (tract_findPatch tractInfo radec = Err e
           \/ exists patchInfo,
                tract_findPatch tractInfo radec = Ok patchInfo
                /\ skyToPixel (tract_getWcs tractInfo) radec = Err e).

(** ** The files of the batch of postage stamps *)

(** ["Stamps/%s_%s_%s" % (datasetType, objectId, filter)] *)
Definition stamp_basename (datasetType : string) (objectId : Z)
    (filter : string) : string :=
  "Stamps/" +:+ datasetType +:+ "_" +:+ pretty objectId +:+ "_" +:+ filter.

Definition stamp_fits (datasetType : string) (filter : string)
    (row : Z * float * float) : string :=
  stamp_basename datasetType row.1.1 filter +:+ ".fits".

(** The names of the FITS files written, in the order of the log. *)
Definition fits_names (l : list event) : list string :=
  omap (fun ev => match ev with
                  | EvWriteFits _ name => Some name
                  | _ => None
                  end) l.

(** The names the loop over the catalog binds. *)
Definition stamps_names : list string :=
  ["frame"; "show"; "datasetType"; "vmin"; "vmax"; "objectId"; "ra"; "dec";
   "basename"; "saveplot"; "savefits"].

(** The names the scaling cell binds. *)
Definition scaling_names : list string :=
  ["frame"; "cutout_nx"; "cutout_ny"; "kernel_nx"; "kernel_ny"; "cutout_slice";
   "kernel_slice"; "scaling"; "offset_nx"; "offset_ny"].

(** What matplotlib does with the curves of the scaling cell: it refuses
    to draw a curve whose [x] and [y] differ in length, and draws what
    fits. *)
Definition step_fits (ev : event) : bool :=
  match ev with
  | EvPlt (plt_step x y _) => Nat.eqb (length (a1_data x)) (length (a1_data y))
  | _ => true
  end.

Definition refuses_mismatch {W} (E : Env W) : Prop :=
  forall ev w, step_fits ev = false -> (render E ev w).2 = Err ValueError.

Definition accepts_fitting {W} (E : Env W) : Prop :=
  forall ev w, step_fits ev = true -> (render E ev w).2 = Ok tt.

(** ** The light curves of the truth catalog

    The cell of the notebook [truth_gcr_variables] that plots three
    supernovae. The catalog reader is an iterator over light curve tables;
    it is modelled by the list of what its successive reads give, a table
    or an exception. *)

Module LightCurves.

(** A light curve table: its columns by name. *)
Definition table : Type := gmap string (list float).

Inductive lc_call : Type :=
| lc_plot (x y : list float) (fmt : string)
| lc_ylim (bottom top : Z)
| lc_xlabel (s : string)
| lc_ylabel (s : string).

(** The state of the cell: the name [n_plotted], the calls made to
    matplotlib and the number of light curves read from the iterator. *)
Record lc_state : Type := mk_lc_state {
  n_plotted : Z;
  lc_calls : list lc_call;
  lc_pulled : nat
}.

Definition LM (A : Type) : Type := lc_state -> lc_state * result A.

Global Instance LM_ret : MRet LM := fun A a s => (s, Ok a).
Global Instance LM_bind : MBind LM :=
  fun A B k c s =>
    match c s with
    | (s', Ok a) => k a s'
    | (s', Err e) => (s', Err e)
    end.

Definition lc_lift {A} (r : result A) : LM A := fun s => (s, r).

Definition set_n_plotted (n : Z) : LM unit :=
  fun s => (mk_lc_state n (lc_calls s) (lc_pulled s), Ok tt).

Definition get_n_plotted : LM Z := fun s => (s, Ok (n_plotted s)).

(** One read of the iterator. *)
Definition lc_next (item : result table) : LM table :=
  fun s => (mk_lc_state (n_plotted s) (lc_calls s) (S (lc_pulled s)), item).

(** [q[name]] *)
Definition column (q : table) (name : string) : result (list float) :=
  match q !! name with
  | Some c => Ok c
  | None => Err KeyError
  end.

Section Cell.
Context (lc_render : lc_call -> result unit).

(** A call to matplotlib: recorded, then answered. *)
Definition lc_plt (c : lc_call) : LM unit :=
  fun s => (mk_lc_state (n_plotted s) (lc_calls s ++ [c]) (lc_pulled s),
            lc_render c).

(** The body of the loop for the light curve [q]; it returns whether the
    loop is left by [break]. *)
Definition plot_body (q : table) : LM bool :=
  mjd ← lc_lift (column q "mjd");
  (if 20 <=? Z.of_nat (length mjd) then
     x ← lc_lift (column q "mjd");
     y ← lc_lift (column q "mag");
     lc_plt (lc_plot x y ".-");;
     n ← get_n_plotted;
     set_n_plotted (n + 1)
   else mret tt);;
  n ← get_n_plotted;
  mret (3 <=? n).

(** [for q in lc.get_quantities(..., return_iterator=True)] *)
Fixpoint plot_loop (iterator : list (result table)) : LM unit :=
  match iterator with
  | [] => mret tt
  | item :: iterator' =>
      q ← lc_next item;
      stop ← plot_body q;
      if stop : bool then mret tt else plot_loop iterator'
  end.

Definition cell_plot_supernovae (iterator : list (result table)) : LM unit :=
  set_n_plotted 0;;
  plot_loop iterator;;
  lc_plt (lc_ylim 29 24);;
  lc_plt (lc_xlabel "MJD");;
  lc_plt (lc_ylabel "$i$ [mag]").

End Cell.

(** A light curve with at least 20 epochs. *)
Definition is_long (q : table) : bool :=
  match q !! "mjd" with
  | Some mjd => 20 <=? Z.of_nat (length mjd)
  | None => false
  end.

(** The call that plots the light curve [q]. *)
Definition plot_of (q : table) : lc_call :=
  lc_plot (default [] (q !! "mjd")) (default [] (q !! "mag")) ".-".

(** The call plots the two columns of a light curve of at least 20 epochs
    that the iterator gives. *)
Definition plots_one_of (iterator : list (result table)) (c : lc_call) : Prop :=
  exists q, Ok q ∈ iterator /\ is_long q = true /\ is_Some (q !! "mag")
            /\ c = plot_of q.

Definition axis_calls : list lc_call :=
  [lc_ylim 29 24; lc_xlabel "MJD"; lc_ylabel "$i$ [mag]"].

End LightCurves.

(** The read of the iterator raises [e], or the light curve it gives lacks
    a column the body asks for. *)
Definition fails_with (item : result LightCurves.table) (e : exn) : Prop :=
  item = Err e
  \/ exists q,
       item = Ok q /\ e = KeyError
       /\ (q !! "mjd" = None
           \/ (LightCurves.is_long q = true /\ q !! "mag" = None)).

(** ** Inputs of the examples for the residual cells and the light curves *)

(** The stamp with a PSF image of the cutout's own size, after a scaling
    cell that bound offsets of zero. *)
Definition demo_equal_stamp : state nat :=
  mk_state 0%nat []
    (<[5%positive := OImage Demo.small_kernel]> Demo.stamp_heap)
    (<["scaling" := VFloat 2%float]>
       (<["offset_nx" := VInt 0]> (<["offset_ny" := VInt 0]> Demo.stamp_globals))).

(** A 5×7 PSF image: two rows and four columns more than the cutout. *)
Definition demo_wide_kernel : array2 := Demo.pixels float64 5 7 0.125%float.

Definition demo_wide_stamp : state nat :=
  mk_state 0%nat []
    (<[5%positive := OImage demo_wide_kernel]> Demo.stamp_heap) Demo.stamp_globals.

(** A renderer that, like matplotlib, refuses a curve whose [x] and [y]
    differ in length and accepts every other call. *)
Definition demo_mpl_env : Env nat :=
  mk_Env nat (butler_get Demo.env)
    (fun ev w => (w, if step_fits ev then Ok tt else Err ValueError))
    (np_sum Demo.env) (zscale_get_limits Demo.env)
    (PointI_of_Point2D Demo.env) (format_2f Demo.env).

(** A cutout without rows. *)
Definition demo_empty_stamp : state nat :=
  mk_state 0%nat []
    (<[1%positive := OImage (mk_array2 float32 3 [])]> Demo.stamp_heap)
    Demo.stamp_globals.

(** Light curves of 25 and of 5 epochs, and one of 25 epochs without
    magnitudes. *)
Definition demo_curve (epochs : nat) (mag : float) : LightCurves.table :=
  <["mjd" := replicate epochs 59000%float]>
    (<["mag" := replicate epochs mag]> ∅).

Definition demo_curves : list LightCurves.table :=
  [demo_curve 25 24.5%float; demo_curve 5 25%float; demo_curve 25 26%float;
   demo_curve 30 27%float; demo_curve 40 28%float].

Definition demo_curve_no_mag : LightCurves.table :=
  <["mjd" := replicate 25 59000%float]> ∅.

Definition demo_lc_start : LightCurves.lc_state :=
  LightCurves.mk_lc_state 7 [] 0.

(** ** What the display functions draw when nothing fails *)

(** The two reads of the cutout fetch for the center pixel [xy]. *)
Definition fetch_reads (butler : Butler) (filter : string)
    (tractInfo : TractInfo) (patchInfo : PatchInfo) (xy : PointI) : list event :=
  [EvButlerGet butler "deepCoadd_skyMap" None None;
   EvButlerGet butler "deepCoadd_sub"
     (Some (mk_BoxI (mk_PointI (pi_x xy - 25) (pi_y xy - 25)) (mk_ExtentI 51 51)))
     (Some (mk_DataId (tract_getId tractInfo)
                      (pretty (patch_getIndex patchInfo).1 +:+ "," +:+
                       pretty (patch_getIndex patchInfo).2) filter))].

(** The store answers the two reads of the fetch for the target [radec]
    with the sky map [sm] and the data [d]; [w2] is its state afterwards. *)
Definition store_answers {W} (E : Env W) (butler : Butler) (filter : string)
    (radec : SpherePoint) (tractInfo : TractInfo) (patchInfo : PatchInfo)
    (xy : PointI) (d : exposure_data) (w w2 : W) : Prop :=
  exists sm p w1,
    butler_get E butler "deepCoadd_skyMap" None None w = (w1, Ok (BSkyMap sm))
    /\ findTract sm radec = Ok tractInfo
    /\ tract_findPatch tractInfo radec = Ok patchInfo
    /\ skyToPixel (tract_getWcs tractInfo) radec = Ok p
    /\ PointI_of_Point2D E p = Ok xy
    /\ butler_get E butler "deepCoadd_sub"
         (Some (mk_BoxI (mk_PointI (pi_x xy - 25) (pi_y xy - 25))
                        (mk_ExtentI 51 51)))
         (Some (mk_DataId (tract_getId tractInfo)
                          (pretty (patch_getIndex patchInfo).1 +:+ "," +:+
                           pretty (patch_getIndex patchInfo).2) filter)) w1
       = (w2, Ok (BExposure d)).

(** The file written by the [if savefits:] block for the Exposure [lx]. *)
Definition fits_calls (lx : loc) (savefits : value) : list event :=
  if truthy savefits then [EvWriteFits lx (fits_filename savefits)] else [].

(** The limits of the color scale: the ones passed, or those of zscale
    when one of them is missing. *)
Definition color_limits {W} (E : Env W) (vmin vmax : option float)
    (image : array2) : result (float * float) :=
  match vmin, vmax with
  | Some lo, Some hi => Ok (lo, hi)
  | _, _ => zscale_get_limits E image
  end.

(** The matplotlib calls of [make_cutout_image] for the image [image] with
    origin [xy0], the target at the pixel [xy] and the limits [limits]. *)
Definition plot_calls (image : array2) (xy0 : PointI) (xy : Point2D)
    (limits : float * float) (label : option string) (show : bool)
    (saveplot : value) : list event :=
  [EvPlt (plt_imshow image limits.1 limits.2);
   EvPlt plt_colorbar;
   EvPlt (plt_scatter (PrimFloat.sub (p2_x xy) (float_of_Z (pi_x xy0)))
                      (PrimFloat.sub (p2_y xy) (float_of_Z (pi_y xy0))))]
  ++ match label with Some l => [EvPlt (plt_title l)] | None => [] end
  ++ (if truthy saveplot
      then [EvPlt (plt_savefig (match saveplot with
                                | VStr s => s
                                | _ => "postage-stamp.png"
                                end))]
      else [])
  ++ (if show then [EvPlt plt_show] else []).

(** The calls of [display_cutout_image] on its display for the Exposure
    [lx] and the target at the pixel [xy]. *)
Definition display_calls (display : option Display) (frame : option Z)
    (backend : string) (lx : loc) (xy : Point2D) : list event :=
  let d := default (mk_Display frame backend) display in
  match display with
  | None => [EvDisplay d Display_new]
  | Some _ => []
  end
  ++ [EvDisplay d (display_mtv lx);
      EvDisplay d (display_scale "asinh" "zscale");
      EvDisplay d (display_dot "o" (p2_x xy) (p2_y xy) "red");
      EvDisplay d display_show_colorbar].

(** * Properties *)

(** ** Slices *)

(** Case analysis on the integer comparisons of a goal. *)
Ltac case_cmp :=
  repeat match goal with
         | |- context [?a <? ?b] => destruct (Z.ltb_spec a b)
         | |- context [?a <=? ?b] => destruct (Z.leb_spec a b)
         | |- context [?a =? ?b] => destruct (Z.eqb_spec a b)
         end.

(** Floor and ceiling halves of an offset. *)
Lemma half_floor_ceil offset :
  offset / 2 + (offset + 1) / 2 = offset /\ (- offset) / 2 = - ((offset + 1) / 2).
Proof.
  pose proof (Z.div_mod offset 2). pose proof (Z.mod_pos_bound offset 2).
  pose proof (Z.div_mod (offset + 1) 2). pose proof (Z.mod_pos_bound (offset + 1) 2).
  pose proof (Z.div_mod (- offset) 2). pose proof (Z.mod_pos_bound (- offset) 2).
  lia.
Qed.

Lemma half_bounds offset :
  0 < offset -> 0 <= offset / 2 /\ 0 < (offset + 1) / 2.
Proof.
  pose proof (Z.div_mod offset 2). pose proof (Z.mod_pos_bound offset 2).
  pose proof (Z.div_mod (offset + 1) 2). pose proof (Z.mod_pos_bound (offset + 1) 2).
  pose proof (Z.div_mod (- offset) 2). pose proof (Z.mod_pos_bound (- offset) 2).
  lia.
Qed.

Section Slices.
Context {A : Type}.
Implicit Types l : list A.

Lemma py_adjust_le i n : (py_adjust i n <= n)%nat.
Proof. unfold py_adjust. case_cmp; lia. Qed.

Lemma py_adjust_nonneg i n :
  0 <= i <= Z.of_nat n -> py_adjust i n = Z.to_nat i.
Proof. intros Hi. unfold py_adjust. case_cmp; lia. Qed.

Lemma py_adjust_neg i n :
  - Z.of_nat n <= i < 0 -> py_adjust i n = (n - Z.to_nat (- i))%nat.
Proof. intros Hi. unfold py_adjust. case_cmp; lia. Qed.

Lemma py_slice_length start stop l :
  length (py_slice start stop l) = py_slice_len start stop (length l).
Proof.
  unfold py_slice, py_slice_len. rewrite length_take, length_drop.
  pose proof (py_adjust_le stop (length l)). lia.
Qed.

(** [l[0:-0]] is [l[0:0]]: empty. *)
Lemma py_slice_zero_offset l : py_slice (crop_start 0) (crop_stop 0) l = [].
Proof. unfold py_slice, py_slice_len, crop_start, crop_stop. simpl. by rewrite Nat.sub_diag. Qed.

(** For a positive offset not larger than the length, the slice
    [l[offset//2 : -offset//2]] drops [floor(offset/2)] elements at the
    start and [ceil(offset/2)] elements at the end. *)
Lemma crop_slice_take_drop l offset :
  0 < offset <= Z.of_nat (length l) ->
  py_slice (crop_start offset) (crop_stop offset) l
  = take (length l - Z.to_nat offset) (drop (Z.to_nat (offset / 2)) l).
Proof.
  intros Ho. unfold py_slice, py_slice_len, crop_start, crop_stop.
  destruct (half_bounds offset) as [Hlo Hce]; [lia|].
  destruct (half_floor_ceil offset) as [Hhi Hst].
  rewrite (py_adjust_nonneg (offset / 2)) by lia.
  rewrite Hst, py_adjust_neg by lia.
  f_equal. lia.
Qed.

Lemma crop_slice_length l offset :
  0 < offset <= Z.of_nat (length l) ->
  length (py_slice (crop_start offset) (crop_stop offset) l)
  = (length l - Z.to_nat offset)%nat.
Proof.
  intros Ho. rewrite crop_slice_take_drop by done.
  rewrite length_take, length_drop.
  destruct (half_floor_ceil offset) as [Hhi Hst].
  destruct (half_bounds offset) as [Hlo Hce]; [lia|].
  lia.
Qed.

Lemma crop_slice_lookup l offset (i : nat) :
  0 < offset <= Z.of_nat (length l) ->
  (i < length l - Z.to_nat offset)%nat ->
  py_slice (crop_start offset) (crop_stop offset) l !! i
  = l !! (Z.to_nat (offset / 2) + i)%nat.
Proof.
  intros Ho Hi. rewrite crop_slice_take_drop by done.
  rewrite lookup_take_lt by done. by rewrite lookup_drop.
Qed.

End Slices.

(** ** The crop of the PSF image to the cutout's shape *)

Lemma crop_kernel_rows (kernel : array2) (offset_nx offset_ny : Z) :
  a2_wf kernel ->
  0 < offset_nx <= Z.of_nat (a2_nrows kernel) ->
  0 < offset_ny <= Z.of_nat (a2_ncols kernel) ->
  crop_kernel kernel offset_nx offset_ny
  = mk_array2 (a2_dtype kernel)
      (a2_ncols kernel - Z.to_nat offset_ny)
      (map (fun r => take (a2_ncols kernel - Z.to_nat offset_ny)
                          (drop (Z.to_nat (offset_ny / 2)) r))
           (take (a2_nrows kernel - Z.to_nat offset_nx)
                 (drop (Z.to_nat (offset_nx / 2)) (a2_rows kernel)))).
Proof.
  intros Hwf Hx Hy. unfold crop_kernel, slice2, a2_nrows in *. f_equal.
  - pose proof (crop_slice_length (replicate (a2_ncols kernel) tt) offset_ny) as Hl.
    rewrite py_slice_length, length_replicate in Hl. apply Hl. done.
  - rewrite crop_slice_take_drop by done.
    apply map_ext_Forall.
    apply Forall_take, Forall_drop.
    eapply Forall_impl; [exact Hwf|]. intros r Hr. simpl in Hr.
    rewrite crop_slice_take_drop by lia. by rewrite Hr.
Qed.

(** The crop to a smaller shape m×n: its rows, its shape. *)
Lemma crop_kernel_fits (kernel : array2) (m n : nat) :
  a2_wf kernel ->
  (m < a2_nrows kernel)%nat ->
  (n < a2_ncols kernel)%nat ->
  let offset_nx := Z.of_nat (a2_nrows kernel) - Z.of_nat m in
  let offset_ny := Z.of_nat (a2_ncols kernel) - Z.of_nat n in
  let cropped := crop_kernel kernel offset_nx offset_ny in
  np_shape cropped = (Z.of_nat m, Z.of_nat n)
  /\ a2_wf cropped
  /\ a2_dtype cropped = a2_dtype kernel
  /\ a2_rows cropped
     = map (fun r => take n (drop (Z.to_nat (offset_ny / 2)) r))
           (take m (drop (Z.to_nat (offset_nx / 2)) (a2_rows kernel))).
Proof.
  intros Hwf Hm Hn offset_nx offset_ny cropped.
  assert (Hx : 0 < offset_nx <= Z.of_nat (a2_nrows kernel)) by (unfold offset_nx; lia).
  assert (Hy : 0 < offset_ny <= Z.of_nat (a2_ncols kernel)) by (unfold offset_ny; lia).
  assert (Hmx : (a2_nrows kernel - Z.to_nat offset_nx)%nat = m) by (unfold offset_nx; lia).
  assert (Hny : (a2_ncols kernel - Z.to_nat offset_ny)%nat = n) by (unfold offset_ny; lia).
  destruct (half_floor_ceil offset_nx) as [Hfx _].
  destruct (half_floor_ceil offset_ny) as [Hfy _].
  destruct (half_bounds offset_nx) as [Hlx Hcx]; [lia|].
  destruct (half_bounds offset_ny) as [Hly Hcy]; [lia|].
  assert (Hrows : a2_rows cropped
     = map (fun r => take n (drop (Z.to_nat (offset_ny / 2)) r))
           (take m (drop (Z.to_nat (offset_nx / 2)) (a2_rows kernel)))).
  { unfold cropped. rewrite crop_kernel_rows by done. simpl. by rewrite Hmx, Hny. }
  assert (Hcols : a2_ncols cropped = n).
  { unfold cropped. rewrite crop_kernel_rows by done. simpl. done. }
  split_and!.
  - unfold np_shape, a2_nrows. rewrite Hcols, Hrows, length_map, length_take, length_drop.
    unfold a2_nrows in *. f_equal. lia.
  - unfold a2_wf. rewrite Hcols, Hrows. apply Forall_map, Forall_take, Forall_drop.
    eapply Forall_impl; [exact Hwf|]. intros r Hr. simpl in *.
    rewrite length_take, length_drop, Hr. lia.
  - reflexivity.
  - exact Hrows.
Qed.

Lemma odd_half_up (offset : Z) :
  Z.odd offset = true -> (offset + 1) / 2 = offset / 2 + 1.
Proof.
  intros Hodd. rewrite Z.odd_spec in Hodd. destruct Hodd as [j Hj].
  rewrite Hj. replace (2 * j + 1 + 1) with ((j + 1) * 2) by lia.
  rewrite Z.div_mul by lia. replace (2 * j + 1) with (1 + j * 2) by lia.
  rewrite Z.div_add by lia. reflexivity.
Qed.

(** C1 (as amended). When the PSF image is strictly larger than the cutout
    in both axes, which is what the notebook assumes, the crop
    [kernel[offset_nx//2:-offset_nx//2, offset_ny//2:-offset_ny//2]] has the
    cutout's shape m×n: it keeps rows [floor(offset/2) ..
    floor(offset/2) + m), so floor(offset/2) rows go at the low side and
    ceil(offset/2) at the high side (one more when the offset is odd), and
    the same for the columns. For a 61×61 PSF image and a 51×51 cutout, 5
    pixels go at each side. *)
Theorem crop_kernel_shape (kernel : array2) (m n : nat) :
  a2_wf kernel ->
  (m < a2_nrows kernel)%nat ->
  (n < a2_ncols kernel)%nat ->
  let offset_nx := Z.of_nat (a2_nrows kernel) - Z.of_nat m in
  let offset_ny := Z.of_nat (a2_ncols kernel) - Z.of_nat n in
  let cropped := crop_kernel kernel offset_nx offset_ny in
  np_shape cropped = (Z.of_nat m, Z.of_nat n)
  /\ a2_wf cropped
  /\ a2_rows cropped
     = map (fun r => take n (drop (Z.to_nat (offset_ny / 2)) r))
           (take m (drop (Z.to_nat (offset_nx / 2)) (a2_rows kernel)))
  /\ Z.of_nat (a2_nrows kernel) = offset_nx / 2 + Z.of_nat m + (offset_nx + 1) / 2
  /\ Z.of_nat (a2_ncols kernel) = offset_ny / 2 + Z.of_nat n + (offset_ny + 1) / 2
  /\ (Z.odd offset_nx = true -> (offset_nx + 1) / 2 = offset_nx / 2 + 1)
  /\ (Z.odd offset_ny = true -> (offset_ny + 1) / 2 = offset_ny / 2 + 1)
  /\ (a2_nrows kernel = 61%nat -> m = 51%nat ->
      offset_nx / 2 = 5 /\ (offset_nx + 1) / 2 = 5)
  /\ (a2_ncols kernel = 61%nat -> n = 51%nat ->
      offset_ny / 2 = 5 /\ (offset_ny + 1) / 2 = 5).
Proof.
  intros Hwf Hm Hn offset_nx offset_ny cropped.
  destruct (crop_kernel_fits kernel m n Hwf Hm Hn) as (Hsh & Hw & _ & Hrows).
  destruct (half_floor_ceil offset_nx) as [Hfx _].
  destruct (half_floor_ceil offset_ny) as [Hfy _].
  split_and!; try done.
  - unfold offset_nx in *. lia.
  - unfold offset_ny in *. lia.
  - apply odd_half_up.
  - apply odd_half_up.
  - intros Hp ->. unfold offset_nx. rewrite Hp. split; reflexivity.
  - intros Hq ->. unfold offset_ny. rewrite Hq. split; reflexivity.
Qed.

(** ** Reasoning about computations

    [wp c Q s] holds when the outcome of [c] on [s], a value or an
    exception, and the state it ends in satisfy [Q]. *)

Definition wp {W A} (c : M W A) (Q : result A -> state W -> Prop) (s : state W) : Prop :=
  Q (c s).2 (c s).1.

Section WpRules.
Context {W : Type} (E : Env W).
Implicit Types (w : W) (l : list event) (h : gmap loc obj) (g : gmap string value).

Lemma wp_run {A} (c : M W A) Q s s' r : c s = (s', r) -> Q r s' -> wp c Q s.
Proof. unfold wp. by intros ->. Qed.

Lemma wp_elim {A} (c : M W A) Q s : wp c Q s -> Q (c s).2 (c s).1.
Proof. done. Qed.

Lemma wp_mono {A} (c : M W A) (Q Q' : result A -> state W -> Prop) s :
  (forall r s', Q r s' -> Q' r s') -> wp c Q s -> wp c Q' s.
Proof. unfold wp. auto. Qed.

Lemma wp_bind {A B} (c : M W A) (k : A -> M W B) Q s :
  wp c (fun r s' => match r with
                    | Ok a => wp (k a) Q s'
                    | Err e => Q (Err e) s'
                    end) s ->
  wp (c ≫= k) Q s.
Proof.
  unfold wp, mbind, M_bind. destruct (c s) as [s' [a|e]]; simpl; done.
Qed.

Lemma wp_ret {A} (a : A) Q s : Q (Ok a) s -> wp (mret a : M W A) Q s.
Proof. done. Qed.

Lemma wp_raise {A} e (Q : result A -> state W -> Prop) s :
  Q (Err e) s -> wp (raise e) Q s.
Proof. done. Qed.

Lemma wp_lift {A} (r : result A) (Q : result A -> state W -> Prop) s :
  Q r s -> wp (lift r) Q s.
Proof. done. Qed.

Lemma wp_set_global name v Q w l h g :
  Q (Ok tt) (mk_state w l h (<[name := v]> g)) ->
  wp (set_global name v) Q (mk_state w l h g).
Proof. done. Qed.

Lemma wp_get_global name v Q w l h g :
  g !! name = Some v ->
  Q (Ok v) (mk_state w l h g) ->
  wp (get_global name) Q (mk_state w l h g).
Proof. unfold wp, get_global. simpl. by intros ->. Qed.

Lemma wp_alloc o Q w l h g :
  Q (Ok (fresh (dom h))) (mk_state w l (<[fresh (dom h) := o]> h) g) ->
  wp (alloc o) Q (mk_state w l h g).
Proof. done. Qed.

Lemma wp_heap_set p o Q w l h g :
  Q (Ok tt) (mk_state w l (<[p := o]> h) g) ->
  wp (heap_set p o) Q (mk_state w l h g).
Proof. done. Qed.

Lemma wp_deref p o Q w l h g :
  h !! p = Some o ->
  Q (Ok o) (mk_state w l h g) ->
  wp (deref p) Q (mk_state w l h g).
Proof. unfold wp, deref. simpl. by intros ->. Qed.

(** A call to the renderer, whatever it answers. *)
Lemma wp_call_render ev Q w l h g :
  (forall w' r, render E ev w = (w', r) -> Q r (mk_state w' (l ++ [ev]) h g)) ->
  wp (call_render E ev) Q (mk_state w l h g).
Proof.
  intros HQ. unfold wp, call_render. simpl.
  destruct (render E ev w) as [w' r] eqn:Hr. simpl. by apply HQ.
Qed.

Lemma wp_get_exposure p e Q w l h g :
  h !! p = Some (OExposure e) ->
  Q (Ok e) (mk_state w l h g) ->
  wp (get_exposure p) Q (mk_state w l h g).
Proof.
  intros Hp HQ. unfold get_exposure. apply wp_bind.
  eapply wp_deref; [exact Hp|]. by apply wp_ret.
Qed.

Lemma wp_image_array p a Q w l h g :
  h !! p = Some (OImage a) ->
  Q (Ok a) (mk_state w l h g) ->
  wp (image_array p) Q (mk_state w l h g).
Proof.
  intros Hp HQ. unfold image_array. apply wp_bind.
  eapply wp_deref; [exact Hp|]. by apply wp_ret.
Qed.

Lemma wp_exposure_image_array p e a Q w l h g :
  h !! p = Some (OExposure e) ->
  h !! e_image e = Some (OImage a) ->
  Q (Ok a) (mk_state w l h g) ->
  wp (exposure_image_array p) Q (mk_state w l h g).
Proof.
  intros Hp Ha HQ. unfold exposure_image_array. apply wp_bind.
  eapply wp_get_exposure; [exact Hp|]. by eapply wp_image_array.
Qed.

Lemma wp_global_exposure_array name p e a Q w l h g :
  g !! name = Some (VRef p) ->
  h !! p = Some (OExposure e) ->
  h !! e_image e = Some (OImage a) ->
  Q (Ok a) (mk_state w l h g) ->
  wp (global_exposure_array name) Q (mk_state w l h g).
Proof.
  intros Hg Hp Ha HQ. unfold global_exposure_array. apply wp_bind.
  eapply wp_get_global; [exact Hg|]. apply wp_bind. apply wp_ret.
  by eapply wp_exposure_image_array.
Qed.

Lemma wp_global_image_array name p a Q w l h g :
  g !! name = Some (VRef p) ->
  h !! p = Some (OImage a) ->
  Q (Ok a) (mk_state w l h g) ->
  wp (global_image_array name) Q (mk_state w l h g).
Proof.
  intros Hg Hp HQ. unfold global_image_array. apply wp_bind.
  eapply wp_get_global; [exact Hg|]. apply wp_bind. apply wp_ret.
  by eapply wp_image_array.
Qed.

End WpRules.

(** ** Array operations *)

Lemma np_shape_inj (a b : array2) :
  np_shape a = np_shape b -> a2_nrows a = a2_nrows b /\ a2_ncols a = a2_ncols b.
Proof.
  unfold np_shape. intros H.
  split; apply Nat2Z.inj; [exact (f_equal fst H) | exact (f_equal snd H)].
Qed.

Lemma row_at_middle (a : array2) (r : list float) :
  middle_row a = Some r ->
  row_at a (Z.of_nat (a2_nrows a) / 2) = Ok (mk_array1 (a2_dtype a) r).
Proof.
  unfold middle_row, row_at, py_index. intros Hr.
  assert (Hlt : (a2_nrows a `div` 2 < a2_nrows a)%nat).
  { apply lookup_lt_Some in Hr. exact Hr. }
  assert (Hdiv : Z.of_nat (a2_nrows a) / 2 = Z.of_nat (a2_nrows a `div` 2))
    by (by rewrite Nat2Z.inj_div).
  rewrite Hdiv.
  destruct (Z.ltb_spec (Z.of_nat (a2_nrows a `div` 2)) 0) as [?|_]; [lia|].
  destruct (Z.ltb_spec (Z.of_nat (a2_nrows a `div` 2)) 0) as [?|_]; [lia|].
  destruct (Z.leb_spec (Z.of_nat (a2_nrows a)) (Z.of_nat (a2_nrows a `div` 2))) as [?|_]; [lia|].
  cbn [orb]. rewrite Nat2Z.id, Hr. done.
Qed.

Lemma middle_row_exists (a : array2) :
  (0 < a2_nrows a)%nat -> exists r, middle_row a = Some r.
Proof.
  intros Hpos. unfold middle_row.
  apply lookup_lt_is_Some_2. unfold a2_nrows in *.
  apply Nat.div_lt; lia.
Qed.

Lemma middle_row_length (a : array2) (r : list float) :
  a2_wf a -> middle_row a = Some r -> length r = a2_ncols a.
Proof.
  unfold a2_wf, middle_row. intros Hwf Hr.
  by eapply (Forall_lookup_1 _ _ _ _ Hwf) in Hr.
Qed.

Lemma stretch_same {A} (n : nat) (l : list A) : length l = n -> stretch n l = l.
Proof. intros <-. by destruct l as [|x [|y l]]. Qed.

Lemma bcast_dim_same (n : nat) : bcast_dim n n = Some n.
Proof. unfold bcast_dim. by rewrite decide_True. Qed.

Lemma np_sub1_same_length (a b : array1) :
  length (a1_data a) = length (a1_data b) ->
  np_sub1 a b
  = Ok (mk_array1 (promote (a1_dtype a) (a1_dtype b))
          (zip_with (fun x y => store (promote (a1_dtype a) (a1_dtype b))
                                      (PrimFloat.sub x y))
                    (a1_data a) (a1_data b))).
Proof.
  intros Hl. unfold np_sub1. rewrite <- Hl, bcast_dim_same.
  rewrite (stretch_same _ (a1_data a)) by done.
  rewrite (stretch_same _ (a1_data b)) by done. done.
Qed.

Lemma np_sub2_same_shape (a b : array2) :
  a2_wf a -> a2_wf b ->
  a2_nrows a = a2_nrows b -> a2_ncols a = a2_ncols b ->
  np_sub2 a b
  = Ok (mk_array2 (promote (a2_dtype a) (a2_dtype b)) (a2_ncols a)
          (zip_with
             (zip_with (fun x y => store (promote (a2_dtype a) (a2_dtype b))
                                         (PrimFloat.sub x y)))
             (a2_rows a) (a2_rows b))).
Proof.
  intros Ha Hb Hr Hc. unfold np_sub2. rewrite <- Hr, <- Hc, !bcast_dim_same.
  rewrite (stretch_same _ (a2_rows a)) by done.
  rewrite (stretch_same _ (a2_rows b)) by done.
  do 2 f_equal. unfold a2_wf in *. rewrite <- Hc in Hb.
  revert Ha Hb. generalize (a2_ncols a) as c.
  generalize (a2_rows b) as rb. generalize (a2_rows a) as ra.
  induction ra as [|x ra IH]; intros [|y rb] c Ha Hb; simpl; try done.
  inversion Ha; inversion Hb; subst.
  rewrite !stretch_same by done. f_equal. by apply IH.
Qed.

(** ** Symbolic execution of the cells *)

Ltac wp_lookup :=
  cbn [globals heap world log];
  repeat (rewrite lookup_insert_ne by done);
  first [ apply lookup_insert_eq | eassumption ].

Ltac wp_step :=
  cbv beta iota;
  lazymatch goal with
  | |- wp (let '(_, _) := np_shape _ in _) _ _ => unfold np_shape at 1
  | |- wp (mbind _ _) _ _ => apply wp_bind
  | |- wp (mret _) _ _ => apply wp_ret
  | |- wp (raise _) _ _ => apply wp_raise
  | |- wp (set_global _ _) _ _ => apply wp_set_global
  | |- wp (get_global _) _ _ => eapply wp_get_global; [wp_lookup|]
  | |- wp (global_exposure_array _) _ _ =>
      eapply wp_global_exposure_array; [wp_lookup|wp_lookup|wp_lookup|]
  | |- wp (global_image_array _) _ _ =>
      eapply wp_global_image_array; [wp_lookup|wp_lookup|]
  | |- wp (alloc _) _ _ => apply wp_alloc
  | |- wp (heap_set _ _) _ _ => apply wp_heap_set
  | |- wp (lift (row_at ?a _)) _ _ =>
      erewrite (row_at_middle a) by eassumption; apply wp_lift
  end.

(** A call to a renderer that never raises. *)
Ltac wp_render Hok :=
  lazymatch goal with
  | |- wp (call_render ?E ?ev) _ (mk_state ?w _ _ _) =>
      let w' := fresh "w" in
      let r := fresh "r" in
      let Hr := fresh "Hr" in
      apply wp_call_render; intros w' r Hr;
      let H := fresh "H" in
      pose proof (Hok ev w) as H; rewrite Hr in H; cbn [snd] in H; subst r;
      clear Hr
  end.

Section Scaling.
Context {W : Type} (E : Env W).

(** The central slice of the PSF image, cropped by the row offset, has the
    length of the cutout's slice when the two offsets agree. *)
Lemma residual_slice_ok (a k : array2) (crow krow : list float) (scaling : float) :
  stamp_shapes a k ->
  middle_row a = Some crow ->
  middle_row k = Some krow ->
  np_sub1 (mk_array1 float32 crow)
          (scalar_mul1 scaling
             (crop_kernel_slice (mk_array1 float64 krow)
                (Z.of_nat (a2_nrows k) - Z.of_nat (a2_nrows a))))
  = Ok (residual_slice_of scaling crow krow
          (Z.of_nat (a2_nrows k) - Z.of_nat (a2_nrows a))).
Proof.
  intros [Hwa Hwk Hda Hdk Hr Hc Hsq] Hcr Hkr.
  pose proof (middle_row_length a crow Hwa Hcr) as Hlc.
  pose proof (middle_row_length k krow Hwk Hkr) as Hlk.
  rewrite np_sub1_same_length.
  - unfold residual_slice_of. cbn [a1_dtype a1_data scalar_mul1 crop_kernel_slice slice1 promote store].
    f_equal. f_equal. by rewrite zip_with_fmap_r.
  - cbn [a1_dtype a1_data scalar_mul1 crop_kernel_slice slice1].
    rewrite length_map, crop_slice_length by lia. lia.
Qed.

(** The scaling cell, when nothing raises. *)
Lemma cell_scaling_total w l h g lc e a lk k crow krow :
  render_ok E ->
  stamp_inputs (mk_state w l h g) lc e a lk k ->
  stamp_shapes a k ->
  middle_row a = Some crow ->
  middle_row k = Some krow ->
  wp (cell_scaling E)
     (fun r s' => r = Ok tt
                  /\ heap s' = h
                  /\ globals s' = scaling_bindings E a k crow krow g
                  /\ log s' = l ++ scaling_events E a k crow krow)
     (mk_state w l h g).
Proof.
  intros Hok [Hc He Hi Hm Hv Hk Hki] Hsh Hcr Hkr. cbn [globals heap] in *.
  pose proof (residual_slice_ok a k crow krow (scaling_of E crow krow) Hsh Hcr Hkr) as Hres.
  destruct Hsh as [Hwa Hwk Hda Hdk Hr Hcl Hsq].
  unfold cell_scaling.
  repeat first [ wp_step | wp_render Hok ].
  rewrite Hda, Hdk. cbn [a1_dtype a1_data].
  fold (scaling_of E crow krow).
  repeat first [ wp_step | wp_render Hok ].
  rewrite Hres. apply wp_lift.
  repeat first [ wp_step | wp_render Hok ].
  cbv beta iota. cbn [globals heap log].
  split_and!; try done.
  rewrite <- !(assoc_L (++)). done.
Qed.

(** Division by a zero of either sign gives an infinity or not-a-number. *)
Lemma div_by_zero_not_finite (x z : float) :
  PrimFloat.eqb z 0%float = true -> not_finite (PrimFloat.div x z) = true.
Proof.
  intros Hz. unfold not_finite. rewrite FloatAxioms.div_spec.
  rewrite FloatAxioms.eqb_spec in Hz.
  change (Prim2SF 0%float) with (S754_zero false) in Hz.
  destruct (Prim2SF z) as [sz|sz| |sz mz ez].
  - destruct (Prim2SF x); reflexivity.
  - destruct sz; discriminate Hz.
  - discriminate Hz.
  - destruct sz; discriminate Hz.
Qed.

(** C5. Whenever the scaling cell gets as far as the two central slices,
    it divides the sum of the cutout slice by the sum of the PSF slice and
    binds the quotient to [scaling], whatever the divisor is. When the PSF
    slice sums to zero the quotient is an infinity or not-a-number: nothing
    intercepts the case, and with well-shaped inputs and a renderer that
    does not fail the cell ends normally. *)
Theorem scaling_division_unguarded w l h g lc e a lk k crow krow :
  stamp_inputs (mk_state w l h g) lc e a lk k ->
  (render E (EvPlt (plt_figure 3)) w).2 = Ok tt ->
  middle_row a = Some crow ->
  middle_row k = Some krow ->
  PrimFloat.eqb (np_sum E (a2_dtype k) krow) 0%float = true ->
  let scaling := PrimFloat.div (np_sum E (a2_dtype a) crow)
                               (np_sum E (a2_dtype k) krow) in
  globals (cell_scaling E (mk_state w l h g)).1 !! "scaling" = Some (VFloat scaling)
  /\ not_finite scaling = true
  /\ (render_ok E -> stamp_shapes a k ->
      (cell_scaling E (mk_state w l h g)).2 = Ok tt).
Proof.
  intros Hin Hfig Hcr Hkr Hz scaling. split_and!.
  - destruct Hin as [Hc He Hi Hm Hv Hk Hki]. cbn [globals heap] in *.
    apply (wp_elim (cell_scaling E)
             (fun _ s' => globals s' !! "scaling" = Some (VFloat scaling))).
    unfold cell_scaling.
    repeat wp_step.
    apply wp_call_render. intros w1 r1 Hr1.
    rewrite Hr1 in Hfig. cbn [snd] in Hfig. subst r1.
    repeat wp_step. cbn [a1_dtype a1_data].
    repeat first
      [ wp_step
      | apply wp_call_render; intros ? [[]|?] _; [|wp_lookup]
      | apply wp_lift; destruct (np_sub1 _ _); [|wp_lookup]
      | wp_lookup ].
  - by apply div_by_zero_not_finite.
  - intros Hok Hsh.
    by destruct (wp_elim _ _ _ (cell_scaling_total w l h g lc e a lk k crow krow
                                  Hok Hin Hsh Hcr Hkr)) as [-> _].
Qed.

(** C4. The scaling cell takes the row of index floor(rows/2) of the cutout
    and of the PSF image and binds [scaling] to the sum of the first divided
    by the sum of the second; the slice it plots last is the cutout slice
    minus [scaling] times the cropped PSF slice, elementwise. For sums
    1000.0 and 0.01 the scale is 100000.0. *)
Theorem scaling_from_central_slices w l h g lc e a lk k :
  render_ok E ->
  stamp_inputs (mk_state w l h g) lc e a lk k ->
  stamp_shapes a k ->
  exists crow krow s',
    a2_rows a !! (a2_nrows a `div` 2)%nat = Some crow
    /\ a2_rows k !! (a2_nrows k `div` 2)%nat = Some krow
    /\ cell_scaling E (mk_state w l h g) = (s', Ok tt)
    /\ globals s' !! "cutout_slice" = Some (VArr1 (mk_array1 float32 crow))
    /\ globals s' !! "kernel_slice" = Some (VArr1 (mk_array1 float64 krow))
    /\ globals s' !! "scaling"
       = Some (VFloat (PrimFloat.div (np_sum E float32 crow) (np_sum E float64 krow)))
    /\ (forall scaling, globals s' !! "scaling" = Some (VFloat scaling) ->
        EvPlt (plt_step (centered_arange (Z.of_nat (a2_nrows a)))
                 (mk_array1 float64
                    (zip_with (fun x y => PrimFloat.sub x (PrimFloat.mul scaling y))
                       crow
                       (py_slice (crop_start (Z.of_nat (a2_nrows k) - Z.of_nat (a2_nrows a)))
                                 (crop_stop (Z.of_nat (a2_nrows k) - Z.of_nat (a2_nrows a)))
                                 krow)))
                 "Postage stamp - scaled PSF") ∈ log s')
    /\ (np_sum E float32 crow = 1000%float ->
        np_sum E float64 krow = 0.01%float ->
        globals s' !! "scaling" = Some (VFloat 100000%float)).
Proof.
  intros Hok Hin Hsh.
  destruct (middle_row_exists a) as [crow Hcr]; [destruct Hsh; lia|].
  destruct (middle_row_exists k) as [krow Hkr]; [destruct Hsh; lia|].
  pose proof (wp_elim _ _ _ (cell_scaling_total w l h g lc e a lk k crow krow
                               Hok Hin Hsh Hcr Hkr)) as (Hr & Hh & Hg & Hl).
  exists crow, krow, (cell_scaling E (mk_state w l h g)).1.
  assert (Hsc : globals (cell_scaling E (mk_state w l h g)).1 !! "scaling"
                = Some (VFloat (scaling_of E crow krow))).
  { rewrite Hg. unfold scaling_bindings. by simplify_map_eq. }
  split_and!; try done.
  - rewrite <- Hr. by destruct (cell_scaling E (mk_state w l h g)).
  - rewrite Hg. unfold scaling_bindings. by simplify_map_eq.
  - rewrite Hg. unfold scaling_bindings. by simplify_map_eq.
  - intros scaling Hs. rewrite Hsc in Hs. injection Hs as <-.
    rewrite Hl. unfold scaling_events, residual_slice_of.
    apply elem_of_app. right. set_solver.
  - intros H1 H2. rewrite Hsc. unfold scaling_of. rewrite H1, H2. reflexivity.
Qed.

End Scaling.

(** ** Rounding to binary32 *)

Lemma digits2_pos_bounds (p : positive) :
  2 ^ (Z.pos (digits2_pos p) - 1) <= Z.pos p < 2 ^ Z.pos (digits2_pos p).
Proof.
  induction p as [p IH|p IH|]; cbn [digits2_pos].
  - rewrite Pos2Z.inj_succ.
    replace (Z.succ (Z.pos (digits2_pos p)) - 1) with (Z.succ (Z.pos (digits2_pos p) - 1)) by lia.
    rewrite !Z.pow_succ_r by lia. lia.
  - rewrite Pos2Z.inj_succ.
    replace (Z.succ (Z.pos (digits2_pos p)) - 1) with (Z.succ (Z.pos (digits2_pos p) - 1)) by lia.
    rewrite !Z.pow_succ_r by lia. lia.
  - cbn. lia.
Qed.

Lemma digits2_pos_le (p : positive) (n : Z) :
  Z.pos p < 2 ^ n -> Z.pos (digits2_pos p) <= n.
Proof.
  intros Hlt. destruct (digits2_pos_bounds p) as [Hlo _].
  destruct (Z.le_gt_cases (Z.pos (digits2_pos p)) n) as [|Hgt]; [done|].
  assert (2 ^ n <= 2 ^ (Z.pos (digits2_pos p) - 1)) by (apply Z.pow_le_mono_r; lia).
  lia.
Qed.

Lemma iter_xO_nat (p : positive) (k : nat) :
  Z.pos (Nat.iter k xO p) = Z.pos p * 2 ^ Z.of_nat k
  /\ Z.pos (digits2_pos (Nat.iter k xO p)) = Z.pos (digits2_pos p) + Z.of_nat k.
Proof.
  induction k as [|k [IH1 IH2]].
  - cbn. lia.
  - rewrite Nat.iter_succ. cbn [digits2_pos].
    rewrite Pos2Z.inj_xO, Pos2Z.inj_succ, IH1, IH2.
    rewrite Nat2Z.inj_succ, Z.pow_succ_r by lia. lia.
Qed.

Lemma iter_pos_nat {A} (f : A -> A) (p : positive) (x : A) :
  SpecFloat.iter_pos f p x = Nat.iter (Pos.to_nat p) f x.
Proof.
  revert x. induction p as [p IH|p IH|]; intros x; cbn [SpecFloat.iter_pos].
  - rewrite !IH, Pos2Nat.inj_xI, <- Nat.iter_add.
    replace (S (2 * Pos.to_nat p)) with (Pos.to_nat p + Pos.to_nat p + 1)%nat by lia.
    by rewrite (Nat.iter_add (Pos.to_nat p + Pos.to_nat p) 1).
  - rewrite !IH, Pos2Nat.inj_xO, <- Nat.iter_add. f_equal. lia.
  - done.
Qed.

Lemma shr_1_div2 (mrs : shr_record) :
  0 <= shr_m mrs -> shr_m (shr_1 mrs) = shr_m mrs / 2.
Proof.
  destruct mrs as [m r s]. cbn [shr_m]. intros Hm.
  rewrite <- Z.div2_div. by destruct m as [|[p|p|]|].
Qed.

Lemma shr_iter_div (k : nat) (mrs : shr_record) :
  0 <= shr_m mrs ->
  shr_m (Nat.iter k shr_1 mrs) = shr_m mrs / 2 ^ Z.of_nat k.
Proof.
  intros Hm. induction k as [|k IH].
  - cbn. by rewrite Z.div_1_r.
  - rewrite Nat.iter_succ, shr_1_div2.
    + rewrite IH, Nat2Z.inj_succ, Z.pow_succ_r, Z.div_div by lia.
      f_equal. lia.
    + rewrite IH. apply Z.div_pos; lia.
Qed.

(** Shifting out bits that are zero is exact. *)
Lemma shr_iter_exact (k : nat) (p : positive) :
  Nat.iter k shr_1 (Build_shr_record (Z.pos (Nat.iter k xO p)) false false)
  = Build_shr_record (Z.pos p) false false.
Proof.
  induction k as [|k IH]; [done|].
  rewrite Nat.iter_succ_r, Nat.iter_succ. cbn [shr_1 orb]. exact IH.
Qed.

Lemma shr_spec (mrs : shr_record) (e n : Z) :
  0 <= shr_m mrs ->
  shr_m (shr mrs e n).1 = shr_m mrs / 2 ^ Z.max 0 n
  /\ (shr mrs e n).2 = e + Z.max 0 n.
Proof.
  intros Hm. destruct n as [|p|p]; cbn [shr fst snd].
  - cbn. rewrite Z.div_1_r. lia.
  - rewrite iter_pos_nat, shr_iter_div, positive_nat_Z by done.
    rewrite Z.max_r by lia. done.
  - rewrite Z.max_l by lia. cbn. rewrite Z.div_1_r. lia.
Qed.

Lemma shr_m_of_loc (m : Z) (l : location) : shr_m (shr_record_of_loc m l) = m.
Proof. by destruct l as [|[]]. Qed.

Lemma round_nearest_even_bounds (m : Z) (l : location) :
  m <= round_nearest_even m l <= m + 1.
Proof. destruct l as [|[]]; cbn; try lia. destruct (Z.even m); lia. Qed.

Lemma Zdigits2_le (m n : Z) : 0 <= m < 2 ^ n -> 0 <= n -> Zdigits2 m <= n.
Proof.
  intros [Hm Hlt] Hn. destruct m as [|p|p]; cbn [Zdigits2]; [done| |lia].
  by apply digits2_pos_le.
Qed.

(** What rounding to binary32 gives, when it is finite: a mantissa of at
    most 24 bits and an exponent from -149 to 104. *)
Lemma binary_round_aux_24 (s : bool) (mx ex : Z) (lx : location) s' m' e' :
  0 <= mx ->
  binary_round_aux 24 128 s mx ex lx = S754_finite s' m' e' ->
  Z.pos m' < 2 ^ 24 /\ -149 <= e' <= 104.
Proof.
  intros Hmx. unfold binary_round_aux, shr_fexp.
  set (n1 := fexp 24 128 (Zdigits2 mx + ex) - ex).
  destruct (shr_spec (shr_record_of_loc mx lx) ex n1) as [Hm1 He1];
    [by rewrite shr_m_of_loc|].
  destruct (shr (shr_record_of_loc mx lx) ex n1) as [mrs1 e1].
  cbn [fst snd] in Hm1, He1. rewrite shr_m_of_loc in Hm1.
  assert (Hpow : 0 < 2 ^ Z.max 0 n1) by (apply Z.pow_pos_nonneg; lia).
  assert (Hm1pos : 0 <= shr_m mrs1) by (rewrite Hm1; apply Z.div_pos; lia).
  assert (Hm1lt : shr_m mrs1 < 2 ^ 24).
  { rewrite Hm1. apply Z.div_lt_upper_bound; [done|].
    rewrite <- Z.pow_add_r by lia.
    destruct mx as [|p|p]; [apply Z.pow_pos_nonneg; lia| |lia].
    destruct (digits2_pos_bounds p) as [_ Hlt].
    eapply Z.lt_le_trans; [exact Hlt|]. apply Z.pow_le_mono_r; [lia|].
    subst n1. unfold fexp, emin. cbn [Zdigits2]. lia. }
  assert (He1lo : -149 <= e1).
  { rewrite He1. subst n1. unfold fexp, emin. lia. }
  pose proof (round_nearest_even_bounds (shr_m mrs1) (loc_of_shr_record mrs1)) as Hr.
  set (r := round_nearest_even (shr_m mrs1) (loc_of_shr_record mrs1)) in *.
  set (n2 := fexp 24 128 (Zdigits2 r + e1) - e1).
  destruct (shr_spec (shr_record_of_loc r loc_Exact) e1 n2) as [Hm2 He2];
    [cbn; lia|].
  destruct (shr (shr_record_of_loc r loc_Exact) e1 n2) as [mrs2 e2].
  cbn [fst snd shr_record_of_loc shr_m] in Hm2, He2.
  assert (Hm2lt : shr_m mrs2 < 2 ^ 24).
  { destruct (Z.eq_dec r (2 ^ 24)) as [Heq|Hne].
    - assert (Hn2 : n2 = 1).
      { subst n2. rewrite Heq. change (Zdigits2 (2 ^ 24)) with 25.
        unfold fexp, emin. lia. }
      rewrite Hm2, Heq, Hn2. reflexivity.
    - rewrite Hm2. apply Z.div_lt_upper_bound; [apply Z.pow_pos_nonneg; lia|].
      assert (0 < 2 ^ Z.max 0 n2) by (apply Z.pow_pos_nonneg; lia).
      change (2 ^ 24) with 16777216 in *. nia. }
  destruct (shr_m mrs2) as [|m2|m2] eqn:Hsm; try discriminate.
  destruct (Z.leb_spec e2 (128 - 24)) as [Hle|]; [|discriminate].
  intros [= _ <- <-]. split; [done|]. lia.
Qed.

Lemma binary_round_24 (s : bool) (m : positive) (e : Z) s' m' e' :
  binary_round 24 128 s m e = S754_finite s' m' e' ->
  Z.pos m' < 2 ^ 24 /\ -149 <= e' <= 104.
Proof.
  unfold binary_round.
  destruct (shl_align m e (fexp 24 128 (Z.pos (digits2_pos m) + e))) as [mz ez].
  by apply binary_round_aux_24.
Qed.

(** A mantissa that is already in place is not rounded. *)
Lemma binary_round_aux_canonical (prec emax : Z) (s : bool) (m : positive) (e : Z) :
  fexp prec emax (Z.pos (digits2_pos m) + e) = e ->
  e <= emax - prec ->
  binary_round_aux prec emax s (Z.pos m) e loc_Exact = S754_finite s m e.
Proof.
  intros Hcan Hle. unfold binary_round_aux, shr_fexp.
  cbn [shr_record_of_loc Zdigits2]. rewrite Hcan, Z.sub_diag.
  cbn [shr shr_m loc_of_shr_record round_nearest_even Zdigits2].
  rewrite Hcan, Z.sub_diag. cbn [shr shr_m].
  by destruct (Z.leb_spec e (emax - prec)); [|lia].
Qed.

Lemma pos_iter_xO (m k : positive) :
  Z.pos (Pos.iter xO m k) = Z.pos m * 2 ^ Z.pos k
  /\ Z.pos (digits2_pos (Pos.iter xO m k)) = Z.pos (digits2_pos m) + Z.pos k.
Proof.
  rewrite Pos2Nat.inj_iter.
  change (nat_rect (fun _ => positive) m (fun _ => xO) (Pos.to_nat k))
    with (Nat.iter (Pos.to_nat k) xO m).
  destruct (iter_xO_nat m (Pos.to_nat k)) as [H1 H2].
  by rewrite H1, H2, positive_nat_Z.
Qed.

(** A binary32 value written as a binary64 value: the mantissa is shifted
    to 53 bits. *)
Lemma binary_round_53_of_24 (s : bool) (m : positive) (e : Z) :
  Z.pos m < 2 ^ 24 -> -149 <= e <= 104 ->
  exists k : positive,
    Z.pos k = 53 - Z.pos (digits2_pos m)
    /\ binary_round 53 1024 s m e
       = S754_finite s (Pos.iter xO m k) (e - Z.pos k)
    /\ SpecFloat.valid_binary 53 1024
         (S754_finite s (Pos.iter xO m k) (e - Z.pos k)) = true.
Proof.
  intros Hm He. pose proof (digits2_pos_le m 24 Hm) as Hd.
  assert (Hfexp : fexp 53 1024 (Z.pos (digits2_pos m) + e)
                  = Z.pos (digits2_pos m) + e - 53)
    by (unfold fexp, emin; lia).
  unfold binary_round, shl_align. rewrite Hfexp.
  destruct (Z.pos (digits2_pos m) + e - 53 - e) as [|p|k] eqn:Hk; [lia|lia|].
  exists k. destruct (pos_iter_xO m k) as [_ Hdig].
  assert (Hcan : fexp 53 1024 (Z.pos (digits2_pos (Pos.iter xO m k))
                               + (Z.pos (digits2_pos m) + e - 53))
                 = Z.pos (digits2_pos m) + e - 53).
  { rewrite Hdig. unfold fexp, emin. lia. }
  replace (e - Z.pos k) with (Z.pos (digits2_pos m) + e - 53) by lia.
  split_and!.
  - lia.
  - apply binary_round_aux_canonical; [done|lia].
  - cbn [SpecFloat.valid_binary]. unfold bounded, canonical_mantissa.
    rewrite Hcan, Z.eqb_refl. cbn. apply Z.leb_le. lia.
Qed.

(** The conversion gives binary32 values only. *)
Lemma to_f32_is_float32 (x : float) : is_float32 (to_f32 x) = true.
Proof.
  unfold to_f32. destruct (Prim2SF x) as [s|s| |s m e] eqn:Hx;
    try (unfold is_float32; by rewrite Hx).
  destruct (binary_round 24 128 s m e) as [s1|s1| |s1 m1 e1] eqn:Hr;
    try (unfold is_float32; by rewrite Prim2SF_SF2Prim).
  destruct (binary_round_24 s m e s1 m1 e1 Hr) as [Hm1 He1].
  destruct (binary_round_53_of_24 s1 m1 e1 Hm1 He1) as (k & Hk & -> & Hvalid).
  unfold is_float32. rewrite Prim2SF_SF2Prim by exact Hvalid.
  destruct (pos_iter_xO m1 k) as [Hval Hdig].
  pose proof (digits2_pos_le m1 24 Hm1) as Hd.
  cbv zeta. rewrite Hval, Hdig.
  set (n := fexp 24 128 (Z.pos (digits2_pos m1) + Z.pos k + (e1 - Z.pos k))
            - (e1 - Z.pos k)).
  assert (Hn : 0 <= n <= Z.pos k) by (subst n; unfold fexp, emin; lia).
  assert (Hpow : 2 ^ Z.pos k = 2 ^ (Z.pos k - n) * 2 ^ n)
    by (rewrite <- Z.pow_add_r by lia; f_equal; lia).
  rewrite Hpow, Z.mul_assoc, Z.mod_mul by (apply Z.pow_nonzero; lia).
  cbn [andb Z.eqb]. apply Z.leb_le. lia.
Qed.

(** Rounding to binary32 a mantissa whose [k] low bits are zero, when [k]
    is the number of bits to drop, only drops those bits. *)
Lemma binary_round_24_exact (s : bool) (p : positive) (k : positive) (e : Z) :
  fexp 24 128 (Z.pos (digits2_pos p) + Z.pos k + e) = e + Z.pos k ->
  e + Z.pos k <= 104 ->
  binary_round 24 128 s (Pos.iter xO p k) e = S754_finite s p (e + Z.pos k).
Proof.
  intros Hfexp Hle. destruct (pos_iter_xO p k) as [_ Hdig].
  unfold binary_round, shl_align. rewrite Hdig, Hfexp.
  replace (e + Z.pos k - e) with (Z.pos k) by lia.
  unfold binary_round_aux, shr_fexp. cbn [Zdigits2 shr_record_of_loc].
  rewrite Hdig, Hfexp. replace (e + Z.pos k - e) with (Z.pos k) by lia.
  cbn [shr]. rewrite iter_pos_nat.
  assert (Hiter : Pos.iter xO p k = Nat.iter (Pos.to_nat k) xO p)
    by (by rewrite Pos2Nat.inj_iter).
  rewrite Hiter, shr_iter_exact.
  cbn [shr_m loc_of_shr_record round_nearest_even Zdigits2 shr_record_of_loc].
  replace (Z.pos (digits2_pos p) + (e + Z.pos k))
    with (Z.pos (digits2_pos p) + Z.pos k + e) by lia.
  rewrite Hfexp, Z.sub_diag. cbn [shr shr_m].
  by destruct (Z.leb_spec (e + Z.pos k) (128 - 24)); [|lia].
Qed.

(** The conversion leaves binary32 values as they are. *)
Lemma to_f32_exact (x : float) : is_float32 x = true -> to_f32 x = x.
Proof.
  unfold is_float32, to_f32. pose proof (Prim2SF_valid x) as Hvalid.
  destruct (Prim2SF x) as [s|s| |s m e] eqn:Hx; try done.
  cbn [SpecFloat.valid_binary] in Hvalid. unfold bounded, canonical_mantissa in Hvalid.
  apply andb_prop in Hvalid as [Hcan He]. apply Z.eqb_eq in Hcan.
  apply Z.leb_le in He.
  cbv zeta. intros Hf. apply andb_prop in Hf as [Hmod Hmag].
  apply Z.eqb_eq in Hmod. apply Z.leb_le in Hmag.
  set (n := fexp 24 128 (Z.pos (digits2_pos m) + e) - e) in *.
  assert (Hn : 29 <= n).
  { subst n. unfold fexp, emin in *. change FloatOps.prec with 53 in *.
    change FloatOps.emax with 1024 in *. lia. }
  destruct n as [|k|k] eqn:Hk; [lia| |lia].
  assert (Hq : 0 < Z.pos m / 2 ^ Z.pos k).
  { apply Z.div_str_pos. split; [apply Z.pow_pos_nonneg; lia|].
    apply Z.mod_divide in Hmod; [|apply Z.pow_nonzero; lia].
    apply Z.divide_pos_le; [lia|done]. }
  destruct (Z.pos m / 2 ^ Z.pos k) as [|p|p] eqn:Hp; [lia| |lia].
  assert (Hm : m = Pos.iter xO p k).
  { apply Pos2Z.inj. destruct (pos_iter_xO p k) as [-> _].
    rewrite <- Hp. rewrite Z.mul_comm.
    pose proof (Z.div_mod (Z.pos m) (2 ^ Z.pos k)) as Hdm. rewrite Hmod in Hdm.
    rewrite Z.add_0_r in Hdm. apply Hdm. apply Z.pow_nonzero; lia. }
  destruct (pos_iter_xO p k) as [_ Hdig]. rewrite <- Hm in Hdig.
  assert (Hfexp : fexp 24 128 (Z.pos (digits2_pos p) + Z.pos k + e) = e + Z.pos k).
  { rewrite <- Hdig. lia. }
  rewrite Hm, binary_round_24_exact by (first [done | unfold fexp, emin in *; lia]).
  assert (Hback : binary_round 53 1024 s p (e + Z.pos k) = S754_finite s m e).
  { unfold binary_round, shl_align.
    replace (Z.pos (digits2_pos p) + (e + Z.pos k))
      with (Z.pos (digits2_pos m) + e) by lia.
    change (fexp 53 1024) with (fexp FloatOps.prec FloatOps.emax).
    rewrite Hcan. replace (e - (e + Z.pos k)) with (Z.neg k) by lia.
    rewrite <- Hm. by apply binary_round_aux_canonical. }
  rewrite Hback, <- Hx. apply SF2Prim_Prim2SF.
Qed.

(** ** The residual Exposure *)

Lemma wp_alloc_fresh {W} (o : obj) (Q : result loc -> state W -> Prop) w l h g :
  (forall p, h !! p = None -> Q (Ok p) (mk_state w l (<[p := o]> h) g)) ->
  wp (alloc o) Q (mk_state w l h g).
Proof.
  intros HQ. apply wp_alloc, HQ.
  apply not_elem_of_dom, is_fresh.
Qed.

(** A lookup in a heap or in the globals after insertions. *)
Ltac map_lookup :=
  cbn [globals heap world log e_image e_mask e_variance e_wcs e_xy0];
  repeat (rewrite lookup_insert_ne
           by first [ done | congruence
                    | intros ->; congruence | intros <-; congruence ]);
  first [ apply lookup_insert_eq | eassumption ].

Ltac wp_obj :=
  cbv beta iota;
  lazymatch goal with
  | |- wp (mbind _ _) _ _ => apply wp_bind
  | |- wp (mret _) _ _ => apply wp_ret
  | |- wp (raise _) _ _ => apply wp_raise
  | |- wp (lift _) _ _ => apply wp_lift
  | |- wp (set_global _ _) _ _ => apply wp_set_global
  | |- wp (get_global _) _ _ => eapply wp_get_global; [map_lookup|]
  | |- wp (as_ref (VRef _)) _ _ => apply wp_ret
  | |- wp (as_arr2 (VArr2 _)) _ _ => apply wp_ret
  | |- wp (as_float (VFloat _)) _ _ => apply wp_ret
  | |- wp (as_int (VInt _)) _ _ => apply wp_ret
  | |- wp (get_exposure _) _ _ => eapply wp_get_exposure; [map_lookup|]
  | |- wp (deref _) _ _ => eapply wp_deref; [map_lookup|]
  | |- wp (image_array _) _ _ => eapply wp_image_array; [map_lookup|]
  | |- wp (global_exposure_array _) _ _ =>
      eapply wp_global_exposure_array; [map_lookup|map_lookup|map_lookup|]
  | |- wp (global_image_array _) _ _ =>
      eapply wp_global_image_array; [map_lookup|map_lookup|]
  | |- wp (alloc _) _ _ =>
      let p := fresh "p" in
      let Hp := fresh "Hp" in
      apply wp_alloc_fresh; intros p Hp;
      repeat (apply lookup_insert_None in Hp as [Hp ?])
  | |- wp (heap_set _ _) _ _ => apply wp_heap_set
  | |- wp (Exposure_clone _) _ _ => unfold Exposure_clone
  | |- wp (ImageF_of_array (astype_float32 _)) _ _ =>
      unfold ImageF_of_array; cbn [astype_float32 a2_dtype]
  | |- wp (ImageF_of_image _) _ _ => unfold ImageF_of_image
  | |- wp (Exposure_setImage _ _) _ _ => unfold Exposure_setImage
  end.

Ltac residual_built_done :=
  cbv beta iota; unfold residual_built;
  split; [intros ? ? ? ?; cbn [globals];
          rewrite !lookup_insert_ne by done; reflexivity|];
  split; [intros ? ? ?; map_lookup|];
  eexists _, _; split_and!;
  [ map_lookup | eassumption | map_lookup
  | cbn [e_image]; eassumption | cbn [e_mask]; eassumption
  | cbn [e_variance]; eassumption
  | map_lookup | map_lookup | map_lookup
  | reflexivity | reflexivity ].

Section ResidualCell.
Context {W : Type} (E : Env W).

(** The subtraction of the scaled crop, for arrays of one shape. *)
Lemma np_sub2_scaled (a c : array2) (sc : float) :
  a2_wf a -> a2_wf c ->
  a2_dtype a = float32 -> a2_dtype c = float64 ->
  np_shape c = np_shape a ->
  np_sub2 a (scalar_mul2 sc c) = Ok (cutout_minus_psf_of sc a c).
Proof.
  intros Ha Hc Hda Hdc Hsh. destruct (np_shape_inj _ _ Hsh) as [Hr Hcl].
  rewrite np_sub2_same_shape.
  - unfold cutout_minus_psf_of, scalar_mul2. cbn [a2_dtype a2_ncols a2_rows].
    rewrite Hda, Hdc. cbn [promote store]. do 2 f_equal.
    rewrite zip_with_fmap_r. apply zip_with_ext; [|done|done].
    intros x y. by rewrite zip_with_fmap_r.
  - done.
  - unfold a2_wf, scalar_mul2 in *. cbn [a2_ncols a2_rows].
    apply Forall_map. eapply Forall_impl; [exact Hc|].
    intros x Hx. cbn. by rewrite length_map.
  - unfold a2_nrows, scalar_mul2. cbn [a2_rows]. rewrite length_map.
    unfold a2_nrows in Hr. done.
  - unfold scalar_mul2. cbn [a2_ncols]. done.
Qed.

(** The cell that binds [cutout_minus_psf]. *)
Lemma cell_subtract_total (w : W) l h g lc e a lk k sc ox oy :
  stamp_inputs (mk_state w l h g) lc e a lk k ->
  g !! "scaling" = Some (VFloat sc) ->
  g !! "offset_nx" = Some (VInt ox) ->
  g !! "offset_ny" = Some (VInt oy) ->
  a2_wf a -> a2_wf (crop_kernel k ox oy) ->
  a2_dtype a = float32 -> a2_dtype k = float64 ->
  np_shape (crop_kernel k ox oy) = np_shape a ->
  wp cell_subtract
     (fun r s' =>
        r = Ok tt
        /\ s' = mk_state w l h
                  (<["cutout_minus_psf" :=
                       VArr2 (cutout_minus_psf_of sc a (crop_kernel k ox oy))]> g))
     (mk_state w l h g).
Proof.
  intros [Hc He Hi Hm Hv Hk Hki] Hs Hx Hy Hwa Hwc Hda Hdk Hsh.
  cbn [globals heap] in *.
  unfold cell_subtract. repeat wp_obj.
  rewrite np_sub2_scaled by done. repeat wp_obj. done.
Qed.

(** The cell that builds [residual]: whatever the display calls answer, the
    residual is built; and the cell ends normally when they do not raise. *)
Lemma cell_residual_built w l h g lc e a om ov r :
  g !! "cutout" = Some (VRef lc) ->
  h !! lc = Some (OExposure e) ->
  h !! e_image e = Some (OImage a) ->
  h !! e_mask e = Some om ->
  h !! e_variance e = Some ov ->
  g !! "cutout_minus_psf" = Some (VArr2 r) ->
  wp (cell_residual E)
     (fun res s' => (render_ok E -> res = Ok tt)
                    /\ residual_built h g e om ov r s')
     (mk_state w l h g).
Proof.
  intros Hc He Hi Hm Hv Hr.
  unfold cell_residual.
  repeat wp_obj.
  repeat first
    [ wp_obj
    | lazymatch goal with
      | |- wp (call_render _ ?ev) _ (mk_state ?w0 _ _ _) =>
          let Hr := fresh "Hr" in
          apply wp_call_render; intros ? [[]|?] Hr;
          [ clear Hr
          | split;
            [ let Hok := fresh "Hok" in
              intros Hok; specialize (Hok ev w0); rewrite Hr in Hok;
              discriminate Hok
            | residual_built_done ] ]
      end
    | split; [done | residual_built_done] ].
Qed.

(** C7. The cell that builds [residual] leaves every object that existed
    before it as it was, the cutout Exposure and its image, mask and variance
    planes among them, and [cutout] stays bound to it. [residual] is bound to
    a new Exposure whose planes are new objects: its image holds the
    subtracted pixels, its mask and variance have the contents of the
    cutout's, and its transform and origin are the cutout's. This holds
    whether or not the display calls that end the cell succeed. *)
Theorem residual_keeps_cutout w l h g lc e a om ov r :
  g !! "cutout" = Some (VRef lc) ->
  h !! lc = Some (OExposure e) ->
  h !! e_image e = Some (OImage a) ->
  h !! e_mask e = Some om ->
  h !! e_variance e = Some ov ->
  g !! "cutout_minus_psf" = Some (VArr2 r) ->
  let s' := (cell_residual E (mk_state w l h g)).1 in
  globals s' !! "cutout" = Some (VRef lc)
  /\ heap s' !! lc = Some (OExposure e)
  /\ heap s' !! e_image e = Some (OImage a)
  /\ heap s' !! e_mask e = Some om
  /\ heap s' !! e_variance e = Some ov
  /\ residual_built h g e om ov r s'.
Proof.
  intros Hc He Hi Hm Hv Hr s'.
  destruct (wp_elim _ _ _ (cell_residual_built w l h g lc e a om ov r
                             Hc He Hi Hm Hv Hr)) as [_ Hb].
  fold s' in Hb. pose proof Hb as (Hg & Hh & _).
  split_and!; auto.
  rewrite Hg by done. exact Hc.
Qed.

Lemma residual_built_pixels h g e om ov r (s' : state W) :
  residual_built h g e om ov r s' ->
  exposure_pixels "residual" s' = Some (astype_float32 r).
Proof.
  intros (_ & _ & lr & er & Hg & _ & Hl & _ & _ & _ & Hi & _).
  unfold exposure_pixels. by rewrite Hg, Hl, Hi.
Qed.

Lemma pixel_cutout_minus_psf (sc : float) (a c : array2) (i j : nat) (x y : float) :
  pixel a i j = Some x ->
  pixel c i j = Some y ->
  pixel (cutout_minus_psf_of sc a c) i j
  = Some (PrimFloat.sub x (PrimFloat.mul sc y)).
Proof.
  unfold pixel, cutout_minus_psf_of. cbn [a2_rows]. intros Ha Hc.
  destruct (a2_rows a !! i) as [ra|] eqn:Hra; [|discriminate Ha].
  destruct (a2_rows c !! i) as [rc|] eqn:Hrc; [|discriminate Hc].
  cbn in Ha, Hc. rewrite lookup_zip_with, Hra. cbn. rewrite Hrc. cbn.
  rewrite lookup_zip_with, Ha. cbn. rewrite Hc. done.
Qed.

Lemma pixel_astype_float32 (r : array2) (i j : nat) (v : float) :
  pixel r i j = Some v -> pixel (astype_float32 r) i j = Some (to_f32 v).
Proof.
  unfold pixel, astype_float32. cbn [a2_rows]. intros Hr.
  destruct (a2_rows r !! i) as [rr|] eqn:Hrr; [|discriminate Hr].
  cbn in Hr. rewrite list_lookup_fmap, Hrr. cbn.
  rewrite list_lookup_fmap, Hr. done.
Qed.

Lemma pixel_astype_float32_inv (r : array2) (i j : nat) (u : float) :
  pixel (astype_float32 r) i j = Some u ->
  exists v, pixel r i j = Some v /\ u = to_f32 v.
Proof.
  unfold pixel, astype_float32. cbn [a2_rows]. rewrite list_lookup_fmap.
  destruct (a2_rows r !! i) as [rr|]; [|discriminate]. cbn.
  rewrite list_lookup_fmap. destruct (rr !! j) as [v|]; [|discriminate]. cbn.
  intros [= <-]. by exists v.
Qed.

Lemma pixel_in_range (a : array2) (i j : nat) :
  a2_wf a -> (i < a2_nrows a)%nat -> (j < a2_ncols a)%nat ->
  is_Some (pixel a i j).
Proof.
  intros Hwf Hi Hj. unfold pixel.
  destruct (lookup_lt_is_Some_2 (a2_rows a) i Hi) as [r Hr].
  rewrite Hr. cbn. apply lookup_lt_is_Some_2.
  by rewrite (Forall_lookup_1 _ _ _ _ Hwf Hr).
Qed.

Lemma cutout_minus_psf_shape (sc : float) (a c : array2) :
  np_shape c = np_shape a ->
  np_shape (cutout_minus_psf_of sc a c) = np_shape a.
Proof.
  unfold np_shape, cutout_minus_psf_of, a2_nrows. cbn [a2_rows a2_ncols].
  intros Hsh. destruct (np_shape_inj _ _ Hsh) as [Hr _]. unfold a2_nrows in Hr.
  rewrite length_zip_with, Hr. f_equal. lia.
Qed.

Lemma astype_float32_shape (r : array2) :
  np_shape (astype_float32 r) = np_shape r.
Proof.
  unfold np_shape, astype_float32, a2_nrows. cbn [a2_rows a2_ncols].
  by rewrite length_map.
Qed.

(** C6. For a cutout array and a cropped PSF array of one shape, the cell
    binds [cutout_minus_psf] to the array whose element (i, j) is
    cutout[i][j] - scaling * cropped[i][j], of the cutout's shape; the image
    then stored in [residual] is that array converted to float32, element by
    element, and has the cutout's shape. Every stored pixel is a binary32
    value, whatever the difference was, and a difference that is a binary32
    value is stored as it is. *)
Theorem residual_is_cutout_minus_scaled_psf (w : W) l h g lc e a lk k sc ox oy :
  stamp_inputs (mk_state w l h g) lc e a lk k ->
  g !! "scaling" = Some (VFloat sc) ->
  g !! "offset_nx" = Some (VInt ox) ->
  g !! "offset_ny" = Some (VInt oy) ->
  a2_wf a ->
  a2_wf (crop_kernel k ox oy) ->
  a2_dtype a = float32 ->
  a2_dtype k = float64 ->
  np_shape (crop_kernel k ox oy) = np_shape a ->
  let s' := ((cell_subtract;; cell_residual E) (mk_state w l h g)).1 in
  exists r stored,
    globals s' !! "cutout_minus_psf" = Some (VArr2 r)
    /\ np_shape r = np_shape a
    /\ (forall i j, (i < a2_nrows a)%nat -> (j < a2_ncols a)%nat ->
        exists x y, pixel a i j = Some x
                    /\ pixel (crop_kernel k ox oy) i j = Some y
                    /\ pixel r i j = Some (PrimFloat.sub x (PrimFloat.mul sc y)))
    /\ exposure_pixels "residual" s' = Some stored
    /\ a2_dtype stored = float32
    /\ np_shape stored = np_shape a
    /\ (forall i j v, pixel r i j = Some v -> pixel stored i j = Some (to_f32 v))
    /\ (forall i j u, pixel stored i j = Some u -> is_float32 u = true)
    /\ (forall i j v, pixel r i j = Some v -> is_float32 v = true ->
        pixel stored i j = Some v).
Proof.
  intros Hin Hs Hx Hy Hwa Hwc Hda Hdk Hsh s'.
  set (r := cutout_minus_psf_of sc a (crop_kernel k ox oy)).
  assert (Hpost : (fun (_ : result unit) s1 =>
            globals s1 !! "cutout_minus_psf" = Some (VArr2 r)
            /\ exposure_pixels "residual" s1 = Some (astype_float32 r)) (Ok tt) s').
  { apply (wp_elim (cell_subtract;; cell_residual E)
             (fun _ s1 => globals s1 !! "cutout_minus_psf" = Some (VArr2 r)
                          /\ exposure_pixels "residual" s1 = Some (astype_float32 r))).
    apply wp_bind.
    eapply wp_mono;
      [|exact (cell_subtract_total w l h g lc e a lk k sc ox oy
                 Hin Hs Hx Hy Hwa Hwc Hda Hdk Hsh)].
    intros res s1 [-> ->]. cbv beta iota.
    destruct Hin as [Hc He Hi [om Hm] [ov Hv] Hk Hki]. cbn [globals heap] in *.
    eapply wp_mono;
      [|apply (cell_residual_built w l h _ lc e a om ov r);
        solve [ map_lookup ] ].
    intros res s1 [_ Hb]. cbv beta. split.
    - destruct Hb as (Hg & _). rewrite Hg by done. apply lookup_insert_eq.
    - by eapply residual_built_pixels. }
  cbv beta in Hpost. destruct Hpost as [Hr Hp].
  exists r, (astype_float32 r). split_and!; try done.
  - by apply cutout_minus_psf_shape.
  - intros i j Hi Hj.
    destruct (np_shape_inj _ _ Hsh) as [Hnr Hnc].
    destruct (pixel_in_range a i j) as [x Hpx]; [done..|].
    destruct (pixel_in_range (crop_kernel k ox oy) i j) as [y Hpy];
      [done | lia | lia |].
    exists x, y. split_and!; try done.
    by apply pixel_cutout_minus_psf.
  - rewrite astype_float32_shape. by apply cutout_minus_psf_shape.
  - intros i j v. apply pixel_astype_float32.
  - intros i j u Hu. apply pixel_astype_float32_inv in Hu as (v & _ & ->).
    apply to_f32_is_float32.
  - intros i j v Hv Hf. rewrite (pixel_astype_float32 r i j v Hv).
    by rewrite to_f32_exact.
Qed.

(** The three cells, when nothing raises: the inputs are as before and the
    residual's pixels are given by the closed form. *)
Lemma residual_compositor_total w l h g lc e a lk k crow krow :
  render_ok E ->
  stamp_inputs (mk_state w l h g) lc e a lk k ->
  stamp_shapes a k ->
  middle_row a = Some crow ->
  middle_row k = Some krow ->
  wp (residual_compositor E)
     (fun r s' =>
        r = Ok tt
        /\ stamp_inputs s' lc e a lk k
        /\ exposure_pixels "residual" s'
           = Some (astype_float32
                     (cutout_minus_psf_of (scaling_of E crow krow) a
                        (crop_kernel k
                           (Z.of_nat (a2_nrows k) - Z.of_nat (a2_nrows a))
                           (Z.of_nat (a2_ncols k) - Z.of_nat (a2_ncols a))))))
     (mk_state w l h g).
Proof.
  intros Hok Hin Hsh Hcr Hkr. unfold residual_compositor.
  apply wp_bind.
  eapply wp_mono; [|exact (cell_scaling_total E w l h g lc e a lk k crow krow
                             Hok Hin Hsh Hcr Hkr)].
  intros res [w1 l1 h1 g1] (-> & Hh & Hg & _). cbn [heap globals] in Hh, Hg. subst h1 g1.
  cbv beta iota.
  destruct Hsh as [Hwa Hwk Hda Hdk Hr Hcl Hsq].
  destruct (crop_kernel_fits k (a2_nrows a) (a2_ncols a) Hwk) as (Hcs & Hcw & Hcd & _);
    [lia | lia |].
  destruct Hin as [Hc He Hi Hm Hv Hk Hki]. cbn [globals heap] in *.
  assert (Hin1 : stamp_inputs
                   (mk_state w1 l1 h (scaling_bindings E a k crow krow g))
                   lc e a lk k).
  { split; cbn [globals heap]; try done; unfold scaling_bindings; by simplify_map_eq. }
  apply wp_bind.
  eapply wp_mono;
    [|apply (cell_subtract_total w1 l1 h _ lc e a lk k (scaling_of E crow krow)
               (Z.of_nat (a2_nrows k) - Z.of_nat (a2_nrows a))
               (Z.of_nat (a2_ncols k) - Z.of_nat (a2_ncols a)));
      first [ exact Hin1 | done
            | unfold scaling_bindings; by simplify_map_eq ] ].
  intros res s1 [-> ->]. cbv beta iota.
  destruct Hm as [om Hm]. destruct Hv as [ov Hv].
  eapply wp_mono;
    [|apply (cell_residual_built w1 l1 h _ lc e a om ov);
      first [ eassumption
            | unfold scaling_bindings; by simplify_map_eq ] ].
  intros res s1 [Hres Hb]. cbv beta. split_and!.
  - by apply Hres.
  - pose proof Hb as (Hg & Hh & _).
    split.
    + rewrite Hg by done. unfold scaling_bindings. by simplify_map_eq.
    + by apply Hh.
    + by apply Hh.
    + rewrite (Hh _ _ Hm). done.
    + rewrite (Hh _ _ Hv). done.
    + rewrite Hg by done. unfold scaling_bindings. by simplify_map_eq.
    + by apply Hh.
  - by eapply residual_built_pixels.
Qed.

(** C9. The residual depends on the cutout array and the PSF image array
    only. Two runs of the three cells on states that hold the same two
    arrays, whatever else the states hold, both succeed and store the same
    residual array; the inputs are left as they were, so the second run may
    start from the state the first one ended in. *)
Theorem residual_compositor_deterministic
    w l h g lc e lk w' l' h' g' lc' e' lk' a k :
  render_ok E ->
  stamp_shapes a k ->
  stamp_inputs (mk_state w l h g) lc e a lk k ->
  stamp_inputs (mk_state w' l' h' g') lc' e' a lk' k ->
  exists s1 s2 s3 r,
    residual_compositor E (mk_state w l h g) = (s1, Ok tt)
    /\ residual_compositor E (mk_state w' l' h' g') = (s2, Ok tt)
    /\ residual_compositor E s1 = (s3, Ok tt)
    /\ exposure_pixels "residual" s1 = Some r
    /\ exposure_pixels "residual" s2 = Some r
    /\ exposure_pixels "residual" s3 = Some r
    /\ a2_dtype r = float32
    /\ np_shape r = np_shape a.
Proof.
  intros Hok Hsh Hin Hin'.
  destruct (middle_row_exists a) as [crow Hcr]; [destruct Hsh; lia|].
  destruct (middle_row_exists k) as [krow Hkr]; [destruct Hsh; lia|].
  pose proof (wp_elim _ _ _ (residual_compositor_total w l h g lc e a lk k crow krow
                               Hok Hin Hsh Hcr Hkr)) as (Hr1 & Hin1 & Hp1).
  pose proof (wp_elim _ _ _ (residual_compositor_total w' l' h' g' lc' e' a lk' k crow krow
                               Hok Hin' Hsh Hcr Hkr)) as (Hr2 & _ & Hp2).
  destruct (residual_compositor E (mk_state w l h g)) as [s1 r1] eqn:H1.
  destruct (residual_compositor E (mk_state w' l' h' g')) as [s2 r2] eqn:H2.
  cbn [fst snd] in *. subst r1 r2.
  destruct s1 as [w1 l1 h1 g1].
  pose proof (wp_elim _ _ _ (residual_compositor_total w1 l1 h1 g1 lc e a lk k crow krow
                               Hok Hin1 Hsh Hcr Hkr)) as (Hr3 & _ & Hp3).
  destruct (residual_compositor E (mk_state w1 l1 h1 g1)) as [s3 r3] eqn:H3.
  cbn [fst snd] in *. subst r3.
  eexists _, _, _, _. split_and!; try done.
  rewrite astype_float32_shape. apply cutout_minus_psf_shape.
  destruct Hsh as [Hwa Hwk Hda Hdk Hr Hcl Hsq].
  destruct (crop_kernel_fits k (a2_nrows a) (a2_ncols a) Hwk) as (Hcs & _);
    [lia | lia |].
  exact Hcs.
Qed.

End ResidualCell.

(** ** The log of a computation *)

Section Emits.
Context {W : Type} (E : Env W).
Implicit Types P : event -> Prop.

Lemma emits_silent {A} P (c : M W A) :
  (forall s, log (c s).1 = log s) -> emits P c.
Proof. intros H s. exists []. by rewrite H, app_nil_r. Qed.

Lemma emits_ret {A} P (a : A) : emits P (mret a : M W A).
Proof. by apply emits_silent. Qed.

Lemma emits_raise {A} P e : emits P (raise e : M W A).
Proof. by apply emits_silent. Qed.

Lemma emits_lift {A} P (r : result A) : emits P (lift r : M W A).
Proof. by apply emits_silent. Qed.

Lemma emits_set_global P name v : emits P (set_global name v : M W unit).
Proof. by apply emits_silent. Qed.

Lemma emits_get_global P name : emits P (get_global name : M W value).
Proof.
  apply emits_silent. intros s. unfold get_global. by destruct (globals s !! name).
Qed.

Lemma emits_alloc P o : emits P (alloc o : M W loc).
Proof. by apply emits_silent. Qed.

Lemma emits_deref P l : emits P (deref l : M W obj).
Proof.
  apply emits_silent. intros s. unfold deref. by destruct (heap s !! l).
Qed.

Lemma emits_bind {A B} P (c : M W A) (k : A -> M W B) :
  emits P c -> (forall a, emits P (k a)) -> emits P (c ≫= k).
Proof.
  intros Hc Hk s. unfold mbind, M_bind.
  destruct (Hc s) as (n1 & Hl1 & Hp1).
  destruct (c s) as [s1 [a|e]]; cbn [fst] in *.
  - destruct (Hk a s1) as (n2 & Hl2 & Hp2).
    exists (n1 ++ n2). split.
    + by rewrite Hl2, Hl1, (assoc_L (++)).
    + by apply Forall_app.
  - by exists n1.
Qed.

Lemma emits_call_render P ev : P ev -> emits P (call_render E ev).
Proof.
  intros Hev s. exists [ev]. unfold call_render.
  destruct (render E ev (world s)) as [w' r]. cbn. split; [done|].
  by apply Forall_singleton.
Qed.

Lemma emits_Butler_get P butler name bbox dataId :
  P (EvButlerGet butler name bbox dataId) ->
  emits P (Butler_get E butler name bbox dataId).
Proof.
  intros Hev. unfold Butler_get. apply emits_bind.
  - intros s. exists [EvButlerGet butler name bbox dataId].
    destruct (butler_get E butler name bbox dataId (world s)) as [w' r].
    cbn. split; [done|]. by apply Forall_singleton.
  - intros [m|d]; [apply emits_ret|].
    repeat (apply emits_bind; [apply emits_alloc|intros ?]). apply emits_ret.
Qed.

Lemma emits_as_ref P v : emits P (as_ref v : M W loc).
Proof. destruct v; first [apply emits_ret | apply emits_raise]. Qed.

Lemma emits_as_skymap P v : emits P (as_skymap v : M W SkyMap).
Proof. destruct v; first [apply emits_ret | apply emits_raise]. Qed.

Lemma emits_get_exposure P l : emits P (get_exposure l : M W exposure).
Proof.
  unfold get_exposure. apply emits_bind; [apply emits_deref|].
  intros []; first [apply emits_ret | apply emits_raise].
Qed.

Lemma emits_image_array P l : emits P (image_array l : M W array2).
Proof.
  unfold image_array. apply emits_bind; [apply emits_deref|].
  intros []; first [apply emits_ret | apply emits_raise].
Qed.

Lemma emits_exposure_image_array P l : emits P (exposure_image_array l : M W array2).
Proof.
  unfold exposure_image_array. apply emits_bind; [apply emits_get_exposure|].
  intros ?. apply emits_image_array.
Qed.

End Emits.

(** One step of a proof that a computation emits only events of a kind. *)
Ltac emits_step :=
  lazymatch goal with
  | |- emits _ (mbind _ _) => apply emits_bind; [|intros ?]
  | |- emits _ (mret _) => apply emits_ret
  | |- emits _ (raise _) => apply emits_raise
  | |- emits _ (lift _) => apply emits_lift
  | |- emits _ (set_global _ _) => apply emits_set_global
  | |- emits _ (get_global _) => apply emits_get_global
  | |- emits _ (as_ref _) => apply emits_as_ref
  | |- emits _ (as_skymap _) => apply emits_as_skymap
  | |- emits _ (get_exposure _) => apply emits_get_exposure
  | |- emits _ (exposure_image_array _) => apply emits_exposure_image_array
  | |- emits _ (call_render _ _) => apply emits_call_render; exact I
  | |- emits _ (Butler_get _ _ _ _ _) => apply emits_Butler_get
  | |- emits _ (match ?x with _ => _ end) => destruct x
  | |- emits _ (if ?b then _ else _) => destruct b
  end.

(** ** The cutout functions *)

(** A step over a bind, a returned value or the answer of a lookup. *)
Ltac wp_pure_step :=
  cbv beta iota;
  lazymatch goal with
  | |- wp (mbind _ _) _ _ => apply wp_bind
  | |- wp (mret _) _ _ => apply wp_ret
  | |- wp (lift (Ok _)) _ _ => apply wp_lift
  end.

Section Fetch.
Context {W : Type} (E : Env W).

Lemma Butler_get_log butler name bbox dataId (s : state W) :
  log (Butler_get E butler name bbox dataId s).1
  = log s ++ [EvButlerGet butler name bbox dataId].
Proof.
  unfold Butler_get, mbind, M_bind.
  destruct (butler_get E butler name bbox dataId (world s)) as [w' [[m|d]|e]];
    reflexivity.
Qed.

Lemma Butler_get_err butler name bbox dataId (s : state W) w' e :
  butler_get E butler name bbox dataId (world s) = (w', Err e) ->
  Butler_get E butler name bbox dataId s
  = (mk_state w' (log s ++ [EvButlerGet butler name bbox dataId])
              (heap s) (globals s), Err e).
Proof. intros H. unfold Butler_get, mbind, M_bind. by rewrite H. Qed.

Lemma Butler_get_skymap butler name bbox dataId (s : state W) w' m :
  butler_get E butler name bbox dataId (world s) = (w', Ok (BSkyMap m)) ->
  Butler_get E butler name bbox dataId s
  = (mk_state w' (log s ++ [EvButlerGet butler name bbox dataId])
              (heap s) (globals s), Ok (VSkyMap m)).
Proof. intros H. unfold Butler_get, mbind, M_bind. by rewrite H. Qed.

Lemma wp_Butler_get_log butler name bbox dataId
    (Q : result value -> state W -> Prop) w l h g :
  (forall r s', log s' = l ++ [EvButlerGet butler name bbox dataId] -> Q r s') ->
  wp (Butler_get E butler name bbox dataId) Q (mk_state w l h g).
Proof.
  intros HQ. unfold wp. apply HQ.
  apply (Butler_get_log butler name bbox dataId (mk_state w l h g)).
Qed.

(** The reads of the cutout fetch name [datasetType] and carry [filter]. *)
Lemma cutout_coadd_spherepoint_emits (P : event -> Prop)
    butler radec filter datasetType skymap side :
  P (EvButlerGet butler (datasetType +:+ "_skyMap") None None) ->
  (forall bbox tract patch,
      P (EvButlerGet butler (datasetType +:+ "_sub") (Some bbox)
                     (Some (mk_DataId tract patch filter)))) ->
  emits P (cutout_coadd_spherepoint E butler radec filter datasetType skymap side).
Proof.
  intros H1 H2. unfold cutout_coadd_spherepoint.
  repeat first [ emits_step | exact H1 | apply H2 ].
Qed.

Lemma cutout_coadd_ra_dec_emits butler ra dec filter :
  emits (coadd_read filter) (cutout_coadd_ra_dec E butler ra dec filter "deepCoadd").
Proof.
  unfold cutout_coadd_ra_dec. apply cutout_coadd_spherepoint_emits.
  - left. done.
  - intros bbox tract patch. right. split_and!; [done|by eexists|done].
Qed.

Lemma save_fits_block_emits P cutout_image savefits :
  (forall l f, P (EvWriteFits l f)) ->
  emits P (save_fits_block E cutout_image savefits).
Proof.
  intros HP. unfold save_fits_block, writeFits.
  repeat first [ emits_step | apply emits_call_render, HP ].
Qed.

Lemma exposure_skyToPixel_emits P cutout_image radec :
  emits P (exposure_skyToPixel cutout_image radec : M W Point2D).
Proof. unfold exposure_skyToPixel. repeat emits_step. Qed.

Lemma exposure_xy0_emits P cutout_image :
  emits P (exposure_xy0 cutout_image : M W PointI).
Proof. unfold exposure_xy0. repeat emits_step. Qed.

Lemma make_cutout_image_emits butler ra dec filter vmin vmax label show
    saveplot savefits datasetType :
  emits (coadd_read filter)
        (make_cutout_image E butler ra dec filter vmin vmax label show
                           saveplot savefits datasetType).
Proof.
  unfold make_cutout_image.
  repeat first
    [ apply cutout_coadd_ra_dec_emits
    | apply save_fits_block_emits; intros; exact I
    | apply exposure_skyToPixel_emits
    | apply exposure_xy0_emits
    | emits_step ].
Qed.

Lemma display_cutout_image_emits butler ra dec vmin vmax label frame display
    backend show saveplot savefits old_matplotlib datasetType :
  emits (coadd_read "r")
        (display_cutout_image E butler ra dec vmin vmax label frame display
                              backend show saveplot savefits old_matplotlib
                              datasetType).
Proof.
  unfold display_cutout_image.
  repeat first
    [ apply cutout_coadd_ra_dec_emits
    | apply save_fits_block_emits; intros; exact I
    | apply exposure_skyToPixel_emits
    | emits_step ].
Qed.

(** C2 (as amended). The cutout fetch makes no check of [datasetType]. For
    every [datasetType], [deepCoadd] or not, a call without a sky map starts
    with the read of [<datasetType>_skyMap] from the storage collaborator,
    and when that read fails the call raises the collaborator's exception
    and has done nothing else. *)
Theorem cutout_fetch_reads_first butler radec filter datasetType side
    (w : W) l h g :
  let ev := EvButlerGet butler (datasetType +:+ "_skyMap") None None in
  let out := cutout_coadd_spherepoint E butler radec filter datasetType VNone side
                                      (mk_state w l h g) in
  (exists rest, log out.1 = l ++ ev :: rest)
  /\ (forall w' e,
        butler_get E butler (datasetType +:+ "_skyMap") None None w = (w', Err e) ->
        out = (mk_state w' (l ++ [ev]) h g, Err e)).
Proof.
  intros ev out. subst out. unfold cutout_coadd_spherepoint.
  cbv beta iota zeta.
  set (k := fun skymap : value => _ : M W value).
  unfold mbind, M_bind.
  pose proof (Butler_get_log butler (datasetType +:+ "_skyMap") None None
                             (mk_state w l h g)) as Hlog.
  split.
  - destruct (Butler_get E butler (datasetType +:+ "_skyMap") None None
                         (mk_state w l h g)) as [s1 [v|e]]; cbn [fst log] in *.
    + assert (Hk : emits (fun _ => True) (k v)).
      { unfold k. repeat first [ emits_step | exact I ]. }
      destruct (Hk s1) as (new & Hnew & _). exists new.
      by rewrite Hnew, Hlog, <- (assoc_L (++)).
    + exists []. exact Hlog.
  - intros w' e Hb.
    by rewrite (Butler_get_err butler _ None None (mk_state w l h g) w' e Hb).
Qed.

(** C3. For every center pixel [xy] that the sky map gives and every side
    length, the box of the bounded read has its origin at
    [xy - side // 2] in both axes and width and height equal to the side
    length. The box is the one sent to the storage collaborator, whether
    the sky map was passed in or read first; it is not clipped to the
    tile. *)
Theorem cutout_bbox_centered butler radec filter datasetType side
    sm tractInfo patchInfo p xy :
  findTract sm radec = Ok tractInfo ->
  tract_findPatch tractInfo radec = Ok patchInfo ->
  skyToPixel (tract_getWcs tractInfo) radec = Ok p ->
  PointI_of_Point2D E p = Ok xy ->
  exists bbox coaddId,
    box_min bbox = mk_PointI (pi_x xy - side / 2) (pi_y xy - side / 2)
    /\ box_width bbox = side
    /\ box_height bbox = side
    /\ (forall s : state W,
          log (cutout_coadd_spherepoint E butler radec filter datasetType
                 (VSkyMap sm) side s).1
          = log s ++ [EvButlerGet butler (datasetType +:+ "_sub")
                                  (Some bbox) (Some coaddId)])
    /\ (forall (s : state W) w1,
          butler_get E butler (datasetType +:+ "_skyMap") None None (world s)
          = (w1, Ok (BSkyMap sm)) ->
          log (cutout_coadd_spherepoint E butler radec filter datasetType
                 VNone side s).1
          = log s ++ [EvButlerGet butler (datasetType +:+ "_skyMap") None None;
                      EvButlerGet butler (datasetType +:+ "_sub")
                                  (Some bbox) (Some coaddId)]).
Proof.
  intros Ht Hp Hs Hx.
  exists (mk_BoxI (PointI_sub xy (ExtentI_floordiv (mk_ExtentI side side) 2))
                  (mk_ExtentI side side)),
         (mk_DataId (tract_getId tractInfo)
                    (pretty (patch_getIndex patchInfo).1 +:+ "," +:+
                     pretty (patch_getIndex patchInfo).2) filter).
  split_and!; [reflexivity..| |].
  - intros [w l h g]. cbn [log].
    apply (wp_elim (cutout_coadd_spherepoint E butler radec filter datasetType
                      (VSkyMap sm) side)
             (fun _ s' => log s' = l ++ [_])).
    unfold cutout_coadd_spherepoint, as_skymap.
    repeat first
      [ apply wp_Butler_get_log; intros [?|?] ? Hl; [apply wp_ret|]; exact Hl
      | wp_pure_step
      | rewrite Ht | rewrite Hp | rewrite Hs | rewrite Hx ].
  - intros [w l h g] w1 Hb. cbn [log world] in *.
    apply (wp_elim (cutout_coadd_spherepoint E butler radec filter datasetType
                      VNone side)
             (fun _ s' => log s' = l ++ [_; _])).
    unfold cutout_coadd_spherepoint, as_skymap.
    apply wp_bind.
    eapply wp_run;
      [exact (Butler_get_skymap butler _ None None (mk_state w l h g) w1 sm Hb)|].
    cbn [world log heap globals].
    repeat first
      [ apply wp_Butler_get_log; intros [?|?] ? Hl; [apply wp_ret|];
        cbv beta; by rewrite Hl, <- (assoc_L (++))
      | wp_pure_step
      | rewrite Ht | rewrite Hp | rewrite Hs | rewrite Hx ].
Qed.

(** C10. [make_cutout_image] and [display_cutout_image] do not depend on
    their [datasetType] argument: the computations for two values of it are
    the same. Every read they send to the storage collaborator is of
    [deepCoadd], the sky map or a sub-image; the sub-image is asked in the
    band [filter] by [make_cutout_image] and in the band [r] by
    [display_cutout_image]. *)
Theorem display_functions_ignore_datasetType butler ra dec filter vmin vmax
    label show saveplot savefits frame display backend old_matplotlib
    (datasetType1 datasetType2 : string) :
  make_cutout_image E butler ra dec filter vmin vmax label show saveplot
                    savefits datasetType1
  = make_cutout_image E butler ra dec filter vmin vmax label show saveplot
                      savefits datasetType2
  /\ display_cutout_image E butler ra dec vmin vmax label frame display backend
                          show saveplot savefits old_matplotlib datasetType1
     = display_cutout_image E butler ra dec vmin vmax label frame display backend
                            show saveplot savefits old_matplotlib datasetType2
  /\ emits (coadd_read filter)
           (make_cutout_image E butler ra dec filter vmin vmax label show
                              saveplot savefits datasetType1)
  /\ emits (coadd_read "r")
           (display_cutout_image E butler ra dec vmin vmax label frame display
                                 backend show saveplot savefits old_matplotlib
                                 datasetType1).
Proof.
  split_and!.
  - reflexivity.
  - reflexivity.
  - apply make_cutout_image_emits.
  - apply display_cutout_image_emits.
Qed.

(** ** The loop over the catalog *)

(** An exception in the body for one element ends the loop there. *)
Lemma for_each_abort {A} (body : A -> M W unit) pre x post s s1 s2 e :
  for_each body pre s = (s1, Ok tt) ->
  body x s1 = (s2, Err e) ->
  for_each body (pre ++ x :: post) s = (s2, Err e).
Proof.
  revert s. induction pre as [|y pre IH]; intros s Hpre Hx.
  - cbn in Hpre. injection Hpre as <-. cbn. unfold mbind, M_bind. by rewrite Hx.
  - cbn in *. unfold mbind, M_bind in *.
    destruct (body y s) as [s' [[]|e']]; [|discriminate Hpre].
    by apply IH.
Qed.

(** C8. In the loop over the catalog, an exception raised while a target is
    processed is the outcome of the whole cell: the cell ends in the state
    in which that target's processing stopped, the targets after it are not
    processed, and the failed target is not tried again. *)
Theorem batch_aborts_on_first_failure (w : W) l h g pre row post s1 s2 e :
  let body := stamps_body E 1 false "deepCoadd" (-0.75)%float 1.5%float in
  let s0 := mk_state w l h
              (<["vmax" := VFloat 1.5%float]>
                 (<["vmin" := VFloat (-0.75)%float]>
                    (<["datasetType" := VStr "deepCoadd"]>
                       (<["show" := VBool false]>
                          (<["frame" := VInt 1]> g))))) in
  g !! "id_ra_dec" = Some (VTable (pre ++ row :: post)) ->
  for_each body pre s0 = (s1, Ok tt) ->
  body row s1 = (s2, Err e) ->
  cell_stamps E (mk_state w l h g) = (s2, Err e).
Proof.
  intros body s0 Hg Hpre Hrow.
  rewrite <- (for_each_abort body pre row post s0 s1 s2 e Hpre Hrow).
  unfold cell_stamps, set_global, get_global, as_table, mbind, M_bind, mret, M_ret.
  cbn [world log heap globals].
  rewrite !lookup_insert_ne by done. rewrite Hg. reflexivity.
Qed.

End Fetch.

(** ** Relations kept by every run *)

Global Instance rebinds_only_preorder names : PreOrder (rebinds_only names).
Proof.
  split.
  - intros g n _. reflexivity.
  - intros g1 g2 g3 H12 H23 n Hn. by rewrite H23, H12.
Qed.

Global Instance state_rel_preorder {W} Rh Rg :
  PreOrder Rh -> PreOrder Rg -> PreOrder (@state_rel W Rh Rg).
Proof.
  intros Hh Hg. split.
  - intros s. split; reflexivity.
  - intros s1 s2 s3 [] []. split; etrans; eassumption.
Qed.

Section Preserves.
Context {W : Type} (E : Env W).
Context (Rh : relation (gmap loc obj)) (Rg : relation (gmap string value)).
Context `{!PreOrder Rh, !PreOrder Rg}.

Lemma preserves_same {A} (c : M W A) :
  (forall s, heap (c s).1 = heap s /\ globals (c s).1 = globals s) ->
  preserves (state_rel Rh Rg) c.
Proof. intros H s. destruct (H s) as [Hh Hg]. split; [by rewrite Hh|by rewrite Hg]. Qed.

Lemma preserves_ret {A} (a : A) : preserves (state_rel Rh Rg) (mret a : M W A).
Proof. by apply preserves_same. Qed.

Lemma preserves_raise {A} e : preserves (state_rel Rh Rg) (raise e : M W A).
Proof. by apply preserves_same. Qed.

Lemma preserves_lift {A} (r : result A) : preserves (state_rel Rh Rg) (lift r : M W A).
Proof. by apply preserves_same. Qed.

Lemma preserves_get_global name : preserves (state_rel Rh Rg) (get_global name : M W value).
Proof.
  apply preserves_same. intros s. unfold get_global.
  by destruct (globals s !! name).
Qed.

Lemma preserves_deref l : preserves (state_rel Rh Rg) (deref l : M W obj).
Proof.
  apply preserves_same. intros s. unfold deref. by destruct (heap s !! l).
Qed.

Lemma preserves_call_render ev : preserves (state_rel Rh Rg) (call_render E ev).
Proof.
  apply preserves_same. intros s. unfold call_render.
  by destruct (render E ev (world s)).
Qed.

Lemma preserves_bind {A B} (c : M W A) (k : A -> M W B) :
  preserves (state_rel Rh Rg) c -> (forall a, preserves (state_rel Rh Rg) (k a)) -> preserves (state_rel Rh Rg) (c ≫= k).
Proof.
  intros Hc Hk s. unfold mbind, M_bind.
  specialize (Hc s). destruct (c s) as [s1 [a|e]]; cbn [fst] in *; [|done].
  etrans; [exact Hc|apply Hk].
Qed.

Lemma preserves_set_global name v :
  (forall g, Rg g (<[name := v]> g)) -> preserves (state_rel Rh Rg) (set_global name v : M W unit).
Proof. intros H s. split; [reflexivity|apply H]. Qed.

Lemma preserves_alloc o :
  (forall h l, h !! l = None -> Rh h (<[l := o]> h)) ->
  preserves (state_rel Rh Rg) (alloc o : M W loc).
Proof.
  intros H s. split; [|reflexivity]. apply H.
  apply not_elem_of_dom, is_fresh.
Qed.

Lemma preserves_as_ref v : preserves (state_rel Rh Rg) (as_ref v : M W loc).
Proof. destruct v; first [apply preserves_ret | apply preserves_raise]. Qed.

Lemma preserves_as_skymap v : preserves (state_rel Rh Rg) (as_skymap v : M W SkyMap).
Proof. destruct v; first [apply preserves_ret | apply preserves_raise]. Qed.

Lemma preserves_as_str v : preserves (state_rel Rh Rg) (as_str v : M W string).
Proof. destruct v; first [apply preserves_ret | apply preserves_raise]. Qed.

Lemma preserves_as_float v : preserves (state_rel Rh Rg) (as_float v : M W float).
Proof. destruct v; first [apply preserves_ret | apply preserves_raise]. Qed.

Lemma preserves_as_int v : preserves (state_rel Rh Rg) (as_int v : M W Z).
Proof. destruct v; first [apply preserves_ret | apply preserves_raise]. Qed.

Lemma preserves_as_butler v : preserves (state_rel Rh Rg) (as_butler v : M W Butler).
Proof. destruct v; first [apply preserves_ret | apply preserves_raise]. Qed.

Lemma preserves_as_table v : preserves (state_rel Rh Rg) (as_table v : M W (list (Z * float * float))).
Proof. destruct v; first [apply preserves_ret | apply preserves_raise]. Qed.

Lemma preserves_get_exposure l : preserves (state_rel Rh Rg) (get_exposure l : M W exposure).
Proof.
  unfold get_exposure. apply preserves_bind; [apply preserves_deref|].
  intros []; first [apply preserves_ret | apply preserves_raise].
Qed.

Lemma preserves_image_array l : preserves (state_rel Rh Rg) (image_array l : M W array2).
Proof.
  unfold image_array. apply preserves_bind; [apply preserves_deref|].
  intros []; first [apply preserves_ret | apply preserves_raise].
Qed.

Lemma preserves_exposure_image_array l :
  preserves (state_rel Rh Rg) (exposure_image_array l : M W array2).
Proof.
  unfold exposure_image_array.
  apply preserves_bind; [apply preserves_get_exposure|].
  intros ?. apply preserves_image_array.
Qed.

Lemma preserves_global_exposure_array name :
  preserves (state_rel Rh Rg) (global_exposure_array name : M W array2).
Proof.
  unfold global_exposure_array.
  apply preserves_bind; [apply preserves_get_global|]. intros ?.
  apply preserves_bind; [apply preserves_as_ref|]. intros ?.
  apply preserves_exposure_image_array.
Qed.

Lemma preserves_global_image_array name :
  preserves (state_rel Rh Rg) (global_image_array name : M W array2).
Proof.
  unfold global_image_array.
  apply preserves_bind; [apply preserves_get_global|]. intros ?.
  apply preserves_bind; [apply preserves_as_ref|]. intros ?.
  apply preserves_image_array.
Qed.

Lemma preserves_Butler_get butler name bbox dataId :
  (forall h l o, h !! l = None -> Rh h (<[l := o]> h)) ->
  preserves (state_rel Rh Rg) (Butler_get E butler name bbox dataId).
Proof.
  intros Hgrow. unfold Butler_get. apply preserves_bind.
  - apply preserves_same. intros s.
    by destruct (butler_get E butler name bbox dataId (world s)).
  - intros [m|d]; [apply preserves_ret|].
    repeat (apply preserves_bind; [apply preserves_alloc; intros; by apply Hgrow|intros ?]).
    apply preserves_ret.
Qed.

Lemma preserves_for_each {A} (body : A -> M W unit) (l : list A) :
  (forall x, preserves (state_rel Rh Rg) (body x)) -> preserves (state_rel Rh Rg) (for_each body l).
Proof.
  intros Hb. induction l as [|x l IH]; cbn.
  - apply preserves_ret.
  - apply preserves_bind; [apply Hb|]. intros _. exact IH.
Qed.

End Preserves.

(** A heap grows by an allocation. *)
Lemma heap_grows (h : gmap loc obj) l o : h !! l = None -> h ⊆ <[l := o]> h.
Proof. apply insert_subseteq. Qed.

Lemma rebinds_only_insert names name v (g : gmap string value) :
  name ∈ names -> rebinds_only names g (<[name := v]> g).
Proof.
  intros Hin n Hn. apply lookup_insert_ne. intros ->. by apply Hn.
Qed.

(** One step of a proof that a computation keeps a relation; that the
    relations are preorders is found by instance search. *)
Ltac preserves_step :=
  lazymatch goal with
  | |- preserves _ (mbind _ _) => apply preserves_bind; try typeclasses eauto; [|intros ?]
  | |- preserves _ (mret _) => apply preserves_ret; try typeclasses eauto
  | |- preserves _ (raise _) => apply preserves_raise; try typeclasses eauto
  | |- preserves _ (lift _) => apply preserves_lift; try typeclasses eauto
  | |- preserves _ (get_global _) => apply preserves_get_global; try typeclasses eauto
  | |- preserves _ (as_ref _) => apply preserves_as_ref; try typeclasses eauto
  | |- preserves _ (as_skymap _) => apply preserves_as_skymap; try typeclasses eauto
  | |- preserves _ (as_str _) => apply preserves_as_str; try typeclasses eauto
  | |- preserves _ (as_float _) => apply preserves_as_float; try typeclasses eauto
  | |- preserves _ (as_int _) => apply preserves_as_int; try typeclasses eauto
  | |- preserves _ (as_butler _) => apply preserves_as_butler; try typeclasses eauto
  | |- preserves _ (as_table _) => apply preserves_as_table; try typeclasses eauto
  | |- preserves _ (get_exposure _) => apply preserves_get_exposure; try typeclasses eauto
  | |- preserves _ (exposure_image_array _) => apply preserves_exposure_image_array; try typeclasses eauto
  | |- preserves _ (global_exposure_array _) => apply preserves_global_exposure_array; try typeclasses eauto
  | |- preserves _ (global_image_array _) => apply preserves_global_image_array; try typeclasses eauto
  | |- preserves _ (call_render _ _) => apply preserves_call_render; try typeclasses eauto
  | |- preserves _ (Butler_get _ _ _ _ _) =>
      apply preserves_Butler_get; try typeclasses eauto; intros; by apply heap_grows
  | |- preserves _ (set_global _ _) =>
      apply preserves_set_global; try typeclasses eauto; intros;
      first [ reflexivity
            | apply rebinds_only_insert; apply (bool_decide_unpack _);
              vm_compute; exact I ]
  | |- preserves _ (match ?x with _ => _ end) => destruct x
  | |- preserves _ (if ?b then _ else _) => destruct b
  | |- preserves _ (let '(_, _) := ?x in _) => destruct x
  end.

Section Frame.
Context {W : Type} (E : Env W).

Lemma cutout_coadd_ra_dec_preserves butler ra dec filter datasetType :
  preserves (state_rel (⊆) (=))
            (cutout_coadd_ra_dec E butler ra dec filter datasetType).
Proof.
  unfold cutout_coadd_ra_dec, cutout_coadd_spherepoint. repeat preserves_step.
Qed.

Lemma make_cutout_image_preserves butler ra dec filter vmin vmax label show
    saveplot savefits datasetType :
  preserves (state_rel (⊆) (=))
            (make_cutout_image E butler ra dec filter vmin vmax label show
                               saveplot savefits datasetType).
Proof.
  unfold make_cutout_image, save_fits_block, writeFits, exposure_skyToPixel,
    exposure_xy0.
  repeat first [ apply cutout_coadd_ra_dec_preserves | preserves_step ].
Qed.

Lemma display_cutout_image_preserves butler ra dec vmin vmax label frame display
    backend show saveplot savefits old_matplotlib datasetType :
  preserves (state_rel (⊆) (=))
            (display_cutout_image E butler ra dec vmin vmax label frame display
                                  backend show saveplot savefits old_matplotlib
                                  datasetType).
Proof.
  unfold display_cutout_image, save_fits_block, writeFits, exposure_skyToPixel.
  repeat first [ apply cutout_coadd_ra_dec_preserves | preserves_step ].
Qed.

(** X5. In every run, whatever the collaborators answer and whether the
    call ends normally or raises, [make_cutout_image] and
    [display_cutout_image] leave every global name of the notebook as it was
    and every object that existed before the call unchanged: they only add
    the objects of the Exposure they fetch. *)
Theorem display_functions_keep_notebook butler ra dec filter vmin vmax label
    show saveplot savefits frame display backend old_matplotlib datasetType
    (s : state W) :
  let s1 := (make_cutout_image E butler ra dec filter vmin vmax label show
                               saveplot savefits datasetType s).1 in
  let s2 := (display_cutout_image E butler ra dec vmin vmax label frame display
                                  backend show saveplot savefits old_matplotlib
                                  datasetType s).1 in
  (globals s1 = globals s
   /\ forall p o, heap s !! p = Some o -> heap s1 !! p = Some o)
  /\ (globals s2 = globals s
      /\ forall p o, heap s !! p = Some o -> heap s2 !! p = Some o).
Proof.
  intros s1 s2. split.
  - destruct (make_cutout_image_preserves butler ra dec filter vmin vmax label
                show saveplot savefits datasetType s) as [Hh Hg].
    split; [done|]. intros p o Hp. eapply lookup_weaken; eassumption.
  - destruct (display_cutout_image_preserves butler ra dec vmin vmax label frame
                display backend show saveplot savefits old_matplotlib
                datasetType s) as [Hh Hg].
    split; [done|]. intros p o Hp. eapply lookup_weaken; eassumption.
Qed.

End Frame.

(** ** The phases of the display functions *)

Section Phases.
Context {W : Type} (E : Env W).

Lemma returns_ret {A} (a : A) : returns a (mret a : M W A).
Proof. intros s v. cbn. by intros [= <-]. Qed.

Lemma bind_ok_inv {A B} (c : M W A) (k : A -> M W B) s :
  is_ok ((c ≫= k) s).2 = true -> exists a s1, is_ok (k a s1).2 = true.
Proof.
  unfold mbind, M_bind. destruct (c s) as [s1 [a|e]]; [|done].
  intros H. by exists a, s1.
Qed.

Lemma returns_bind {A B} (b : B) (c : M W A) (k : A -> M W B) :
  (forall x, returns b (k x)) -> returns b (c ≫= k).
Proof.
  intros Hk s v. unfold mbind, M_bind.
  destruct (c s) as [s1 [x|e]]; [apply Hk|done].
Qed.

(** What follows a computation that returns [a] is run on [a]. *)
Lemma emits_bind_returns {A B} (P : event -> Prop) (a : A) (c : M W A)
    (k : A -> M W B) :
  returns a c -> emits P c -> emits P (k a) -> emits P (c ≫= k).
Proof.
  intros Hret Hc Hk s. unfold mbind, M_bind.
  destruct (Hc s) as (n1 & Hl1 & Hp1). specialize (Hret s).
  destruct (c s) as [s1 [x|e]]; cbn [fst snd] in *.
  - rewrite (Hret x eq_refl).
    destruct (Hk s1) as (n2 & Hl2 & Hp2).
    exists (n1 ++ n2). split.
    + by rewrite Hl2, Hl1, (assoc_L (++)).
    + by apply Forall_app.
  - by exists n1.
Qed.

(** The [if savefits:] block writes at most one file, of the Exposure it
    is given, and has written it when it ends normally on a true
    [savefits]. *)
Lemma save_fits_block_log cutout_image savefits (s : state W) :
  let out := save_fits_block E cutout_image savefits s in
  exists writes,
    log out.1 = log s ++ writes
    /\ (writes = []
        \/ exists p, cutout_image = VRef p
                     /\ writes = [EvWriteFits p (fits_filename savefits)])
    /\ (truthy savefits = false -> writes = [])
    /\ (is_ok out.2 = true -> truthy savefits = true -> writes <> []).
Proof.
  unfold save_fits_block. destruct (truthy savefits) eqn:Ht.
  - unfold writeFits.
    destruct cutout_image as [| | | | | | |p| | | |];
      try (exists []; cbn; rewrite app_nil_r;
           split_and!; [done|by left|done|done]).
    unfold as_ref, get_exposure, deref, call_render, mbind, M_bind, mret, M_ret, raise.
    destruct (heap s !! p) as [[a|n r|e]|];
      try (exists []; cbn; rewrite app_nil_r;
           split_and!; [done|by left|done|done]).
    cbn. destruct (render E _ (world s)) as [w' r].
    exists [EvWriteFits p (fits_filename savefits)]. cbn.
    split_and!; [done|right; by exists p|done|done].
  - exists []. cbn. rewrite app_nil_r. split_and!; [done|by left|done|done].
Qed.

(** A display function: the fetch, the [if savefits:] block, then the
    drawing of the Exposure, which is returned. *)
Lemma display_function_phased (fetch : M W value) (draw : value -> M W value)
    (P : event -> Prop) savefits :
  emits is_read fetch ->
  (forall ci, emits P (draw ci)) ->
  (forall ci, returns ci (draw ci)) ->
  (forall ci s, is_ok (draw ci s).2 = true -> exists p, ci = VRef p) ->
  forall s,
    let out := (ci ← fetch; save_fits_block E ci savefits;; draw ci) s in
    exists new, log out.1 = log s ++ new /\ phased P savefits out.2 new.
Proof.
  intros Hfetch Hdraw Hret Hvref s. unfold mbind, M_bind.
  destruct (Hfetch s) as (reads & Hl1 & Hreads).
  destruct (fetch s) as [s1 [ci|e]]; cbn [fst snd] in *.
  - destruct (save_fits_block_log ci savefits s1) as (writes & Hl2 & Hw & Hf & Hok).
    assert (Hfw : fits_written savefits writes).
    { destruct Hw as [->|(p & _ & ->)]; [by left|right; by exists p]. }
    destruct (save_fits_block E ci savefits s1) as [s2 [[]|e]]; cbn [fst snd] in *.
    + destruct (Hdraw ci s2) as (draws & Hl3 & Hdraws).
      exists (reads ++ writes ++ draws). split.
      { by rewrite Hl3, Hl2, Hl1, <- !(assoc_L (++)). }
      exists reads, writes, draws. split_and!; try done.
      intros v Hv. pose proof (Hret ci s2 v Hv) as ->.
      destruct (Hvref ci s2) as [p ->]; [by rewrite Hv|].
      exists p. split; [done|]. intros Ht.
      destruct Hw as [->|(p' & [= <-] & ->)]; [|done].
      exfalso. by apply Hok.
    + exists (reads ++ writes ++ []). split.
      { by rewrite Hl2, Hl1, app_nil_r, <- !(assoc_L (++)). }
      exists reads, writes, []. split_and!; first [done | by constructor].
  - exists reads. split; [done|].
    exists reads, [], []. cbn. rewrite app_nil_r.
    split_and!; first [done | by left | by constructor].
Qed.

End Phases.

(** One step of a proof that a computation returns a given value. *)
Ltac returns_step :=
  lazymatch goal with
  | |- returns _ (mbind _ _) => apply returns_bind; intros ?
  | |- returns _ (mret _) => apply returns_ret
  end.

Section DisplayLogs.
Context {W : Type} (E : Env W).

Lemma cutout_coadd_ra_dec_reads butler ra dec filter datasetType :
  emits is_read (cutout_coadd_ra_dec E butler ra dec filter datasetType).
Proof.
  unfold cutout_coadd_ra_dec. apply cutout_coadd_spherepoint_emits; done.
Qed.

Lemma make_cutout_image_phased butler ra dec filter vmin vmax label show
    saveplot savefits datasetType (s : state W) :
  let out := make_cutout_image E butler ra dec filter vmin vmax label show
                               saveplot savefits datasetType s in
  exists new, log out.1 = log s ++ new /\ phased is_plt savefits out.2 new.
Proof.
  unfold make_cutout_image.
  apply (display_function_phased E
           (cutout_coadd_ra_dec E butler ra dec filter "deepCoadd")
           (fun cutout_image => _) is_plt savefits).
  - apply cutout_coadd_ra_dec_reads.
  - intros ci.
    repeat first
      [ apply exposure_skyToPixel_emits
      | apply exposure_xy0_emits
      | emits_step ].
  - intros ci. repeat returns_step.
  - intros ci s'. destruct ci; try done. intros _. by eexists.
Qed.

Lemma display_cutout_image_phased butler ra dec vmin vmax label frame display
    backend show saveplot savefits old_matplotlib datasetType (s : state W) :
  let out := display_cutout_image E butler ra dec vmin vmax label frame display
                                  backend show saveplot savefits old_matplotlib
                                  datasetType s in
  let d := default (mk_Display frame backend) display in
  let created := match display with None => true | Some _ => false end in
  exists new, log out.1 = log s ++ new
              /\ phased (is_display_on d created) savefits out.2 new.
Proof.
  unfold display_cutout_image.
  apply (display_function_phased E
           (cutout_coadd_ra_dec E butler ra dec "r" "deepCoadd")
           (fun cutout_image => _) _ savefits).
  - apply cutout_coadd_ra_dec_reads.
  - intros ci. destruct display as [d|]; cbn [default].
    + apply emits_bind_returns with d; [apply returns_ret|apply emits_ret|].
      repeat first
        [ apply exposure_skyToPixel_emits
        | apply emits_call_render; by split
        | emits_step ].
    + apply emits_bind_returns with (mk_Display frame backend);
        [repeat returns_step|..];
        repeat first
          [ apply exposure_skyToPixel_emits
          | apply emits_call_render; by split
          | emits_step ].
  - intros ci. repeat returns_step.
  - intros ci s' Hok. apply bind_ok_inv in Hok as (d & s1 & Hok).
    destruct ci; try discriminate Hok. by eexists.
Qed.

End DisplayLogs.

Section DisplayTheorems.
Context {W : Type} (E : Env W).

(** X3. For [savefits] and [saveplot] that are None, a bool, a number or a
    string: in every run of [make_cutout_image], whatever the collaborators
    answer, the log grows by reads of the storage collaborator, then at most
    one FITS file, then calls to matplotlib only. No file is written when
    [savefits] is false; the file name is the string passed as [savefits], or
    [postage-stamp.fits] for another true value. A call that ends normally
    returns an Exposure, and when [savefits] is true that Exposure is the
    one written. *)
Theorem make_cutout_image_log_phases butler ra dec filter vmin vmax label show
    saveplot savefits datasetType (s : state W) :
  is_plain savefits = true ->
  is_plain saveplot = true ->
  let out := make_cutout_image E butler ra dec filter vmin vmax label show
                               saveplot savefits datasetType s in
  exists reads writes plots,
    log out.1 = log s ++ reads ++ writes ++ plots
    /\ Forall (fun ev => is_butler_read ev = true) reads
    /\ Forall is_plt plots
    /\ (writes = [] \/ exists p, writes = [EvWriteFits p (fits_filename savefits)])
    /\ (truthy savefits = false -> writes = [])
    /\ (forall v, out.2 = Ok v ->
          exists p, v = VRef p
                    /\ (truthy savefits = true ->
                        writes = [EvWriteFits p (fits_filename savefits)])).
Proof.
  intros _ _ out.
  destruct (make_cutout_image_phased E butler ra dec filter vmin vmax label show
              saveplot savefits datasetType s)
    as (new & Hl & reads & writes & plots & -> & Hr & Hw & Hp & Hf & Hok).
  exists reads, writes, plots. split_and!; done.
Qed.

(** X4. In every run of [display_cutout_image] the log grows by reads, then
    at most one FITS file, then calls on one display only: the display
    passed in, or a display made from [frame] and [backend] when none is
    passed, and a display is created in the latter case only. No call to
    matplotlib is made: [label], [saveplot], [show], [vmin] and [vmax] have
    no effect. *)
Theorem display_cutout_image_log_phases butler ra dec vmin vmax label frame
    display backend show saveplot savefits old_matplotlib datasetType
    (s : state W) :
  let out := display_cutout_image E butler ra dec vmin vmax label frame display
                                  backend show saveplot savefits old_matplotlib
                                  datasetType s in
  let d := default (mk_Display frame backend) display in
  exists reads writes calls,
    log out.1 = log s ++ reads ++ writes ++ calls
    /\ Forall (fun ev => is_butler_read ev = true) reads
    /\ (writes = [] \/ exists p, writes = [EvWriteFits p (fits_filename savefits)])
    /\ (truthy savefits = false -> writes = [])
    /\ (forall ev, ev ∈ calls -> exists c, ev = EvDisplay d c)
    /\ (EvDisplay d Display_new ∈ calls -> display = None)
    /\ (forall c, EvPlt c ∉ reads ++ writes ++ calls).
Proof.
  intros out d.
  destruct (display_cutout_image_phased E butler ra dec vmin vmax label frame
              display backend show saveplot savefits old_matplotlib
              datasetType s)
    as (new & Hl & reads & writes & calls & -> & Hr & Hw & Hc & Hf & Hok).
  fold d in Hc. rewrite Forall_forall in Hc.
  exists reads, writes, calls. split_and!; try done.
  - intros ev Hev. apply Hc in Hev. destruct ev; try done.
    destruct Hev as [-> _]. by eexists.
  - intros Hev. apply Hc in Hev as [_ Hnew].
    destruct display; [|done]. by specialize (Hnew eq_refl).
  - intros c. rewrite !elem_of_app. intros [Hin|[Hin|Hin]].
    + rewrite Forall_forall in Hr. by apply Hr in Hin.
    + destruct Hw as [->|[p ->]].
      * by apply elem_of_nil in Hin.
      * by apply list_elem_of_singleton in Hin.
    + by apply Hc in Hin.
Qed.

End DisplayTheorems.

(** ** The outcomes of the cutout fetch *)

Section FetchOutcomes.
Context {W : Type} (E : Env W).

Lemma wp_outcome {A} (c : M W A) (s s' : state W) (r : result A) :
  wp c (fun r0 s0 => r0 = r /\ s0 = s') s -> c s = (s', r).
Proof. unfold wp. destruct (c s) as [s0 r0]. cbn. by intros [<- <-]. Qed.

Lemma wp_Butler_get_skymap butler name bbox dataId
    (Q : result value -> state W -> Prop) w w' m l h g :
  butler_get E butler name bbox dataId w = (w', Ok (BSkyMap m)) ->
  Q (Ok (VSkyMap m))
    (mk_state w' (l ++ [EvButlerGet butler name bbox dataId]) h g) ->
  wp (Butler_get E butler name bbox dataId) Q (mk_state w l h g).
Proof.
  intros Hb HQ. eapply wp_run; [|exact HQ].
  by apply (Butler_get_skymap E butler name bbox dataId (mk_state w l h g)).
Qed.

(** The read of an Exposure makes four new objects: the three planes and
    the Exposure that refers to them. *)
Lemma wp_Butler_get_exposure butler name bbox dataId
    (Q : result value -> state W -> Prop) w w' d l h g :
  butler_get E butler name bbox dataId w = (w', Ok (BExposure d)) ->
  (forall li lm lv lx,
      h !! li = None -> h !! lm = None -> h !! lv = None -> h !! lx = None ->
      li <> lm -> li <> lv -> li <> lx -> lm <> lv -> lm <> lx -> lv <> lx ->
      Q (Ok (VRef lx))
        (mk_state w' (l ++ [EvButlerGet butler name bbox dataId])
           (<[lx := OExposure (mk_exposure li lm lv (d_wcs d) (d_xy0 d))]>
              (<[lv := OImage (d_variance d)]>
                 (<[lm := OMask (d_mask_ncols d) (d_mask d)]>
                    (<[li := OImage (d_image d)]> h))))
           g)) ->
  wp (Butler_get E butler name bbox dataId) Q (mk_state w l h g).
Proof.
  intros Hb HQ. unfold Butler_get. apply wp_bind.
  eapply wp_run; [cbn; rewrite Hb; reflexivity|]. cbv beta iota.
  repeat wp_obj. apply HQ; congruence.
Qed.

Lemma cutout_coadd_ra_dec_lookup_fails butler ra dec filter datasetType sm e
    (w w1 : W) l h g :
  butler_get E butler (datasetType +:+ "_skyMap") None None w
  = (w1, Ok (BSkyMap sm)) ->
  lookup_fails sm (mk_SpherePoint ra dec) e ->
  cutout_coadd_ra_dec E butler ra dec filter datasetType (mk_state w l h g)
  = (mk_state w1 (l ++ [EvButlerGet butler (datasetType +:+ "_skyMap") None None])
              h g, Err e).
Proof.
  intros Hb Hfail. apply wp_outcome.
  unfold cutout_coadd_ra_dec, cutout_coadd_spherepoint, as_skymap.
  apply wp_bind. eapply wp_Butler_get_skymap; [exact Hb|].
  destruct Hfail as [Ht|(t & Ht & [Hp|(pa & Hp & Hx)])].
  - repeat first [ wp_pure_step | rewrite Ht ]. by apply wp_lift.
  - repeat first [ wp_pure_step | rewrite Ht | rewrite Hp ]. by apply wp_lift.
  - repeat first [ wp_pure_step | rewrite Ht | rewrite Hp | rewrite Hx ].
    by apply wp_lift.
Qed.

(** X1. When the sky map has no tract or no patch for the target, or its
    transform fails, [make_cutout_image] and [display_cutout_image] raise
    that exception after the one read of the sky map: the bounded read is
    not attempted, no file is written and nothing is drawn; heap and global
    names are as before the call. *)
Theorem target_outside_sky_map butler ra dec filter vmin vmax label show
    saveplot savefits frame display backend old_matplotlib datasetType
    sm e (w w1 : W) l h g :
  butler_get E butler "deepCoadd_skyMap" None None w = (w1, Ok (BSkyMap sm)) ->
  lookup_fails sm (mk_SpherePoint ra dec) e ->
  let s' := mk_state w1 (l ++ [EvButlerGet butler "deepCoadd_skyMap" None None])
                     h g in
  make_cutout_image E butler ra dec filter vmin vmax label show saveplot
                    savefits datasetType (mk_state w l h g)
  = (s', Err e)
  /\ display_cutout_image E butler ra dec vmin vmax label frame display backend
                          show saveplot savefits old_matplotlib datasetType
                          (mk_state w l h g)
     = (s', Err e).
Proof.
  intros Hb Hfail s'. split.
  - unfold make_cutout_image, mbind, M_bind.
    by rewrite (cutout_coadd_ra_dec_lookup_fails butler ra dec filter "deepCoadd"
                  sm e w w1 l h g Hb Hfail).
  - unfold display_cutout_image, mbind, M_bind.
    by rewrite (cutout_coadd_ra_dec_lookup_fails butler ra dec "r" "deepCoadd"
                  sm e w w1 l h g Hb Hfail).
Qed.

(** X2. When both reads and the lookups succeed, [cutout_coadd_ra_dec]
    returns a new Exposure: its three planes are new objects that hold the
    data handed over for the 51×51 box centred on the target, every object
    of the notebook is as before, no name is bound, and the log has grown by
    exactly the read of the sky map and the bounded read. *)
Theorem cutout_fetch_makes_new_exposure butler ra dec filter datasetType
    sm tractInfo patchInfo p xy d (w w1 w2 : W) l h g :
  let radec := mk_SpherePoint ra dec in
  let bbox := mk_BoxI (mk_PointI (pi_x xy - 25) (pi_y xy - 25))
                      (mk_ExtentI 51 51) in
  let coaddId :=
    mk_DataId (tract_getId tractInfo)
              (pretty (patch_getIndex patchInfo).1 +:+ "," +:+
               pretty (patch_getIndex patchInfo).2) filter in
  butler_get E butler (datasetType +:+ "_skyMap") None None w
  = (w1, Ok (BSkyMap sm)) ->
  findTract sm radec = Ok tractInfo ->
  tract_findPatch tractInfo radec = Ok patchInfo ->
  skyToPixel (tract_getWcs tractInfo) radec = Ok p ->
  PointI_of_Point2D E p = Ok xy ->
  butler_get E butler (datasetType +:+ "_sub") (Some bbox) (Some coaddId) w1
  = (w2, Ok (BExposure d)) ->
  let out := cutout_coadd_ra_dec E butler ra dec filter datasetType
                                 (mk_state w l h g) in
  exists lx,
    out.2 = Ok (VRef lx)
    /\ world out.1 = w2
    /\ log out.1
       = l ++ [EvButlerGet butler (datasetType +:+ "_skyMap") None None;
               EvButlerGet butler (datasetType +:+ "_sub") (Some bbox)
                           (Some coaddId)]
    /\ globals out.1 = g
    /\ new_exposure h d lx (heap out.1).
Proof.
  intros radec bbox coaddId Hb Ht Hp Hs Hx Hsub out. subst out.
  apply (wp_elim (cutout_coadd_ra_dec E butler ra dec filter datasetType)
           (fun r s' =>
              exists lx,
                r = Ok (VRef lx)
                /\ world s' = w2
                /\ log s'
                   = l ++ [EvButlerGet butler (datasetType +:+ "_skyMap") None None;
                           EvButlerGet butler (datasetType +:+ "_sub") (Some bbox)
                                       (Some coaddId)]
                /\ globals s' = g
                /\ new_exposure h d lx (heap s'))).
  unfold cutout_coadd_ra_dec, cutout_coadd_spherepoint, as_skymap.
  apply wp_bind. eapply wp_Butler_get_skymap; [exact Hb|].
  fold radec.
  repeat first [ wp_pure_step | rewrite Ht | rewrite Hp | rewrite Hs | rewrite Hx ].
  eapply wp_Butler_get_exposure; [exact Hsub|].
  intros li lm lv lx Hli Hlm Hlv Hlx ? ? ? ? ? ?.
  apply wp_ret. exists lx.
  cbn [world log heap globals].
  split_and!; try done.
  - by rewrite <- (assoc_L (++)).
  - split; [|exists (mk_exposure li lm lv (d_wcs d) (d_xy0 d))].
    + intros q o Hq. rewrite !lookup_insert_ne by congruence. done.
    + cbn [e_image e_mask e_variance e_wcs e_xy0].
      split_and!; try done; map_lookup.
Qed.

End FetchOutcomes.

(** ** The batch of postage stamps *)

Lemma string_app_length (s t : string) :
  String.length (s +:+ t) = (String.length s + String.length t)%nat.
Proof.
  induction s as [|c s IH]; [done|].
  change (String c s +:+ t) with (String c (s +:+ t)). cbn. by rewrite IH.
Qed.

Lemma string_app_inj_r (s1 s2 t : string) : s1 +:+ t = s2 +:+ t -> s1 = s2.
Proof.
  intros H.
  assert (Hlen : String.length s1 = String.length s2).
  { apply (f_equal String.length) in H. rewrite !string_app_length in H. lia. }
  revert s2 H Hlen. induction s1 as [|c s1 IH]; intros [|c2 s2] H Hlen;
    try done.
  change (String c s1 +:+ t = String c2 s2 +:+ t)
    with (String c (s1 +:+ t) = String c2 (s2 +:+ t)) in H.
  cbn in Hlen. injection H as -> H. f_equal. apply IH; [done|lia].
Qed.

(** Two targets of one batch share a file name only if they share the id. *)
Lemma stamp_basename_inj datasetType filter (id1 id2 : Z) (ext : string) :
  stamp_basename datasetType id1 filter +:+ ext
  = stamp_basename datasetType id2 filter +:+ ext ->
  id1 = id2.
Proof.
  unfold stamp_basename. intros H.
  apply string_app_inj_r in H.
  apply (inj (String.app "Stamps/")) in H.
  apply (inj (String.app datasetType)) in H.
  apply (inj (String.app "_")) in H.
  apply (string_app_inj_r _ _ ("_" +:+ filter)) in H.
  by apply (inj pretty) in H.
Qed.

Lemma fits_names_app l1 l2 : fits_names (l1 ++ l2) = fits_names l1 ++ fits_names l2.
Proof. apply omap_app. Qed.

Lemma fits_names_reads l : Forall is_read l -> fits_names l = [].
Proof.
  induction 1 as [|ev l Hev _ IH]; [done|].
  destruct ev; done.
Qed.

Lemma fits_names_plots l : Forall is_plt l -> fits_names l = [].
Proof.
  induction 1 as [|ev l Hev _ IH]; [done|].
  destruct ev; done.
Qed.

Section Batch.
Context {W : Type} (E : Env W).

Lemma preserves_weaken {A} (R R' : relation (state W)) (c : M W A) :
  (forall s s', R s s' -> R' s s') -> preserves R c -> preserves R' c.
Proof. intros HR Hc s. apply HR, Hc. Qed.

Lemma state_rel_same_globals names (s s' : state W) :
  state_rel (⊆) (=) s s' -> state_rel (⊆) (rebinds_only names) s s'.
Proof. intros [Hh Hg]. split; [done|]. intros n _. by rewrite Hg. Qed.

Lemma stamps_body_preserves frame show datasetType vmin vmax row :
  preserves (state_rel (⊆) (rebinds_only stamps_names))
            (stamps_body E frame show datasetType vmin vmax row).
Proof.
  unfold stamps_body. destruct row as [[objectId ra] dec].
  repeat first
    [ eapply preserves_weaken;
        [apply state_rel_same_globals|apply make_cutout_image_preserves]
    | preserves_step ].
Qed.

Lemma cell_stamps_preserves :
  preserves (state_rel (⊆) (rebinds_only stamps_names)) (cell_stamps E).
Proof.
  unfold cell_stamps.
  repeat first
    [ apply preserves_for_each; [typeclasses eauto..|];
      intros ?; apply stamps_body_preserves
    | preserves_step ].
Qed.

(** X6. In every run, the cell that loops over the catalog binds or rebinds
    only [frame], [show], [datasetType], [vmin], [vmax], [objectId], [ra],
    [dec], [basename], [saveplot] and [savefits]. The names [butler],
    [filter] and [id_ra_dec] that it reads keep their values through all
    iterations, and no object that existed before is changed or removed, so
    each iteration only adds the objects of its own cutout. *)
Theorem batch_rebinds_only_its_names (s : state W) :
  let s' := (cell_stamps E s).1 in
  (forall n, n ∉ stamps_names -> globals s' !! n = globals s !! n)
  /\ globals s' !! "butler" = globals s !! "butler"
  /\ globals s' !! "filter" = globals s !! "filter"
  /\ globals s' !! "id_ra_dec" = globals s !! "id_ra_dec"
  /\ (forall p o, heap s !! p = Some o -> heap s' !! p = Some o).
Proof.
  intros s'. destruct (cell_stamps_preserves s) as [Hh Hg].
  split_and!.
  - exact Hg.
  - apply Hg. unfold stamps_names. rewrite !elem_of_cons, elem_of_nil.
    intros H. repeat destruct H as [H|H]; done.
  - apply Hg. unfold stamps_names. rewrite !elem_of_cons, elem_of_nil.
    intros H. repeat destruct H as [H|H]; done.
  - apply Hg. unfold stamps_names. rewrite !elem_of_cons, elem_of_nil.
    intros H. repeat destruct H as [H|H]; done.
  - intros p o Hp. eapply lookup_weaken; eassumption.
Qed.

End Batch.

Section BatchFiles.
Context {W : Type} (E : Env W).

(** A name that may be bound or not. *)
Lemma wp_get_global_any name (Q : result value -> state W -> Prop) w l h g :
  (forall v, g !! name = Some v -> Q (Ok v) (mk_state w l h g)) ->
  (g !! name = None -> Q (Err NameError) (mk_state w l h g)) ->
  wp (get_global name) Q (mk_state w l h g).
Proof.
  intros Hs Hn. unfold wp, get_global. cbn.
  destruct (g !! name) as [v|]; cbn; auto.
Qed.

Lemma wp_make_cutout_image butler ra dec filter vmin vmax label show saveplot
    savefits datasetType (Q : result value -> state W -> Prop) w l h g :
  (forall r s' new, log s' = l ++ new -> phased is_plt savefits r new -> Q r s') ->
  wp (make_cutout_image E butler ra dec filter vmin vmax label show saveplot
                        savefits datasetType) Q (mk_state w l h g).
Proof.
  intros HQ.
  destruct (make_cutout_image_phased E butler ra dec filter vmin vmax label show
              saveplot savefits datasetType (mk_state w l h g))
    as (new & Hl & Hph).
  unfold wp. eapply HQ; eassumption.
Qed.

Lemma phased_fits_names savefits r new :
  phased is_plt savefits r new ->
  (fits_names new = [] \/ fits_names new = [fits_filename savefits])
  /\ (truthy savefits = true -> is_ok r = true ->
      fits_names new = [fits_filename savefits]).
Proof.
  intros (reads & writes & plots & -> & Hr & Hw & Hp & Hf & Hok).
  rewrite !fits_names_app, (fits_names_reads reads), (fits_names_plots plots)
    by done.
  rewrite app_nil_r. cbn [app]. split.
  - destruct Hw as [->|[p ->]]; [by left|by right].
  - intros Ht Hr'. destruct r as [v|e]; [|done].
    destruct (Hok v eq_refl) as (p & _ & Hw'). by rewrite Hw'.
Qed.

(** The files one target writes. *)
Lemma stamps_body_fits frame show datasetType vmin vmax row f (s : state W) :
  globals s !! "filter" = Some (VStr f) ->
  let out := stamps_body E frame show datasetType vmin vmax row s in
  exists new,
    log out.1 = log s ++ new
    /\ (fits_names new = [] \/ fits_names new = [stamp_fits datasetType f row])
    /\ (out.2 = Ok tt -> fits_names new = [stamp_fits datasetType f row]).
Proof.
  destruct s as [w l h g]. destruct row as [[objectId ra] dec].
  cbn [globals log]. intros Hf.
  apply (wp_elim (stamps_body E frame show datasetType vmin vmax (objectId, ra, dec))
           (fun r s' =>
              exists new,
                log s' = l ++ new
                /\ (fits_names new = []
                    \/ fits_names new = [stamp_fits datasetType f (objectId, ra, dec)])
                /\ (r = Ok tt ->
                    fits_names new = [stamp_fits datasetType f (objectId, ra, dec)]))).
  unfold stamps_body.
  do 3 (apply wp_bind, wp_set_global).
  apply wp_bind, wp_call_render. intros w1 [[]|e] _;
    [|exists [EvPlt (plt_figure frame)]; split_and!; [done|by left|done]].
  apply wp_bind, wp_call_render. intros w2 [[]|e] _;
    [|exists [EvPlt (plt_figure frame); EvPlt plt_clf];
      split_and!; [by rewrite <- (assoc_L (++))|by left|done]].
  apply wp_bind, wp_bind. eapply wp_get_global; [wp_lookup|].
  apply wp_ret.
  do 3 (apply wp_bind, wp_set_global).
  apply wp_bind, wp_bind, wp_get_global_any;
    [intros v _|intros _;
      exists [EvPlt (plt_figure frame); EvPlt plt_clf];
      split_and!; [by rewrite <- (assoc_L (++))|by left|done]].
  destruct v;
    try (apply wp_raise;
         exists [EvPlt (plt_figure frame); EvPlt plt_clf];
         split_and!; [by rewrite <- (assoc_L (++))|by left|done]).
  apply wp_ret, wp_bind, wp_make_cutout_image.
  intros r s' new Hl Hph.
  apply phased_fits_names in Hph as [Hany Hok].
  assert (Hpost : exists new0,
             log s' = l ++ new0
             /\ (fits_names new0 = []
                 \/ fits_names new0 = [stamp_fits datasetType f (objectId, ra, dec)])
             /\ (is_ok r = true ->
                 fits_names new0 = [stamp_fits datasetType f (objectId, ra, dec)])).
  { exists ([EvPlt (plt_figure frame); EvPlt plt_clf] ++ new). split_and!.
    - by rewrite Hl, <- !(assoc_L (++)).
    - exact Hany.
    - apply Hok. reflexivity. }
  destruct Hpost as (new0 & Hl0 & Hany0 & Hok0).
  destruct r as [v|e].
  - apply wp_ret. exists new0. split_and!; [done|done|]. intros _. by apply Hok0.
  - exists new0. split_and!; done.
Qed.

(** The files the loop writes are those of the targets, in their order. *)
Lemma for_each_stamps_fits frame show datasetType vmin vmax rows f (s : state W) :
  globals s !! "filter" = Some (VStr f) ->
  let out := for_each (stamps_body E frame show datasetType vmin vmax) rows s in
  exists new,
    log out.1 = log s ++ new
    /\ (exists k, fits_names new = take k (map (stamp_fits datasetType f) rows))
    /\ (out.2 = Ok tt -> fits_names new = map (stamp_fits datasetType f) rows).
Proof.
  revert s. induction rows as [|row rows IH]; intros s Hf.
  - exists []. cbn. rewrite app_nil_r. split_and!; [done|by exists 0%nat|done].
  - cbn [for_each]. unfold mbind, M_bind.
    destruct (stamps_body_fits frame show datasetType vmin vmax row f s Hf)
      as (new1 & Hl1 & Hany1 & Hok1).
    pose proof (stamps_body_preserves E frame show datasetType vmin vmax row s)
      as [_ Hg].
    destruct (stamps_body E frame show datasetType vmin vmax row s)
      as [s1 [[]|e]]; cbn [fst snd] in *.
    + assert (Hf1 : globals s1 !! "filter" = Some (VStr f)).
      { rewrite Hg; [done|]. apply (bool_decide_unpack _). vm_compute. exact I. }
      destruct (IH s1 Hf1) as (new2 & Hl2 & [k Hk] & Hok2).
      exists (new1 ++ new2). rewrite fits_names_app, (Hok1 eq_refl). split_and!.
      * by rewrite Hl2, Hl1, <- (assoc_L (++)).
      * exists (S k). cbn. by rewrite Hk.
      * intros Hok. cbn. by rewrite (Hok2 Hok).
    + exists new1. split_and!; [done| |done].
      destruct Hany1 as [->| ->]; [by exists 0%nat|by exists 1%nat].
Qed.

(** X8. The FITS files written by the loop over the catalog are, in every
    run, the files [Stamps/deepCoadd_<id>_<filter>.fits] of a prefix of the
    catalog rows, in catalog order and one per row; when the cell ends
    normally there is one file for every row. For an empty catalog nothing
    is written. *)
Theorem batch_files_in_catalog_order rows f (s : state W) :
  globals s !! "id_ra_dec" = Some (VTable rows) ->
  globals s !! "filter" = Some (VStr f) ->
  let out := cell_stamps E s in
  let names := map (stamp_fits "deepCoadd" f) rows in
  exists new,
    log out.1 = log s ++ new
    /\ (exists k, fits_names new = take k names)
    /\ (out.2 = Ok tt -> fits_names new = names).
Proof.
  intros Hrows Hf out names. subst out.
  destruct s as [w l h g]. cbn [globals log] in *.
  apply (wp_elim (cell_stamps E)
           (fun r s' =>
              exists new, log s' = l ++ new
                          /\ (exists k, fits_names new = take k names)
                          /\ (r = Ok tt -> fits_names new = names))).
  unfold cell_stamps.
  do 5 (apply wp_bind, wp_set_global).
  apply wp_bind, wp_bind. eapply wp_get_global; [wp_lookup|].
  apply wp_ret.
  unfold wp.
  apply (for_each_stamps_fits 1 false "deepCoadd" (-0.75)%float 1.5%float rows f
           (mk_state w l h _)).
  cbn [globals]. by rewrite !lookup_insert_ne.
Qed.

(** X7. Within one batch (one [datasetType], one [filter]) the FITS file of
    a target is named after its id alone: if the loop body, run for two
    catalog rows, writes a FITS file of the same name for both, the two rows
    have the same id. Rows with different ids never write to the same file,
    and rows that repeat an id do. *)
Theorem stamp_files_distinct frame show datasetType vmin vmax
    (row1 row2 : Z * float * float) f (s1 s2 : state W) new1 new2 p1 p2 name :
  globals s1 !! "filter" = Some (VStr f) ->
  globals s2 !! "filter" = Some (VStr f) ->
  log (stamps_body E frame show datasetType vmin vmax row1 s1).1 = log s1 ++ new1 ->
  log (stamps_body E frame show datasetType vmin vmax row2 s2).1 = log s2 ++ new2 ->
  EvWriteFits p1 name ∈ new1 ->
  EvWriteFits p2 name ∈ new2 ->
  row1.1.1 = row2.1.1.
Proof.
  intros Hf1 Hf2 Hl1 Hl2 Hin1 Hin2.
  assert (Hname : forall row (s : state W) new p,
             globals s !! "filter" = Some (VStr f) ->
             log (stamps_body E frame show datasetType vmin vmax row s).1
             = log s ++ new ->
             EvWriteFits p name ∈ new ->
             name = stamp_fits datasetType f row).
  { intros row s new p Hf Hl Hin.
    destruct (stamps_body_fits frame show datasetType vmin vmax row f s Hf)
      as (new' & Hl' & Hany & _).
    rewrite Hl in Hl'. apply (inj (app (log s))) in Hl'. subst new'.
    assert (Hn : name ∈ fits_names new).
    { unfold fits_names. rewrite list_elem_of_omap.
      by exists (EvWriteFits p name). }
    destruct Hany as [Hany|Hany]; rewrite Hany in Hn.
    - by apply elem_of_nil in Hn.
    - by apply list_elem_of_singleton in Hn. }
  pose proof (Hname row1 s1 new1 p1 Hf1 Hl1 Hin1) as H1.
  pose proof (Hname row2 s2 new2 p2 Hf2 Hl2 Hin2) as H2.
  rewrite H1 in H2. unfold stamp_fits in H2.
  by apply stamp_basename_inj in H2.
Qed.

End BatchFiles.

(** ** The residual cells on inputs they do not expect *)

(** The crop [l[offset//2 : -offset//2]] of a sequence of length [p], for an
    offset [p - m] that is not positive: it is empty as long as [m <= 2p]. *)
Lemma crop_not_larger_empty (p m : nat) :
  (p <= m <= 2 * p)%nat ->
  let offset := Z.of_nat p - Z.of_nat m in
  py_slice_len (crop_start offset) (crop_stop offset) p = 0%nat.
Proof.
  intros Hpm offset. unfold py_slice_len, py_adjust, crop_start, crop_stop.
  destruct (half_floor_ceil offset) as [Hsum Hneg].
  pose proof (Z.div_mod offset 2). pose proof (Z.mod_pos_bound offset 2).
  case_cmp; lia.
Qed.

(** For a positive offset the crop has [p - offset] elements, none when the
    offset exceeds the length. *)
Lemma crop_positive_length (p : nat) (offset : Z) :
  0 < offset ->
  py_slice_len (crop_start offset) (crop_stop offset) p
  = Z.to_nat (Z.of_nat p - offset).
Proof.
  intros Hpos. unfold py_slice_len, py_adjust, crop_start, crop_stop.
  destruct (half_floor_ceil offset) as [Hsum Hneg].
  destruct (half_bounds offset Hpos) as [Hlo Hhi].
  case_cmp; lia.
Qed.

Lemma centered_arange_length (n : Z) :
  length (a1_data (centered_arange n)) = Z.to_nat n.
Proof. unfold centered_arange. cbn [a1_data]. by rewrite length_map, length_seqZ. Qed.

Lemma bcast_dim_none (m p : nat) :
  m <> p -> m <> 1%nat -> p <> 1%nat -> bcast_dim m p = None.
Proof. intros. unfold bcast_dim. by rewrite !decide_False. Qed.

Lemma row_at_no_rows (a : array2) (i : Z) :
  a2_nrows a = 0%nat -> row_at a i = Err IndexError.
Proof.
  intros H0. unfold row_at, py_index. rewrite H0.
  case_cmp; try done; cbn; lia.
Qed.

Section ResidualEdges.
Context {W : Type} (E : Env W).

(** X9. When the PSF image has no more rows than the cutout (and the cutout
    has at least two rows and at most twice the rows of the PSF image), or
    the same holds for the columns, the crop of the PSF image is empty in
    that axis and the subtraction cell raises ValueError; it binds nothing,
    so the state is the one before the cell. *)
Theorem subtract_needs_larger_psf (w : W) l h g lc e a lk k sc ox oy :
  stamp_inputs (mk_state w l h g) lc e a lk k ->
  g !! "scaling" = Some (VFloat sc) ->
  g !! "offset_nx" = Some (VInt ox) ->
  g !! "offset_ny" = Some (VInt oy) ->
  (ox = Z.of_nat (a2_nrows k) - Z.of_nat (a2_nrows a)
   /\ (a2_nrows k <= a2_nrows a <= 2 * a2_nrows k)%nat
   /\ (2 <= a2_nrows a)%nat)
  \/ (oy = Z.of_nat (a2_ncols k) - Z.of_nat (a2_ncols a)
      /\ (a2_ncols k <= a2_ncols a <= 2 * a2_ncols k)%nat
      /\ (2 <= a2_ncols a)%nat) ->
  cell_subtract (mk_state w l h g) = (mk_state w l h g, Err ValueError).
Proof.
  intros [Hc He Hi Hm Hv Hk Hki] Hs Hx Hy Hsmall. cbn [globals heap] in *.
  apply wp_outcome. unfold cell_subtract. repeat wp_obj.
  assert (Hsub : np_sub2 a (scalar_mul2 sc (crop_kernel k ox oy)) = Err ValueError).
  { unfold np_sub2, scalar_mul2, crop_kernel, slice2, a2_nrows.
    cbn [a2_rows a2_ncols a2_dtype].
    rewrite !length_map, py_slice_length.
    destruct Hsmall as [(-> & Hr & H2)|(-> & Hr & H2)].
    - fold (a2_nrows k). fold (a2_nrows a).
      rewrite crop_not_larger_empty by done.
      rewrite bcast_dim_none by lia. done.
    - rewrite (crop_not_larger_empty (a2_ncols k)) by done.
      rewrite (bcast_dim_none (a2_ncols a)) by lia.
      by destruct (bcast_dim _ _). }
  rewrite Hsub. done.
Qed.

(** X11. When the cutout or the PSF image has no rows, the scaling cell
    raises IndexError at the central slice: only the figure has been
    selected, no image is touched, and [scaling] is not bound by the
    cell. *)
Theorem scaling_of_empty_image (w : W) l h g lc e a lk k :
  stamp_inputs (mk_state w l h g) lc e a lk k ->
  (render E (EvPlt (plt_figure 3)) w).2 = Ok tt ->
  a2_nrows a = 0%nat \/ a2_nrows k = 0%nat ->
  let out := cell_scaling E (mk_state w l h g) in
  out.2 = Err IndexError
  /\ log out.1 = l ++ [EvPlt (plt_figure 3)]
  /\ heap out.1 = h
  /\ globals out.1 !! "scaling" = g !! "scaling".
Proof.
  intros [Hc He Hi Hm Hv Hk Hki] Hfig Hempty out. subst out.
  cbn [globals heap] in *.
  apply (wp_elim (cell_scaling E)
           (fun r s' => r = Err IndexError
                        /\ log s' = l ++ [EvPlt (plt_figure 3)]
                        /\ heap s' = h
                        /\ globals s' !! "scaling" = g !! "scaling")).
  unfold cell_scaling.
  repeat wp_step.
  apply wp_call_render. intros w1 r1 Hr1.
  rewrite Hr1 in Hfig. cbn [snd] in Hfig. subst r1.
  repeat wp_step.
  destruct (decide (a2_nrows a = 0%nat)) as [Ha|Ha].
  - rewrite (row_at_no_rows a) by done. apply wp_lift.
    split_and!; [done..|]. cbn [globals]. by rewrite !lookup_insert_ne.
  - destruct Hempty as [?|Hk0]; [done|].
    destruct (middle_row_exists a) as [crow Hcr]; [lia|].
    repeat wp_step.
    rewrite (row_at_no_rows k) by done. apply wp_lift.
    split_and!; [done..|]. cbn [globals]. by rewrite !lookup_insert_ne.
Qed.

(** X10. matplotlib refuses a curve whose [x] and [y] differ in length. The
    scaling cell plots the central row of the cutout, which has as many
    values as the cutout has columns, against as many abscissae as the
    cutout has rows, and likewise for the PSF image. So when the row offset
    and the column offset of the two images differ, one of the first two
    curves is refused: in every run the cell ends with an exception after at
    most the figure and two curves, [offset_nx] and [offset_ny] are not
    bound by it, and no image is touched; the exception is ValueError when
    the other calls are accepted and both images have rows. The cell works
    only for images whose sizes differ by the same amount in both axes. *)
Theorem scaling_stops_on_unequal_offsets (w : W) l h g lc e a lk k :
  refuses_mismatch E ->
  stamp_inputs (mk_state w l h g) lc e a lk k ->
  a2_wf a -> a2_wf k ->
  Z.of_nat (a2_nrows k) - Z.of_nat (a2_nrows a)
  <> Z.of_nat (a2_ncols k) - Z.of_nat (a2_ncols a) ->
  let out := cell_scaling E (mk_state w l h g) in
  (exists e', out.2 = Err e')
  /\ globals out.1 !! "offset_nx" = g !! "offset_nx"
  /\ globals out.1 !! "offset_ny" = g !! "offset_ny"
  /\ heap out.1 = h
  /\ (exists new, log out.1 = l ++ new /\ (length new <= 3)%nat)
  /\ (accepts_fitting E -> (0 < a2_nrows a)%nat -> (0 < a2_nrows k)%nat ->
      out.2 = Err ValueError).
Proof.
  intros Hmpl [Hc He Hi Hm Hv Hk Hki] Hwa Hwk Hne out. subst out.
  cbn [globals heap] in *.
  apply (wp_elim (cell_scaling E)
           (fun r s' =>
              (exists e', r = Err e')
              /\ globals s' !! "offset_nx" = g !! "offset_nx"
              /\ globals s' !! "offset_ny" = g !! "offset_ny"
              /\ heap s' = h
              /\ (exists new, log s' = l ++ new /\ (length new <= 3)%nat)
              /\ (accepts_fitting E -> (0 < a2_nrows a)%nat ->
                  (0 < a2_nrows k)%nat -> r = Err ValueError))).
  unfold cell_scaling.
  repeat wp_step.
  apply wp_call_render. intros w1 [[]|e1] Hr1; cbn [globals heap log].
  2:{ split_and!; [by eexists|by rewrite ?lookup_insert_ne..|done
                  |exists [EvPlt (plt_figure 3)]; split; [done|cbn; lia]|].
      intros Hacc _ _. specialize (Hacc (EvPlt (plt_figure 3)) w eq_refl).
      rewrite Hr1 in Hacc. discriminate Hacc. }
  repeat wp_step.
  destruct (decide (a2_nrows a = 0%nat)) as [Ha0|Ha0].
  { rewrite (row_at_no_rows a) by done. apply wp_lift. cbn [globals heap log].
    split_and!; [by eexists|by rewrite ?lookup_insert_ne..|done
                |exists [EvPlt (plt_figure 3)]; split; [done|cbn; lia]|].
    intros _ ? _. lia. }
  destruct (middle_row_exists a) as [crow Hcr]; [lia|].
  repeat wp_step.
  destruct (decide (a2_nrows k = 0%nat)) as [Hk0|Hk0].
  { rewrite (row_at_no_rows k) by done. apply wp_lift. cbn [globals heap log].
    split_and!; [by eexists|by rewrite ?lookup_insert_ne..|done
                |exists [EvPlt (plt_figure 3)]; split; [done|cbn; lia]|].
    intros _ _ ?. lia. }
  destruct (middle_row_exists k) as [krow Hkr]; [lia|].
  pose proof (middle_row_length a crow Hwa Hcr) as Hlc.
  pose proof (middle_row_length k krow Hwk Hkr) as Hlk.
  repeat wp_step.
  cbn [a1_dtype a1_data].
  set (scaling := PrimFloat.div (np_sum E (a2_dtype a) crow)
                                (np_sum E (a2_dtype k) krow)).
  set (step1 := EvPlt (plt_step (centered_arange (Z.of_nat (a2_nrows a)))
                                (mk_array1 (a2_dtype a) crow)
                                "Postage Stamp slice")).
  assert (Hfit1 : step_fits step1 = bool_decide (a2_nrows a = a2_ncols a)).
  { subst step1. cbn [step_fits a1_data]. rewrite centered_arange_length, Hlc.
    rewrite Nat2Z.id. case_bool_decide as Hd.
    - by apply Nat.eqb_eq. 
    - by apply Nat.eqb_neq. }
  apply wp_call_render. intros w2 r2 Hr2. cbn [globals heap log].
  destruct r2 as [[]|e2].
  2:{ split_and!; [by eexists|by rewrite ?lookup_insert_ne..|done
                  |exists [EvPlt (plt_figure 3); step1];
                   split; [by rewrite <- (assoc_L (++))|cbn; lia]|].
      intros Hacc _ _. destruct (step_fits step1) eqn:Hs1.
      - specialize (Hacc step1 w1 Hs1). rewrite Hr2 in Hacc. discriminate Hacc.
      - specialize (Hmpl step1 w1 Hs1). rewrite Hr2 in Hmpl. cbn in Hmpl.
        by rewrite Hmpl. }
  assert (Hsq : a2_nrows a = a2_ncols a).
  { destruct (step_fits step1) eqn:Hs1.
    - symmetry in Hfit1. by apply bool_decide_eq_true in Hfit1.
    - specialize (Hmpl step1 w1 Hs1). rewrite Hr2 in Hmpl. discriminate Hmpl. }
  set (step2 := EvPlt (plt_step (centered_arange (Z.of_nat (a2_nrows k)))
                                (scalar_mul1 scaling (mk_array1 (a2_dtype k) krow))
                                ("PSF scaled by " +:+ format_2f E scaling))).
  assert (Hfit2 : step_fits step2 = false).
  { subst step2. cbn [step_fits a1_data scalar_mul1].
    rewrite centered_arange_length, length_map, Hlk, Nat2Z.id.
    apply Nat.eqb_neq. lia. }
  wp_step. apply wp_call_render. intros w3 r3 Hr3. cbn [globals heap log].
  specialize (Hmpl step2 w2 Hfit2). rewrite Hr3 in Hmpl. cbn in Hmpl. subst r3.
  split_and!; [by eexists|by rewrite ?lookup_insert_ne..|done
              |exists [EvPlt (plt_figure 3); step1; step2];
               split; [by rewrite <- !(assoc_L (++))|cbn; lia]|done].
Qed.

End ResidualEdges.

Section ResidualOrder.
Context {W : Type} (E : Env W).

Lemma wp_get_global_unbound name (Q : result value -> state W -> Prop) w l h g :
  g !! name = None ->
  Q (Err NameError) (mk_state w l h g) ->
  wp (get_global name) Q (mk_state w l h g).
Proof. intros Hn HQ. unfold wp, get_global. cbn. by rewrite Hn. Qed.

(** X12. When the residual cell is run before [cutout_minus_psf] is bound,
    it raises NameError and nothing is displayed; [residual] is left bound
    to a new deep copy of the cutout (new planes that hold the cutout's
    image, mask and variance, the cutout's transform and origin), no other
    name is bound and every earlier object is unchanged. *)
Theorem residual_before_subtraction (w : W) l h g lc e a n rows v :
  g !! "cutout" = Some (VRef lc) ->
  h !! lc = Some (OExposure e) ->
  h !! e_image e = Some (OImage a) ->
  h !! e_mask e = Some (OMask n rows) ->
  h !! e_variance e = Some (OImage v) ->
  g !! "cutout_minus_psf" = None ->
  let out := cell_residual E (mk_state w l h g) in
  out.2 = Err NameError
  /\ world out.1 = w
  /\ log out.1 = l
  /\ exists lr,
       globals out.1 = <["residual" := VRef lr]> g
       /\ new_exposure h (mk_exposure_data a n rows v (e_wcs e) (e_xy0 e)) lr
                       (heap out.1).
Proof.
  intros Hc He Hi Hm Hv Hr out. subst out.
  apply (wp_elim (cell_residual E)
           (fun r s' =>
              r = Err NameError
              /\ world s' = w
              /\ log s' = l
              /\ exists lr,
                   globals s' = <["residual" := VRef lr]> g
                   /\ new_exposure h
                        (mk_exposure_data a n rows v (e_wcs e) (e_xy0 e)) lr
                        (heap s'))).
  unfold cell_residual. repeat wp_obj.
  apply wp_get_global_unbound; [by rewrite lookup_insert_ne|].
  split_and!; [done..|]. eexists. split; [reflexivity|].
  cbn [heap]. split.
  - intros q o Hq. map_lookup.
  - eexists (mk_exposure _ _ _ _ _).
    cbn [e_image e_mask e_variance e_wcs e_xy0 d_image d_mask d_mask_ncols
         d_variance d_wcs d_xy0].
    split_and!; [|apply lookup_insert_eq|..]; try done; map_lookup.
Qed.

Lemma cell_scaling_preserves :
  preserves (state_rel (=) (rebinds_only scaling_names)) (cell_scaling E).
Proof. unfold cell_scaling. repeat preserves_step. Qed.

Lemma cell_subtract_preserves :
  preserves (state_rel (=) (rebinds_only ["cutout_minus_psf"]))
            (cell_subtract : M W unit).
Proof. unfold cell_subtract. repeat preserves_step. Qed.

(** X13. In every run the scaling cell and the subtraction cell leave the
    heap as it was: no image, mask or Exposure is created, changed or
    removed. The scaling cell binds or rebinds only its ten names, and in
    particular not [cutout] and [kernel_image]; the subtraction cell only
    [cutout_minus_psf]. *)
Theorem scaling_and_subtraction_keep_images (s : state W) :
  let s1 := (cell_scaling E s).1 in
  let s2 := (cell_subtract s).1 in
  (heap s1 = heap s
   /\ (forall n, n ∉ scaling_names -> globals s1 !! n = globals s !! n)
   /\ globals s1 !! "cutout" = globals s !! "cutout"
   /\ globals s1 !! "kernel_image" = globals s !! "kernel_image")
  /\ (heap s2 = heap s
      /\ forall n, n <> "cutout_minus_psf" -> globals s2 !! n = globals s !! n).
Proof.
  intros s1 s2. split.
  - destruct (cell_scaling_preserves s) as [Hh Hg]. split_and!.
    + done.
    + exact Hg.
    + apply Hg. intros Hin. by apply (bool_decide_pack _) in Hin.
    + apply Hg. intros Hin. by apply (bool_decide_pack _) in Hin.
  - destruct (cell_subtract_preserves s) as [Hh Hg]. split; [done|].
    intros n Hn. apply Hg. by rewrite list_elem_of_singleton.
Qed.

End ResidualOrder.

(** ** The light curves *)

Section LightCurveProps.
Import LightCurves.
Context (lc_render : lc_call -> result unit).

(** One light curve: nothing is drawn, or its plot is drawn and counted,
    or the plot is drawn and the renderer raises. *)
Lemma plot_body_cases (q : table) (s : lc_state) :
  let out := plot_body lc_render q s in
  lc_pulled out.1 = lc_pulled s
  /\ ((out.1 = s
       /\ (out.2 = Ok (3 <=? n_plotted s) /\ is_long q = false
           \/ exists e, out.2 = Err e))
      \/ (is_long q = true /\ is_Some (q !! "mag")
          /\ lc_calls out.1 = lc_calls s ++ [plot_of q]
          /\ ((n_plotted out.1 = n_plotted s + 1
               /\ out.2 = Ok (3 <=? n_plotted s + 1))
              \/ (n_plotted out.1 = n_plotted s /\ exists e, out.2 = Err e)))).
Proof.
  unfold plot_body, is_long, plot_of, column, lc_lift, lc_plt, get_n_plotted,
    set_n_plotted, mbind, LM_bind, mret, LM_ret.
  destruct (q !! "mjd") as [mjd|]; cbn; [|split; [done|left; eauto]].
  destruct (20 <=? Z.of_nat (length mjd)) eqn:Hlong; cbn;
    [|split; [done|left; eauto]].
  destruct (q !! "mag") as [mag|]; cbn; [|split; [done|left; eauto]].
  destruct (lc_render (lc_plot mjd mag ".-")) as [[]|e]; cbn.
  - split; [done|]. right. split_and!; eauto.
  - split; [done|]. right. split_and!; eauto.
Qed.

(** What holds of the loop in every run that starts below three plots. *)
Lemma plot_loop_inv (iterator : list (result table)) (s : lc_state) :
  n_plotted s < 3 ->
  let out := plot_loop lc_render iterator s in
  exists plots,
    lc_calls out.1 = lc_calls s ++ plots
    /\ Forall (plots_one_of iterator) plots
    /\ n_plotted s <= n_plotted out.1 <= 3
    /\ Z.of_nat (length plots) <= 3 - n_plotted s
    /\ (lc_pulled out.1 <= lc_pulled s + length iterator)%nat
    /\ (out.2 = Ok tt ->
        Z.of_nat (length plots) = n_plotted out.1 - n_plotted s).
Proof.
  revert s. induction iterator as [|item iterator IH]; intros s Hn.
  - exists []. cbn. rewrite app_nil_r. split_and!; (done || lia).
  - cbn [plot_loop]. unfold mbind, LM_bind, lc_next.
    destruct item as [q|e]; cbn [fst snd].
    2:{ exists []. cbn. rewrite app_nil_r. split_and!; (done || lia). }
    set (s0 := mk_lc_state (n_plotted s) (lc_calls s) (S (lc_pulled s))).
    destruct (plot_body_cases q s0) as [Hp Hcases].
    assert (Hweak : forall plots,
               Forall (plots_one_of iterator) plots ->
               Forall (plots_one_of (Ok q :: iterator)) plots).
    { intros plots Hall. eapply Forall_impl; [exact Hall|].
      intros c (q' & Hin & H').
      exists q'. split; [by right|done]. }
    destruct (plot_body lc_render q s0) as [s1 r]; cbn [fst snd] in *.
    destruct Hcases as [[-> Hr]|(Hlong & Hmag & Hc & Hr)].
    + destruct Hr as [[-> _]|[e ->]].
      * destruct (Z.leb_spec 3 (n_plotted s0)) as [Hge|_];
          [cbn in Hge; lia|].
        destruct (IH s0 Hn) as (plots & Hc & Hall & Hb & Hlen & Hpull & Hok).
        exists plots. subst s0. cbn in *.
        split_and!; try done; try lia. by apply Hweak.
      * exists []. subst s0. cbn. rewrite app_nil_r.
        split_and!; (done || lia).
    + assert (Hone : plots_one_of (Ok q :: iterator) (plot_of q)).
      { exists q. split_and!; [by left|done..]. }
      subst s0.
      destruct Hr as [[Hn1 ->]|[Hn1 [e ->]]]; cbn in Hn1, Hc, Hp;
        cbn [n_plotted lc_calls lc_pulled].
      * destruct (Z.leb_spec 3 (n_plotted s + 1)) as [Hge|Hlt].
        -- exists [plot_of q]. cbn. split_and!; try done; try lia.
           by apply Forall_singleton.
        -- destruct (IH s1) as (plots & Hc' & Hall & Hb & Hlen & Hpull & Hok);
             [lia|].
           exists (plot_of q :: plots). split_and!; try (cbn [length]; lia).
           ++ by rewrite Hc', Hc, <- (assoc_L (++)).
           ++ apply Forall_cons. split; [done|by apply Hweak].
           ++ intros H. specialize (Hok H). cbn [length]. lia.
      * exists [plot_of q]. cbn. split_and!; try done; try lia.
        by apply Forall_singleton.
Qed.

End LightCurveProps.

Section LightCurveCell.
Import LightCurves.
Context (lc_render : lc_call -> result unit).

(** X14. In every run of the cell that plots three supernovae, whatever the
    iterator gives and whatever the renderer answers: at most three light
    curves are plotted, each with the format [.-] from the columns [mjd] and
    [mag] of a light curve of at least 20 epochs that the iterator gave;
    [n_plotted] ends between 0 and 3; the axis calls come after the plots,
    in the order limits, x label, y label; the iterator is read no more
    often than it has elements; and when the cell ends normally all three
    axis calls were made and [n_plotted] is the number of plots. *)
Theorem at_most_three_light_curves (iterator : list (result table))
    (s : lc_state) :
  let out := cell_plot_supernovae lc_render iterator s in
  exists plots axes,
    lc_calls out.1 = lc_calls s ++ plots ++ axes
    /\ Forall (plots_one_of iterator) plots
    /\ (length plots <= 3)%nat
    /\ 0 <= n_plotted out.1 <= 3
    /\ axes `prefix_of` axis_calls
    /\ (lc_pulled out.1 <= lc_pulled s + length iterator)%nat
    /\ (out.2 = Ok tt ->
        axes = axis_calls /\ n_plotted out.1 = Z.of_nat (length plots)).
Proof.
  intros out. subst out.
  unfold cell_plot_supernovae, mbind, LM_bind, set_n_plotted. cbn [fst snd].
  set (s0 := mk_lc_state 0 (lc_calls s) (lc_pulled s)).
  destruct (plot_loop_inv lc_render iterator s0)
    as (plots & Hc & Hall & Hb & Hlen & Hpull & Hok); [done|].
  destruct (plot_loop lc_render iterator s0) as [s1 [[]|e]]; subst s0;
    cbn [fst snd n_plotted lc_calls lc_pulled] in *.
  - specialize (Hok eq_refl). unfold lc_plt. cbn [n_plotted lc_calls lc_pulled].
    destruct (lc_render (lc_ylim 29 24)) as [[]|e1]; cbn.
    2:{ exists plots, [lc_ylim 29 24]. rewrite Hc, <- (assoc_L (++)).
        split_and!; try done; try lia.
        unfold axis_calls. repeat apply prefix_cons. apply prefix_nil. }
    destruct (lc_render (lc_xlabel "MJD")) as [[]|e2]; cbn.
    2:{ exists plots, [lc_ylim 29 24; lc_xlabel "MJD"].
        rewrite Hc, <- !(assoc_L (++)).
        split_and!; try done; try lia.
        unfold axis_calls. repeat apply prefix_cons. apply prefix_nil. }
    exists plots, axis_calls. rewrite Hc, <- !(assoc_L (++)). cbn.
    destruct (lc_render (lc_ylabel "$i$ [mag]")) as [[]|e3]; cbn;
      split_and!; try done; try lia.
    intros _. split; [done|lia].
  - exists plots, []. rewrite app_nil_r.
    split_and!; try done; try lia. apply prefix_nil.
Qed.

Hypothesis render_total : forall c, lc_render c = Ok tt.

(** One light curve, when its columns are there and the renderer answers. *)
Lemma plot_body_ok (q : table) (s : lc_state) :
  is_Some (q !! "mjd") -> is_Some (q !! "mag") ->
  plot_body lc_render q s
  = (if is_long q
     then (mk_lc_state (n_plotted s + 1) (lc_calls s ++ [plot_of q]) (lc_pulled s),
           Ok (3 <=? n_plotted s + 1))
     else (s, Ok (3 <=? n_plotted s))).
Proof.
  intros [mjd Hmjd] [mag Hmag].
  unfold plot_body, is_long, plot_of, column, lc_lift, lc_plt, get_n_plotted,
    set_n_plotted, mbind, LM_bind, mret, LM_ret.
  rewrite Hmjd. cbn. destruct (20 <=? Z.of_nat (length mjd)); cbn; [|done].
  rewrite Hmag. cbn. by rewrite render_total.
Qed.

(** The loop over tables that have their columns: it reads the tables of
    [pre] and leaves those of [post]. *)
Lemma plot_loop_ok (ts : list table) (s : lc_state) :
  Forall (fun q => is_Some (q !! "mjd") /\ is_Some (q !! "mag")) ts ->
  n_plotted s < 3 ->
  exists pre post,
    ts = pre ++ post
    /\ plot_loop lc_render (map Ok ts) s
       = (mk_lc_state (n_plotted s + Z.of_nat (length (List.filter is_long pre)))
                      (lc_calls s ++ map plot_of (List.filter is_long pre))
                      (lc_pulled s + length pre),
          Ok tt)
    /\ ((post = []
         /\ n_plotted s + Z.of_nat (length (List.filter is_long pre)) < 3)
        \/ (n_plotted s + Z.of_nat (length (List.filter is_long pre)) = 3
            /\ exists pre' q, pre = pre' ++ [q] /\ is_long q = true)).
Proof.
  intros Hcols. revert s. induction Hcols as [|q ts [Hmjd Hmag] _ IH]; intros s Hn.
  - exists [], []. cbn. rewrite app_nil_r, Z.add_0_r, Nat.add_0_r.
    split_and!; [done|by destruct s|left; split; [done|lia]].
  - cbn [map plot_loop]. unfold mbind, LM_bind, lc_next. cbn [fst snd].
    rewrite plot_body_ok by done. cbn [n_plotted lc_calls lc_pulled].
    destruct (is_long q) eqn:Hlong.
    + destruct (Z.leb_spec 3 (n_plotted s + 1)) as [Hge|Hlt].
      * exists [q], ts. cbn. rewrite Hlong. cbn.
        split_and!; [done|unfold mret, LM_ret; f_equal; f_equal; lia|].
        right. split; [lia|]. by exists [], q.
      * destruct (IH (mk_lc_state (n_plotted s + 1) (lc_calls s ++ [plot_of q])
                                  (S (lc_pulled s))))
          as (pre & post & -> & Heq & Hend); [cbn; lia|].
        cbn [n_plotted lc_calls lc_pulled] in *.
        exists (q :: pre), post. cbn. rewrite Hlong, Heq. cbn.
        split_and!; [done| |].
        -- f_equal. f_equal; [lia|by rewrite <- (assoc_L (++))|lia].
        -- destruct Hend as [[-> Hlt']|[Hthree (pre' & q' & -> & Hq')]].
           ++ left. split; [done|lia].
           ++ right. split; [lia|]. by exists (q :: pre'), q'.
    + destruct (Z.leb_spec 3 (n_plotted s)) as [Hge|_]; [lia|].
      destruct (IH (mk_lc_state (n_plotted s) (lc_calls s) (S (lc_pulled s))))
        as (pre & post & -> & Heq & Hend); [cbn; lia|].
      cbn [n_plotted lc_calls lc_pulled] in *.
      exists (q :: pre), post. cbn. rewrite Hlong, Heq.
      split_and!; [done| |].
      * f_equal. f_equal. lia.
      * destruct Hend as [[-> Hlt']|[Hthree (pre' & q' & -> & Hq')]].
        -- left. split; [done|lia].
        -- right. split; [lia|]. by exists (q :: pre'), q'.
Qed.

(** The light curves plotted are the first three long ones. *)
Lemma first_three_long (pre post : list table) :
  (post = [] /\ (length (List.filter is_long pre) < 3)%nat)
  \/ length (List.filter is_long pre) = 3%nat ->
  List.filter is_long pre = take 3 (List.filter is_long (pre ++ post)).
Proof.
  intros [[-> Hlt]|Hthree].
  - rewrite app_nil_r, take_ge; [done|lia].
  - rewrite List.filter_app, take_app_le by lia. rewrite take_ge; [done|lia].
Qed.

(** X15. When the iterator gives tables that have the columns [mjd] and
    [mag] and the renderer does not raise, the cell ends normally, the plots
    are those of the first three light curves of at least 20 epochs, in the
    order of the iterator (all of them when there are fewer than three),
    followed by the axis limits (29, 24) and the two labels, and [n_plotted]
    is their number. *)
Theorem plots_first_three_long_curves (ts : list table) (s : lc_state) :
  Forall (fun q => is_Some (q !! "mjd") /\ is_Some (q !! "mag")) ts ->
  let out := cell_plot_supernovae lc_render (map Ok ts) s in
  let shown := take 3 (List.filter is_long ts) in
  out.2 = Ok tt
  /\ n_plotted out.1 = Z.of_nat (length shown)
  /\ lc_calls out.1 = lc_calls s ++ map plot_of shown ++ axis_calls.
Proof.
  intros Hcols out shown. subst out.
  unfold cell_plot_supernovae, mbind, LM_bind, set_n_plotted. cbn [fst snd].
  destruct (plot_loop_ok ts (mk_lc_state 0 (lc_calls s) (lc_pulled s)) Hcols)
    as (pre & post & Hts & -> & Hend); [done|].
  cbn [n_plotted lc_calls lc_pulled fst snd] in *.
  assert (Hsel : List.filter is_long pre = shown).
  { subst shown ts. apply first_three_long.
    destruct Hend as [[-> ?]|[? _]]; [left; split; [done|lia]|right; lia]. }
  rewrite Hsel. unfold lc_plt. cbn [n_plotted lc_calls lc_pulled].
  rewrite !render_total. cbn.
  split_and!; [done|lia|by rewrite <- !(assoc_L (++))].
Qed.

(** X16. Under the same conditions the iterator is read lazily: the cell
    reads exactly the elements up to and including the third light curve of
    at least 20 epochs and none after it; it reads the whole iterator only
    when there are fewer than three such light curves. *)
Theorem iterator_read_lazily (ts : list table) (s : lc_state) :
  Forall (fun q => is_Some (q !! "mjd") /\ is_Some (q !! "mag")) ts ->
  let out := cell_plot_supernovae lc_render (map Ok ts) s in
  exists pre post,
    ts = pre ++ post
    /\ lc_pulled out.1 = (lc_pulled s + length pre)%nat
    /\ ((post = [] /\ (length (List.filter is_long ts) < 3)%nat)
        \/ (length (List.filter is_long pre) = 3%nat
            /\ exists pre' q, pre = pre' ++ [q] /\ is_long q = true)).
Proof.
  intros Hcols out. subst out.
  unfold cell_plot_supernovae, mbind, LM_bind, set_n_plotted. cbn [fst snd].
  destruct (plot_loop_ok ts (mk_lc_state 0 (lc_calls s) (lc_pulled s)) Hcols)
    as (pre & post & Hts & -> & Hend); [done|].
  cbn [n_plotted lc_calls lc_pulled fst snd] in *.
  exists pre, post. unfold lc_plt. cbn [n_plotted lc_calls lc_pulled].
  rewrite !render_total. cbn.
  split_and!; [done|done|].
  destruct Hend as [[-> Hlt]|[Hthree Hlast]].
  - left. split; [done|]. rewrite Hts, app_nil_r. lia.
  - right. split; [lia|done].
Qed.

(** While fewer than three light curves are plotted the loop goes on. *)
Lemma plot_loop_app (pre : list table) (iterator : list (result table))
    (s : lc_state) :
  Forall (fun q => is_Some (q !! "mjd") /\ is_Some (q !! "mag")) pre ->
  n_plotted s + Z.of_nat (length (List.filter is_long pre)) < 3 ->
  plot_loop lc_render (map Ok pre ++ iterator) s
  = plot_loop lc_render iterator
      (mk_lc_state (n_plotted s + Z.of_nat (length (List.filter is_long pre)))
                   (lc_calls s ++ map plot_of (List.filter is_long pre))
                   (lc_pulled s + length pre)).
Proof.
  intros Hcols. revert s. induction Hcols as [|q pre [Hmjd Hmag] _ IH]; intros s Hn.
  - cbn. rewrite app_nil_r, Z.add_0_r, Nat.add_0_r. by destruct s.
  - cbn [map app plot_loop]. unfold mbind, LM_bind, lc_next. cbn [fst snd].
    rewrite plot_body_ok by done. cbn [n_plotted lc_calls lc_pulled].
    cbn [List.filter length] in *.
    destruct (is_long q) eqn:Hlong; cbn [map length] in *.
    + destruct (Z.leb_spec 3 (n_plotted s + 1)) as [Hge|_]; [lia|].
      rewrite IH by (cbn; lia). cbn [n_plotted lc_calls lc_pulled].
      f_equal. f_equal; [lia|by rewrite <- (assoc_L (++))|lia].
    + destruct (Z.leb_spec 3 (n_plotted s)) as [Hge|_]; [lia|].
      rewrite IH by (cbn; lia). cbn [n_plotted lc_calls lc_pulled].
      f_equal. f_equal. lia.
Qed.

(** X17. When a read of the iterator raises, or a light curve lacks the
    column [mjd], or has at least 20 epochs and lacks the column [mag],
    before three light curves are plotted, the cell ends with that
    exception: the light curves plotted so far stay, nothing is drawn for
    the failing one, the rest of the iterator is not read, and the axis
    limits and labels are not set. *)
Theorem light_curve_loop_stops_at_failure (pre : list table)
    (item : result table) (rest : list (result table)) (e : exn)
    (s : lc_state) :
  Forall (fun q => is_Some (q !! "mjd") /\ is_Some (q !! "mag")) pre ->
  (length (List.filter is_long pre) < 3)%nat ->
  fails_with item e ->
  cell_plot_supernovae lc_render (map Ok pre ++ item :: rest) s
  = (mk_lc_state (Z.of_nat (length (List.filter is_long pre)))
                 (lc_calls s ++ map plot_of (List.filter is_long pre))
                 (S (lc_pulled s + length pre)),
     Err e).
Proof.
  intros Hcols Hlt Hfail.
  unfold cell_plot_supernovae, mbind, LM_bind, set_n_plotted. cbn [fst snd].
  rewrite plot_loop_app by (cbn; done || lia).
  cbn [n_plotted lc_calls lc_pulled plot_loop].
  unfold mbind, LM_bind, lc_next. cbn [fst snd n_plotted lc_calls lc_pulled].
  destruct Hfail as [->|(q & -> & -> & Hq)]; [done|].
  unfold plot_body, column, lc_lift, mbind, LM_bind.
  destruct Hq as [Hmjd|[Hlong Hmag]].
  - by rewrite Hmjd.
  - unfold is_long in Hlong. destruct (q !! "mjd") as [mjd|]; [|done].
    cbn. rewrite Hlong, Hmag. done.
Qed.

End LightCurveCell.

(** ** The display functions when nothing fails *)

Section DisplaySuccess.
Context {W : Type} (E : Env W).

(** The fetch, when the store answers. *)
Lemma wp_cutout_coadd_ra_dec_ok butler ra dec filter tractInfo patchInfo xy d
    (Q : result value -> state W -> Prop) (w w2 : W) l h g :
  store_answers E butler filter (mk_SpherePoint ra dec) tractInfo patchInfo xy d
                w w2 ->
  (forall li lm lv lx,
      h !! li = None -> h !! lm = None -> h !! lv = None -> h !! lx = None ->
      li <> lm -> li <> lv -> li <> lx -> lm <> lv -> lm <> lx -> lv <> lx ->
      Q (Ok (VRef lx))
        (mk_state w2 (l ++ fetch_reads butler filter tractInfo patchInfo xy)
           (<[lx := OExposure (mk_exposure li lm lv (d_wcs d) (d_xy0 d))]>
              (<[lv := OImage (d_variance d)]>
                 (<[lm := OMask (d_mask_ncols d) (d_mask d)]>
                    (<[li := OImage (d_image d)]> h))))
           g)) ->
  wp (cutout_coadd_ra_dec E butler ra dec filter "deepCoadd") Q (mk_state w l h g).
Proof.
  intros (sm & p & w1 & Hb & Ht & Hp & Hs & Hx & Hsub) HQ.
  unfold cutout_coadd_ra_dec, cutout_coadd_spherepoint, as_skymap.
  apply wp_bind. eapply wp_Butler_get_skymap; [exact Hb|].
  repeat first [ wp_pure_step | rewrite Ht | rewrite Hp | rewrite Hs | rewrite Hx ].
  eapply wp_Butler_get_exposure; [exact Hsub|].
  intros li lm lv lx ? ? ? ? ? ? ? ? ? ?. apply wp_ret.
  unfold fetch_reads. rewrite <- (assoc_L (++)). by apply HQ.
Qed.

Lemma new_exposure_built (h : gmap loc obj) d li lm lv lx :
  h !! li = None -> h !! lm = None -> h !! lv = None -> h !! lx = None ->
  li <> lm -> li <> lv -> li <> lx -> lm <> lv -> lm <> lx -> lv <> lx ->
  new_exposure h d lx
    (<[lx := OExposure (mk_exposure li lm lv (d_wcs d) (d_xy0 d))]>
       (<[lv := OImage (d_variance d)]>
          (<[lm := OMask (d_mask_ncols d) (d_mask d)]>
             (<[li := OImage (d_image d)]> h)))).
Proof.
  intros. split; [|exists (mk_exposure li lm lv (d_wcs d) (d_xy0 d))].
  - intros q o Hq. rewrite !lookup_insert_ne by congruence. done.
  - cbn [e_image e_mask e_variance e_wcs e_xy0].
    split_and!; try done; map_lookup.
Qed.

(** Calls to a renderer that does not raise. *)
Lemma wp_render_ok ev (Q : result unit -> state W -> Prop) w l h g :
  render_ok E ->
  (forall w', Q (Ok tt) (mk_state w' (l ++ [ev]) h g)) ->
  wp (call_render E ev) Q (mk_state w l h g).
Proof.
  intros Hok HQ. apply wp_call_render. intros w' r Hr.
  specialize (Hok ev w). rewrite Hr in Hok. cbn in Hok. subst r. apply HQ.
Qed.

Lemma wp_render_if (b : bool) ev (Q : result unit -> state W -> Prop) w l h g :
  render_ok E ->
  (forall w', Q (Ok tt) (mk_state w' (l ++ (if b then [ev] else [])) h g)) ->
  wp (if b then call_render E ev else mret tt) Q (mk_state w l h g).
Proof.
  intros Hok HQ. destruct b.
  - by apply wp_render_ok.
  - apply wp_ret. specialize (HQ w). by rewrite app_nil_r in HQ.
Qed.

Lemma wp_render_opt {A} (o : option A) (f : A -> event)
    (Q : result unit -> state W -> Prop) w l h g :
  render_ok E ->
  (forall w', Q (Ok tt)
                (mk_state w' (l ++ match o with Some a => [f a] | None => [] end)
                          h g)) ->
  wp (match o with Some a => call_render E (f a) | None => mret tt end) Q
     (mk_state w l h g).
Proof.
  intros Hok HQ. destruct o as [a|].
  - by apply wp_render_ok.
  - apply wp_ret. specialize (HQ w). by rewrite app_nil_r in HQ.
Qed.

Lemma wp_save_fits_block_ok lx e savefits (Q : result unit -> state W -> Prop)
    w l h g :
  render_ok E ->
  h !! lx = Some (OExposure e) ->
  (forall w', Q (Ok tt) (mk_state w' (l ++ fits_calls lx savefits) h g)) ->
  wp (save_fits_block E (VRef lx) savefits) Q (mk_state w l h g).
Proof.
  intros Hok Hlx HQ. unfold save_fits_block, writeFits, fits_calls in *.
  destruct (truthy savefits).
  - apply wp_bind, wp_ret, wp_bind. eapply wp_get_exposure; [exact Hlx|].
    by apply wp_render_ok.
  - apply wp_ret. specialize (HQ w). by rewrite app_nil_r in HQ.
Qed.

(** X18. For [savefits] and [saveplot] that are None, a bool, a number or
    a string: when the store answers both reads and no call fails,
    [make_cutout_image] returns the new Exposure that holds the data read,
    binds no name, and its log is exactly: the two reads; the FITS write of
    that Exposure when [savefits] is true; [imshow] of the Exposure's own
    image with the limits passed (those of zscale on that image when one of
    them is missing); the colorbar; the marker at the target's pixel, given
    by the Exposure's own transform, minus the Exposure's origin; the title
    when a label is passed; the PNG when [saveplot] is true; [show] when
    asked. *)
Theorem make_cutout_image_draws_fetched_image butler ra dec filter vmin vmax
    label show saveplot savefits datasetType tractInfo patchInfo xy d xyp limits
    (w w2 : W) l h g :
  let radec := mk_SpherePoint ra dec in
  is_plain savefits = true ->
  is_plain saveplot = true ->
  render_ok E ->
  store_answers E butler filter radec tractInfo patchInfo xy d w w2 ->
  skyToPixel (d_wcs d) radec = Ok xyp ->
  color_limits E vmin vmax (d_image d) = Ok limits ->
  let out := make_cutout_image E butler ra dec filter vmin vmax label show
                               saveplot savefits datasetType (mk_state w l h g) in
  exists lx,
    out.2 = Ok (VRef lx)
    /\ globals out.1 = g
    /\ new_exposure h d lx (heap out.1)
    /\ log out.1
       = l ++ fetch_reads butler filter tractInfo patchInfo xy
           ++ fits_calls lx savefits
           ++ plot_calls (d_image d) (d_xy0 d) xyp limits label show saveplot.
Proof.
  intros radec _ _ Hok Hst Hxy Hlim out. subst out radec.
  apply (wp_elim (make_cutout_image E butler ra dec filter vmin vmax label show
                                    saveplot savefits datasetType)
           (fun r s' =>
              exists lx,
                r = Ok (VRef lx)
                /\ globals s' = g
                /\ new_exposure h d lx (heap s')
                /\ log s'
                   = l ++ fetch_reads butler filter tractInfo patchInfo xy
                       ++ fits_calls lx savefits
                       ++ plot_calls (d_image d) (d_xy0 d) xyp limits label show
                                     saveplot)).
  unfold make_cutout_image. apply wp_bind.
  eapply wp_cutout_coadd_ra_dec_ok; [exact Hst|].
  intros li lm lv lx Hli Hlm Hlv Hlx ? ? ? ? ? ?.
  pose proof (new_exposure_built h d li lm lv lx Hli Hlm Hlv Hlx) as Hnew.
  unfold exposure_skyToPixel, exposure_xy0, exposure_image_array, plot_calls,
    color_limits in *.
  apply wp_bind. eapply wp_save_fits_block_ok; [done|map_lookup|]. intros w3.
  assert (Hlimits :
            forall (Q : result (float * float) -> state W -> Prop) (s : state W),
              heap s !! lx
              = Some (OExposure (mk_exposure li lm lv (d_wcs d) (d_xy0 d))) ->
              heap s !! li = Some (OImage (d_image d)) ->
              Q (Ok limits) s ->
              wp (match vmin, vmax with
                  | Some lo, Some hi => mret (lo, hi)
                  | _, _ =>
                      a ← (as_ref (VRef lx) ≫= exposure_image_array);
                      lift (zscale_get_limits E a)
                  end) Q s).
  { intros Q [w0 l0 h0 g0] Hex Him HQ. cbn [heap] in Hex, Him.
    unfold exposure_image_array.
    destruct vmin as [lo|], vmax as [hi|];
      try (injection Hlim as <-; by apply wp_ret);
      (apply wp_bind, wp_bind, wp_ret, wp_bind;
       (eapply wp_get_exposure; [exact Hex|]);
       (eapply wp_image_array; [exact Him|]);
       apply wp_lift; by rewrite Hlim). }
  repeat first
    [ apply Hlimits; [map_lookup|map_lookup|]
    | apply wp_render_if; [done|intros ?]
    | apply (wp_render_opt label (fun l => EvPlt (plt_title l))); [done|intros ?]
    | apply wp_render_ok; [done|intros ?]
    | wp_obj
    | progress cbn [e_wcs e_xy0 e_image e_mask e_variance]
    | rewrite Hxy ].
  exists lx. cbn [globals heap log].
  split_and!; [done|done|by apply Hnew|].
  rewrite <- !(assoc_L (++)). reflexivity.
Qed.

(** X19. For [savefits] that is None, a bool, a number or a string: when
    the store answers both reads and no call fails,
    [display_cutout_image] returns the new Exposure that holds the data read
    in band [r], binds no name, and its log is exactly: the two reads; the
    FITS write when [savefits] is true; the creation of a display from
    [frame] and [backend] when none was passed; then, on that display, [mtv]
    of the Exposure, the scale [asinh]/[zscale], a red dot at the target's
    pixel given by the Exposure's own transform (not shifted by the origin),
    and the colorbar. *)
Theorem display_cutout_image_shows_fetched_image butler ra dec vmin vmax label
    frame display backend show saveplot savefits old_matplotlib datasetType
    tractInfo patchInfo xy d xyp (w w2 : W) l h g :
  let radec := mk_SpherePoint ra dec in
  is_plain savefits = true ->
  render_ok E ->
  store_answers E butler "r" radec tractInfo patchInfo xy d w w2 ->
  skyToPixel (d_wcs d) radec = Ok xyp ->
  let out := display_cutout_image E butler ra dec vmin vmax label frame display
                                  backend show saveplot savefits old_matplotlib
                                  datasetType (mk_state w l h g) in
  exists lx,
    out.2 = Ok (VRef lx)
    /\ globals out.1 = g
    /\ new_exposure h d lx (heap out.1)
    /\ log out.1
       = l ++ fetch_reads butler "r" tractInfo patchInfo xy
           ++ fits_calls lx savefits
           ++ display_calls display frame backend lx xyp.
Proof.
  intros radec _ Hok Hst Hxy out. subst out radec.
  apply (wp_elim (display_cutout_image E butler ra dec vmin vmax label frame
                    display backend show saveplot savefits old_matplotlib
                    datasetType)
           (fun r s' =>
              exists lx,
                r = Ok (VRef lx)
                /\ globals s' = g
                /\ new_exposure h d lx (heap s')
                /\ log s'
                   = l ++ fetch_reads butler "r" tractInfo patchInfo xy
                       ++ fits_calls lx savefits
                       ++ display_calls display frame backend lx xyp)).
  unfold display_cutout_image. apply wp_bind.
  eapply wp_cutout_coadd_ra_dec_ok; [exact Hst|].
  intros li lm lv lx Hli Hlm Hlv Hlx ? ? ? ? ? ?.
  pose proof (new_exposure_built h d li lm lv lx Hli Hlm Hlv Hlx) as Hnew.
  unfold exposure_skyToPixel, display_calls.
  apply wp_bind. eapply wp_save_fits_block_ok; [done|map_lookup|]. intros w3.
  destruct display as [dd|]; cbn [default];
    repeat first
      [ apply wp_render_ok; [done|intros ?]
      | wp_obj
      | progress cbn [e_wcs e_xy0 e_image e_mask e_variance]
      | rewrite Hxy ];
    (exists lx; cbn [globals heap log];
     split_and!; [done|done|by apply Hnew|];
     rewrite <- !(assoc_L (++)); reflexivity).
Qed.

End DisplaySuccess.

(** * Examples *)

Lemma demo_pixels_wf dt h w x : a2_wf (Demo.pixels dt h w x).
Proof.
  unfold a2_wf, Demo.pixels. cbn [a2_rows a2_ncols].
  apply Forall_replicate. by rewrite length_replicate.
Qed.

Lemma demo_render_ok : render_ok Demo.env.
Proof. intros ev w. reflexivity. Qed.

Lemma demo_cutout_wf : a2_wf Demo.cutout_pixels.
Proof. unfold a2_wf. cbn. repeat constructor. Qed.

Lemma demo_kernel_wf : a2_wf Demo.kernel_pixels.
Proof. unfold a2_wf. cbn. repeat constructor. Qed.

Lemma demo_stamp_shapes : stamp_shapes Demo.cutout_pixels Demo.kernel_pixels.
Proof.
  split; [apply demo_cutout_wf | apply demo_kernel_wf | reflexivity..
         | cbn; lia | cbn; lia | reflexivity].
Qed.

Lemma demo_stamp_inputs :
  stamp_inputs Demo.stamp 4%positive Demo.cutout_exposure Demo.cutout_pixels
               5%positive Demo.kernel_pixels.
Proof.
  split; try (vm_compute; reflexivity); vm_compute; eauto.
Qed.

(** The crop of a 61×61 PSF image for a 51×51 cutout. *)
Lemma crop_kernel_shape_witness :
  np_shape (crop_kernel Demo.full_kernel 10 10) = (51, 51)
  /\ a2_rows (crop_kernel Demo.full_kernel 10 10)
     = map (fun r => take 51 (drop 5 r)) (take 51 (drop 5 (a2_rows Demo.full_kernel))).
Proof.
  destruct (crop_kernel_shape Demo.full_kernel 51 51) as (H1 & _ & H2 & _).
  - apply demo_pixels_wf.
  - vm_compute. lia.
  - vm_compute. lia.
  - split; [exact H1 | exact H2].
Defined.

(** A 4×4 PSF image for a 3×3 cutout, offset 1: nothing goes at the low
    side and one row and one column at the high side. *)
Example crop_odd_offset :
  crop_kernel (mk_array2 float64 4
                 [[1; 2; 3; 4]; [5; 6; 7; 8]; [9; 10; 11; 12]; [13; 14; 15; 16]]%float)
              (4 - 3) (4 - 3)
  = mk_array2 float64 3 [[1; 2; 3]; [5; 6; 7]; [9; 10; 11]]%float.
Proof. reflexivity. Qed.

(** A 6×6 PSF image for a 3×3 cutout, offset 3: one goes at the low side and
    two at the high side. *)
Example crop_offset_three :
  a2_rows (crop_kernel (mk_array2 float64 6
                          (map (fun i => map (fun j => float_of_Z (10 * i + j))
                                             (seqZ 0 6)) (seqZ 0 6)))
                       (6 - 3) (6 - 3))
  = [[11; 12; 13]; [21; 22; 23]; [31; 32; 33]]%float.
Proof. vm_compute. reflexivity. Qed.

(** Python's [l[1:-2]], [l[-3:]] clamped, and [l[0:-0]]. *)
Example py_slice_examples :
  py_slice 1 (-2) [10; 20; 30; 40; 50] = [20; 30]
  /\ py_slice (-3) 99 [10; 20; 30; 40; 50] = [30; 40; 50]
  /\ py_slice (-99) 2 [10; 20; 30; 40; 50] = [10; 20]
  /\ py_slice 0 (- 0) [10; 20; 30; 40; 50] = [].
Proof. repeat split. Qed.

(** Rounding to float32: to nearest with ties to even, overflow to an
    infinity. *)
Example is_float32_examples :
  is_float32 0.1%float = false
  /\ is_float32 (to_f32 0.1%float) = true
  /\ is_float32 16777216%float = true
  /\ is_float32 16777217%float = false
  /\ is_float32 1e39%float = false
  /\ is_float32 0x1p-149%float = true
  /\ is_float32 0x1p-150%float = false
  /\ is_float32 0x1.fffffep127%float = true
  /\ is_float32 0x1.ffffffp127%float = false.
Proof. vm_compute. repeat split. Qed.

Example to_f32_examples :
  to_f32 16777217%float = 16777216%float
  /\ to_f32 16777219%float = 16777220%float
  /\ to_f32 0.1%float = 0.100000001490116119384765625%float
  /\ to_f32 1e39%float = infinity
  /\ to_f32 (-0.5)%float = (-0.5)%float.
Proof. vm_compute. repeat split. Qed.

(** The state of the 3×3 example after the three cells. *)
Example demo_residual :
  exposure_pixels "residual" (residual_compositor Demo.env Demo.stamp).1
  = Some (mk_array2 float32 3
            [[100; -50; 100]; [200; -400; 200]; [100; -50; 100]]%float)
  /\ exposure_pixels "cutout" (residual_compositor Demo.env Demo.stamp).1
     = Some Demo.cutout_pixels
  /\ (residual_compositor Demo.env Demo.stamp).2 = Ok tt.
Proof. vm_compute. repeat split. Qed.

(** With a PSF image of the cutout's own size the crop is empty and the
    subtraction raises. *)
Example demo_equal_size_raises :
  np_sub2 Demo.cutout_pixels
          (scalar_mul2 2%float (crop_kernel Demo.small_kernel (3 - 3) (3 - 3)))
  = Err ValueError.
Proof. reflexivity. Qed.

(** A PSF image of the cutout's own size is cropped to nothing: the slice
    [0:-0] is [0:0]. *)
Lemma crop_of_equal_size_is_empty :
  ~ (forall (kernel : array2) (m n : nat),
        a2_wf kernel ->
        (m <= a2_nrows kernel)%nat ->
        (n <= a2_ncols kernel)%nat ->
        np_shape (crop_kernel kernel
                    (Z.of_nat (a2_nrows kernel) - Z.of_nat m)
                    (Z.of_nat (a2_ncols kernel) - Z.of_nat n))
        = (Z.of_nat m, Z.of_nat n)).
Proof.
  intros H. specialize (H Demo.small_kernel 3%nat 3%nat).
  assert (Hw : a2_wf Demo.small_kernel) by (unfold a2_wf; cbn; repeat constructor).
  specialize (H Hw). vm_compute in H.
  assert (Hle : (3 <= 3)%nat) by lia.
  specialize (H Hle Hle). discriminate H.
Qed.

(** A request for [calexp] is sent to the store, which does not hold it. *)
Lemma calexp_is_read_not_refused :
  let out := cutout_coadd_spherepoint Demo.env Demo.butler
               (mk_SpherePoint 100.4%float 200.5%float) "r" "calexp" VNone 51
               Demo.start in
  "calexp" <> "deepCoadd"
  /\ log out.1 = [EvButlerGet Demo.butler "calexp_skyMap" None None]
  /\ out.2 = Err NotFound
  /\ out.2 <> Err UnsupportedKind.
Proof.
  vm_compute. split_and!; [discriminate | reflexivity | reflexivity | discriminate].
Qed.

(** The box read for a target at pixel (100.4, 200.5): the center rounds to
    (100, 201) and the box starts 25 pixels before it. *)
Lemma cutout_bbox_centered_witness :
  exists bbox coaddId,
    box_min bbox = mk_PointI 75 176
    /\ box_width bbox = 51
    /\ box_height bbox = 51
    /\ log (cutout_coadd_spherepoint Demo.env Demo.butler
              (mk_SpherePoint 100.4%float 200.5%float) "r" "deepCoadd" VNone 51
              Demo.start).1
       = [EvButlerGet Demo.butler "deepCoadd_skyMap" None None;
          EvButlerGet Demo.butler "deepCoadd_sub" (Some bbox) (Some coaddId)].
Proof.
  destruct (cutout_bbox_centered Demo.env Demo.butler
              (mk_SpherePoint 100.4%float 200.5%float) "r" "deepCoadd" 51
              Demo.skymap Demo.tract Demo.patch
              (mk_Point2D 100.4%float 200.5%float) (mk_PointI 100 201))
    as (bbox & coaddId & Hmin & Hw & Hh & _ & Hlog);
    [reflexivity..|].
  exists bbox, coaddId. split_and!; [exact Hmin | exact Hw | exact Hh |].
  exact (Hlog Demo.start 1%nat eq_refl).
Defined.

(** The scale for slice sums 1000.0 and 0.01. *)
Lemma scaling_from_central_slices_witness :
  globals (cell_scaling Demo.env Demo.stamp).1 !! "scaling"
  = Some (VFloat 100000%float).
Proof.
  destruct (scaling_from_central_slices Demo.env 0%nat [] Demo.stamp_heap
              Demo.stamp_globals 4%positive Demo.cutout_exposure
              Demo.cutout_pixels 5%positive Demo.kernel_pixels
              demo_render_ok demo_stamp_inputs demo_stamp_shapes)
    as (crow & krow & s' & Hcr & Hkr & Hrun & _ & _ & _ & _ & Hsc).
  change (mk_state 0%nat [] Demo.stamp_heap Demo.stamp_globals) with Demo.stamp in Hrun.
  rewrite Hrun. cbn [fst].
  vm_compute in Hcr. injection Hcr as <-.
  vm_compute in Hkr. injection Hkr as <-.
  apply Hsc; vm_compute; reflexivity.
Defined.

(** A PSF slice of zeros: the scale is infinite. *)
Lemma scaling_division_unguarded_witness :
  globals (cell_scaling Demo.env Demo.flat_stamp).1 !! "scaling"
  = Some (VFloat infinity)
  /\ (cell_scaling Demo.env Demo.flat_stamp).2 = Ok tt.
Proof.
  assert (Hin : stamp_inputs Demo.flat_stamp 4%positive Demo.cutout_exposure
                  Demo.cutout_pixels 5%positive Demo.flat_kernel).
  { split; try (vm_compute; reflexivity); vm_compute; eauto. }
  assert (Hsh : stamp_shapes Demo.cutout_pixels Demo.flat_kernel).
  { split; [apply demo_cutout_wf | apply demo_pixels_wf | reflexivity..
           | cbn; lia | cbn; lia | reflexivity]. }
  destruct (scaling_division_unguarded Demo.env 0%nat []
              (<[5%positive := OImage Demo.flat_kernel]> Demo.stamp_heap)
              Demo.stamp_globals 4%positive Demo.cutout_exposure
              Demo.cutout_pixels 5%positive Demo.flat_kernel
              [200; 600; 200]%float [0; 0; 0; 0; 0]%float
              Hin eq_refl eq_refl eq_refl eq_refl)
    as (Hs & _ & Hok).
  split.
  - exact Hs.
  - exact (Hok demo_render_ok Hsh).
Defined.

(** The subtraction and the stored residual for the 3×3 cutout. *)
Lemma residual_is_cutout_minus_scaled_psf_witness :
  exists r stored,
    globals ((cell_subtract;; cell_residual Demo.env) Demo.scaled_stamp).1
      !! "cutout_minus_psf" = Some (VArr2 r)
    /\ pixel r 1 1 = Some (-400)%float
    /\ exposure_pixels "residual"
         ((cell_subtract;; cell_residual Demo.env) Demo.scaled_stamp).1
       = Some stored
    /\ a2_dtype stored = float32
    /\ np_shape stored = (3, 3).
Proof.
  assert (Hin : stamp_inputs Demo.scaled_stamp 4%positive Demo.cutout_exposure
                  Demo.cutout_pixels 5%positive Demo.kernel_pixels).
  { split; try (vm_compute; reflexivity); vm_compute; eauto. }
  assert (Hwc : a2_wf (crop_kernel Demo.kernel_pixels 2 2)).
  { unfold a2_wf. vm_compute. repeat constructor. }
  destruct (residual_is_cutout_minus_scaled_psf Demo.env 0%nat [] Demo.stamp_heap
              (globals Demo.scaled_stamp) 4%positive Demo.cutout_exposure
              Demo.cutout_pixels 5%positive Demo.kernel_pixels
              100000%float 2 2 Hin eq_refl eq_refl eq_refl
              demo_cutout_wf Hwc eq_refl eq_refl eq_refl)
    as (r & stored & Hr & _ & Hpix & Hst & Hdt & Hsh & _).
  exists r, stored. split_and!; [exact Hr | | exact Hst | exact Hdt | exact Hsh].
  destruct (Hpix 1%nat 1%nat) as (x & y & Hx & Hy & Hxy); [cbn; lia | cbn; lia |].
  vm_compute in Hx. injection Hx as <-.
  vm_compute in Hy. injection Hy as <-.
  exact Hxy.
Defined.

(** After the residual is built, the cutout has the pixels it had. *)
Lemma residual_keeps_cutout_witness :
  exposure_pixels "cutout" (cell_residual Demo.env Demo.subtracted_stamp).1
  = Some Demo.cutout_pixels.
Proof.
  destruct (residual_keeps_cutout Demo.env 0%nat [] Demo.stamp_heap
              (globals Demo.subtracted_stamp) 4%positive Demo.cutout_exposure
              Demo.cutout_pixels
              (OMask 3 (replicate 3 (replicate 3 0)))
              (OImage (Demo.pixels float32 3 3 1%float))
              Demo.subtracted_pixels
              eq_refl eq_refl eq_refl eq_refl eq_refl eq_refl)
    as (Hg & He & Hi & _).
  unfold exposure_pixels.
  change (mk_state 0%nat [] Demo.stamp_heap (globals Demo.subtracted_stamp))
    with Demo.subtracted_stamp in *.
  rewrite Hg, He, Hi. reflexivity.
Defined.

(** The second of three targets lies outside the sky map: the cell ends
    with its LookupError, in the state in which the second target's
    processing stopped. *)
Lemma batch_aborts_on_first_failure_witness :
  cell_stamps Demo.env demo_catalog_state = (demo_after_second, Err LookupError).
Proof.
  apply (batch_aborts_on_first_failure Demo.env 0%nat [] ∅
           (globals demo_catalog_state)
           [(1, 10.25%float, 20.5%float)] (2, (-5)%float, 20.5%float)
           [(3, 30%float, 40%float)] demo_after_first demo_after_second
           LookupError);
    vm_compute; reflexivity.
Defined.

(** In that run the store is read three times: the sky map and the
    sub-image for the first target, the sky map for the second, and nothing
    for the third. *)
Example batch_reads_stop_at_failure :
  map (fun ev => match ev with
                 | EvButlerGet _ name _ _ => name
                 | _ => EmptyString
                 end)
      (List.filter is_butler_read (log (cell_stamps Demo.env demo_catalog_state).1))
  = ["deepCoadd_skyMap"; "deepCoadd_sub"; "deepCoadd_skyMap"].
Proof. vm_compute. reflexivity. Qed.

(** Two runs on the 3×3 cutout, the second from the state the first ended
    in: the same residual. *)
Lemma residual_compositor_deterministic_witness :
  exists s1 s3 r,
    residual_compositor Demo.env Demo.stamp = (s1, Ok tt)
    /\ residual_compositor Demo.env s1 = (s3, Ok tt)
    /\ exposure_pixels "residual" s1 = Some r
    /\ exposure_pixels "residual" s3 = Some r
    /\ np_shape r = (3, 3).
Proof.
  destruct (residual_compositor_deterministic Demo.env
              0%nat [] Demo.stamp_heap Demo.stamp_globals 4%positive
              Demo.cutout_exposure 5%positive
              0%nat [] Demo.stamp_heap Demo.stamp_globals 4%positive
              Demo.cutout_exposure 5%positive
              Demo.cutout_pixels Demo.kernel_pixels
              demo_render_ok demo_stamp_shapes demo_stamp_inputs demo_stamp_inputs)
    as (s1 & s2 & s3 & r & H1 & _ & H3 & Hp1 & _ & Hp3 & _ & Hsh).
  exists s1, s3, r. split_and!; [exact H1 | exact H3 | exact Hp1 | exact Hp3 | exact Hsh].
Defined.

Lemma target_outside_sky_map_witness :
  (make_cutout_image Demo.env Demo.butler (-5)%float 20.5%float "r" None None None
                     true (VBool false) (VBool true) "deepCoadd" Demo.start).2
  = Err LookupError.
Proof.
  destruct (target_outside_sky_map Demo.env Demo.butler (-5)%float 20.5%float "r"
              None None None true (VBool false) (VBool true) None None
              "matplotlib" false "deepCoadd" Demo.skymap LookupError
              0%nat 1%nat [] ∅ (globals Demo.start)) as [H _].
  - reflexivity.
  - left. vm_compute. reflexivity.
  - change (mk_state 0%nat [] ∅ (globals Demo.start)) with Demo.start in H.
    rewrite H. reflexivity.
Defined.

Lemma make_cutout_image_log_phases_witness :
  exists reads plots,
    log (make_cutout_image Demo.env Demo.butler 10.25%float 20.5%float "r" None
                           None None true (VStr "stamp.png") (VBool false)
                           "deepCoadd" Demo.start).1
    = [] ++ reads ++ [] ++ plots
    /\ Forall is_plt plots.
Proof.
  destruct (make_cutout_image_log_phases Demo.env Demo.butler 10.25%float
              20.5%float "r" None None None true (VStr "stamp.png")
              (VBool false) "deepCoadd" Demo.start eq_refl eq_refl)
    as (reads & writes & plots & Hl & _ & Hp & _ & Hw & _).
  rewrite (Hw eq_refl) in Hl. exists reads, plots. split; [exact Hl|exact Hp].
Defined.

Lemma cutout_fetch_makes_new_exposure_witness :
  exists lx,
    (cutout_coadd_ra_dec Demo.env Demo.butler 10.25%float 20.5%float "r"
                         "deepCoadd" Demo.start).2 = Ok (VRef lx).
Proof.
  destruct (cutout_fetch_makes_new_exposure Demo.env Demo.butler 10.25%float
              20.5%float "r" "deepCoadd" Demo.skymap Demo.tract Demo.patch
              (mk_Point2D 10.25%float 20.5%float) (mk_PointI 10 21)
              (Demo.coadd (mk_BoxI (mk_PointI (-15) (-4)) (mk_ExtentI 51 51)))
              0%nat 1%nat 2%nat [] ∅ (globals Demo.start))
    as (lx & H & _); try (vm_compute; reflexivity).
  exists lx. exact H.
Defined.

Lemma stamp_files_distinct_witness :
  (1, 10.25%float, 20.5%float).1.1 = (1, 30%float, 40%float).1.1.
Proof.
  apply (stamp_files_distinct Demo.env 1 false "deepCoadd" (-0.75)%float 1.5%float
           (1, 10.25%float, 20.5%float) (1, 30%float, 40%float) "r"
           demo_loop_start demo_loop_start
           (log (demo_loop_body (1, 10.25%float, 20.5%float) demo_loop_start).1)
           (log (demo_loop_body (1, 30%float, 40%float) demo_loop_start).1)
           4%positive 4%positive "Stamps/deepCoadd_1_r.fits").
  - vm_compute. reflexivity.
  - vm_compute. reflexivity.
  - reflexivity.
  - reflexivity.
  - apply (list_elem_of_lookup_2 _ 4%nat). vm_compute. reflexivity.
  - apply (list_elem_of_lookup_2 _ 4%nat). vm_compute. reflexivity.
Defined.

Lemma batch_files_in_catalog_order_witness :
  exists new k,
    log (cell_stamps Demo.env demo_catalog_state).1 = [] ++ new
    /\ fits_names new
       = take k ["Stamps/deepCoadd_1_r.fits"; "Stamps/deepCoadd_2_r.fits";
                 "Stamps/deepCoadd_3_r.fits"].
Proof.
  destruct (batch_files_in_catalog_order Demo.env demo_catalog "r"
              demo_catalog_state) as (new & Hl & [k Hk] & _).
  - vm_compute. reflexivity.
  - vm_compute. reflexivity.
  - exists new, k. split; [exact Hl|exact Hk].
Defined.

Lemma demo_small_kernel_wf : a2_wf Demo.small_kernel.
Proof. unfold a2_wf. cbn. repeat constructor. Qed.

Lemma subtract_needs_larger_psf_witness :
  cell_subtract demo_equal_stamp = (demo_equal_stamp, Err ValueError).
Proof.
  apply (subtract_needs_larger_psf 0%nat [] (heap demo_equal_stamp)
           (globals demo_equal_stamp) 4%positive Demo.cutout_exposure
           Demo.cutout_pixels 5%positive Demo.small_kernel 2%float 0 0).
  - split; try (vm_compute; reflexivity); vm_compute; eauto.
  - vm_compute. reflexivity.
  - vm_compute. reflexivity.
  - vm_compute. reflexivity.
  - left. vm_compute. split_and!; [reflexivity|lia..].
Defined.

Lemma demo_mpl_refuses : refuses_mismatch demo_mpl_env.
Proof. intros ev w Hev. cbn. by rewrite Hev. Qed.

Lemma demo_mpl_accepts : accepts_fitting demo_mpl_env.
Proof. intros ev w Hev. cbn. by rewrite Hev. Qed.

Lemma scaling_stops_on_unequal_offsets_witness :
  (cell_scaling demo_mpl_env demo_wide_stamp).2 = Err ValueError
  /\ globals (cell_scaling demo_mpl_env demo_wide_stamp).1 !! "offset_nx" = None.
Proof.
  destruct (scaling_stops_on_unequal_offsets demo_mpl_env 0%nat []
              (heap demo_wide_stamp) (globals demo_wide_stamp) 4%positive
              Demo.cutout_exposure Demo.cutout_pixels 5%positive demo_wide_kernel)
    as (_ & H1 & _ & _ & _ & H2).
  - apply demo_mpl_refuses.
  - split; try (vm_compute; reflexivity); vm_compute; eauto.
  - apply demo_cutout_wf.
  - apply demo_pixels_wf.
  - vm_compute. discriminate.
  - split.
    + apply H2; [apply demo_mpl_accepts|vm_compute; lia..].
    + exact H1.
Defined.

Lemma scaling_of_empty_image_witness :
  (cell_scaling Demo.env demo_empty_stamp).2 = Err IndexError.
Proof.
  destruct (scaling_of_empty_image Demo.env 0%nat [] (heap demo_empty_stamp)
              (globals demo_empty_stamp) 4%positive Demo.cutout_exposure
              (mk_array2 float32 3 []) 5%positive Demo.kernel_pixels)
    as [H _].
  - split; try (vm_compute; reflexivity); vm_compute; eauto.
  - reflexivity.
  - left. reflexivity.
  - exact H.
Defined.

Lemma residual_before_subtraction_witness :
  (cell_residual Demo.env Demo.stamp).2 = Err NameError
  /\ log (cell_residual Demo.env Demo.stamp).1 = [].
Proof.
  destruct (residual_before_subtraction Demo.env 0%nat [] Demo.stamp_heap
              Demo.stamp_globals 4%positive Demo.cutout_exposure
              Demo.cutout_pixels 3%nat (replicate 3 (replicate 3 0))
              (Demo.pixels float32 3 3 1%float))
    as (H1 & _ & H2 & _); try (vm_compute; reflexivity).
  split; [exact H1|exact H2].
Defined.

Lemma demo_curves_columns :
  Forall (fun q : LightCurves.table => is_Some (q !! "mjd") /\ is_Some (q !! "mag"))
         demo_curves.
Proof. repeat constructor; vm_compute; eauto. Qed.

Lemma plots_first_three_long_curves_witness :
  LightCurves.lc_calls
    (LightCurves.cell_plot_supernovae (fun _ => Ok tt) (map Ok demo_curves)
                                      demo_lc_start).1
  = map LightCurves.plot_of
        [demo_curve 25 24.5%float; demo_curve 25 26%float; demo_curve 30 27%float]
    ++ LightCurves.axis_calls.
Proof.
  destruct (plots_first_three_long_curves (fun _ => Ok tt) (fun _ => eq_refl)
              demo_curves demo_lc_start demo_curves_columns) as (_ & _ & H).
  exact H.
Defined.

Lemma iterator_read_lazily_witness :
  exists pre post,
    demo_curves = pre ++ post
    /\ LightCurves.lc_pulled
         (LightCurves.cell_plot_supernovae (fun _ => Ok tt) (map Ok demo_curves)
                                           demo_lc_start).1
       = (0 + length pre)%nat.
Proof.
  destruct (iterator_read_lazily (fun _ => Ok tt) (fun _ => eq_refl)
              demo_curves demo_lc_start demo_curves_columns)
    as (pre & post & H1 & H2 & _).
  exists pre, post. split; [exact H1|exact H2].
Defined.

Lemma light_curve_loop_stops_at_failure_witness :
  LightCurves.cell_plot_supernovae (fun _ => Ok tt)
    (map Ok [demo_curve 25 24.5%float; demo_curve 5 25%float]
     ++ Ok demo_curve_no_mag :: [Ok (demo_curve 30 27%float)])
    demo_lc_start
  = (LightCurves.mk_lc_state 1 [LightCurves.plot_of (demo_curve 25 24.5%float)] 3,
     Err KeyError).
Proof.
  apply (light_curve_loop_stops_at_failure (fun _ => Ok tt) (fun _ => eq_refl)
           [demo_curve 25 24.5%float; demo_curve 5 25%float]
           (Ok demo_curve_no_mag) [Ok (demo_curve 30 27%float)] KeyError
           demo_lc_start).
  - repeat constructor; vm_compute; eauto.
  - vm_compute. lia.
  - right. exists demo_curve_no_mag. split_and!; [reflexivity..|].
    right. split; vm_compute; reflexivity.
Defined.

Lemma demo_store_answers :
  store_answers Demo.env Demo.butler "r" (mk_SpherePoint 10.25%float 20.5%float)
    Demo.tract Demo.patch (mk_PointI 10 21)
    (Demo.coadd (mk_BoxI (mk_PointI (-15) (-4)) (mk_ExtentI 51 51))) 0%nat 2%nat.
Proof.
  exists Demo.skymap, (mk_Point2D 10.25%float 20.5%float), 1%nat.
  split_and!; vm_compute; reflexivity.
Qed.

Lemma make_cutout_image_draws_fetched_image_witness :
  exists lx,
    (make_cutout_image Demo.env Demo.butler 10.25%float 20.5%float "r" None None
                       (Some "Object ID: 1") false (VStr "stamp.png")
                       (VBool true) "deepCoadd" Demo.start).2
    = Ok (VRef lx).
Proof.
  destruct (make_cutout_image_draws_fetched_image Demo.env Demo.butler
              10.25%float 20.5%float "r" None None (Some "Object ID: 1") false
              (VStr "stamp.png") (VBool true) "deepCoadd" Demo.tract Demo.patch
              (mk_PointI 10 21)
              (Demo.coadd (mk_BoxI (mk_PointI (-15) (-4)) (mk_ExtentI 51 51)))
              (mk_Point2D 10.25%float 20.5%float) (0%float, 1%float)
              0%nat 2%nat [] ∅ (globals Demo.start))
    as (lx & H & _).
  - reflexivity.
  - reflexivity.
  - apply demo_render_ok.
  - apply demo_store_answers.
  - reflexivity.
  - reflexivity.
  - exists lx. exact H.
Defined.

Lemma display_cutout_image_shows_fetched_image_witness :
  exists lx,
    (display_cutout_image Demo.env Demo.butler 10.25%float 20.5%float None None
                          None (Some 2) None "matplotlib" true (VBool false)
                          (VBool false) false "deepCoadd" Demo.start).2
    = Ok (VRef lx).
Proof.
  destruct (display_cutout_image_shows_fetched_image Demo.env Demo.butler
              10.25%float 20.5%float None None None (Some 2) None "matplotlib"
              true (VBool false) (VBool false) false "deepCoadd" Demo.tract
              Demo.patch (mk_PointI 10 21)
              (Demo.coadd (mk_BoxI (mk_PointI (-15) (-4)) (mk_ExtentI 51 51)))
              (mk_Point2D 10.25%float 20.5%float)
              0%nat 2%nat [] ∅ (globals Demo.start))
    as (lx & H & _).
  - reflexivity.
  - apply demo_render_ok.
  - apply demo_store_answers.
  - reflexivity.
  - exists lx. exact H.
Defined.
